(** * python-struct for node: the format walker and its codec tables

    A shallow embedding of [index.js]: the three codec tables
    ([NATIVE_MAP], [LITTLE_ENDIAN_MAP], [BIG_ENDIAN_MAP]), [selectMap], and
    the three walks over a format string ([sizeOf], [unpackFrom], [pack]),
    together with the string and 64-bit codecs they call; and of the second
    copy of the module that the repository holds, written with [var] and an
    object literal, where it differs.

    Numbers that the walker itself computes (sizes, positions, counts) are
    integers and are modelled in [Z]: the numbers of the language hold
    integers exactly below 2^53, and the model speaks for the code as long
    as they stay below that.  A node [Buffer] is a list of bytes
    held as [Z] in [0, 256).  What node and the [long] package provide
    (text conversion, IEEE-754 conversion, numeric coercion of non-numbers,
    the contents of a newly allocated buffer) is collected in the [Host]
    record. *)

From Stdlib Require Import ZArith String Ascii List Bool Lia.
Import ListNotations.
Open Scope Z_scope.

(** ** Values, errors *)

(** The JavaScript values that travel through [pack] and [unpack]. *)
Inductive value : Type :=
| VUndefined
| VNum (n : Z)                              (* a number holding an integer *)
| VReal (bits : Z)                          (* any other number, by its binary64 pattern *)
| VBool (b : bool)
| VStr (s : string)                         (* text; one [ascii] per code unit below 256 *)
| VLong (low high : Z) (unsigned : bool).   (* a [Long] of the long package *)

(** What a call can throw.  The two [Reached...] errors are the ones
    [index.js] raises itself; the other two come from the runtime. *)
Inductive error : Type :=
| TypeError
| RangeError
| ReachedEndOfBuffer     (* 'Reached end of buffer, can't unpack anymore data.' *)
| ReachedEndOfData.      (* 'Reached end of data, no more elements to pack.' *)

Inductive result (A : Type) : Type :=
| Ok (a : A)
| Throw (e : error).
Arguments Ok {A} a.
Arguments Throw {A} e.

Definition bind {A B : Type} (r : result A) (k : A -> result B) : result B :=
  match r with
  | Ok a => k a
  | Throw e => Throw e
  end.

Notation "x <- r ;; k" := (bind r (fun x => k))
  (at level 61, r at next level, right associativity).

(** ** The host *)

Record Host : Type := mkHost {
  (* require('os').endianness() === 'LE' *)
  IS_LITTLE_ENDIAN : bool;
  (* process.arch === 'x64' *)
  IS_64bit : bool;
  (* the byte a buffer made by [new Buffer(size)] holds at an index:
     zero on current node, whatever was in memory on older ones *)
  fresh_byte : Z -> Z;
  (* new Buffer(text, 'utf8') *)
  utf8_encode : string -> list Z;
  (* buffer.toString('utf8') *)
  utf8_decode : list Z -> string;
  (* how many bytes buffer.write(text, ..., 'utf8') stores when it has room
     for [n]: the longest run of whole characters that fits *)
  utf8_fit : string -> Z -> Z;
  (* ToNumber followed by truncation, for values other than integer
     numbers, booleans and undefined *)
  coerce_integer : value -> Z;
  (* truthiness of a number that is not an integer (false for NaN) *)
  real_truthy : Z -> bool;
  (* binary32 and binary64 patterns of a value, and back *)
  float_bits : value -> Z;
  float_of_bits : Z -> value;
  double_bits : value -> Z;
  double_of_bits : Z -> value;
  (* what a read with noAssert returns when it runs off the buffer and
     only these bytes lie inside *)
  unchecked_read : list Z -> value
}.

(** ** Coercions of the language *)

(** The integer an integer write sees ([NaN] is stored as 0). *)
Definition ToInteger (h : Host) (v : value) : Z :=
  match v with
  | VNum n => n
  | VBool b => if b then 1 else 0
  | VUndefined => 0
  | _ => coerce_integer h v
  end.

(** [v ? 1 : 0] and [x || y] look at truthiness. *)
Definition truthy (h : Host) (v : value) : bool :=
  match v with
  | VUndefined => false
  | VNum n => negb (n =? 0)
  | VReal b => real_truthy h b
  | VBool b => b
  | VStr s => negb (String.eqb s EmptyString)
  | VLong _ _ _ => true
  end.

(** [n || d] on numbers. *)
Definition or_default (n d : Z) : Z := if n =? 0 then d else n.

(** The signed reading of the low [bits] bits of [x]. *)
Definition to_signed (bits : Z) (x : Z) : Z :=
  let m := x mod 2 ^ bits in
  if m <? 2 ^ (bits - 1) then m else m - 2 ^ bits.

(** [x | 0] *)
Definition ToInt32 (x : Z) : Z := to_signed 32 x.

(** ** Buffers *)

(** Modelled from the spec: the runtime's buffer, "a fixed-size mutable
    byte array with read/write-at-offset primitives for each numeric width
    and endianness".  The primitives below follow node's [Buffer]: a read
    without [noAssert] throws when it leaves the buffer; a write with
    [noAssert], as every write of [index.js] is, wraps its value to the
    width and drops what falls outside; [fill] and [copy] refuse negative or
    overlong ranges. *)
Definition Buffer : Type := list Z.

Definition buf_length (b : Buffer) : Z := Z.of_nat (length b).

(** [new Buffer(size)] *)
Definition new_Buffer (h : Host) (size : Z) : Buffer :=
  map (fun i => fresh_byte h (Z.of_nat i)) (seq 0 (Z.to_nat size)).

(** [b[i]]: [None] stands for [undefined]. *)
Definition buf_get (b : Buffer) (i : Z) : option Z :=
  if i <? 0 then None else nth_error b (Z.to_nat i).

Fixpoint store (b : Buffer) (i : nat) (v : Z) : Buffer :=
  match b, i with
  | [], _ => []
  | _ :: t, O => v :: t
  | x :: t, S k => x :: store t k v
  end.

(** [b[i] = v]: the value is wrapped to a byte, a store outside the buffer
    is dropped. *)
Definition buf_set (b : Buffer) (i : Z) (v : Z) : Buffer :=
  if i <? 0 then b else store b (Z.to_nat i) (v mod 256).

(** Bytes stored one after the other from [pos]. *)
Fixpoint put_bytes (b : Buffer) (pos : Z) (bytes : list Z) : Buffer :=
  match bytes with
  | [] => b
  | x :: rest => put_bytes (buf_set b pos x) (pos + 1) rest
  end.

(** [b.slice(start, end)]; a negative index counts from the end. *)
Definition clamp_index (b : Buffer) (i : Z) : Z :=
  let i := if i <? 0 then i + buf_length b else i in
  Z.max 0 (Z.min i (buf_length b)).

Definition buf_slice (b : Buffer) (start stop : Z) : Buffer :=
  let s := clamp_index b start in
  let e := clamp_index b stop in
  firstn (Z.to_nat (e - s)) (skipn (Z.to_nat s) b).

(** [b.indexOf(0, pos)]: the first index from [pos] on that holds a zero
    byte, or -1. *)
Fixpoint find_zero (l : list Z) (i : Z) : Z :=
  match l with
  | [] => -1
  | x :: t => if x =? 0 then i else find_zero t (i + 1)
  end.

Definition buf_indexOf0 (b : Buffer) (pos : Z) : Z :=
  let from := clamp_index b pos in
  find_zero (skipn (Z.to_nat from) b) from.

(** [b.fill(0, start, end)] *)
Definition buf_fill0 (b : Buffer) (start stop : Z) : result Buffer :=
  if (start <? 0) || (buf_length b <? stop) then Throw RangeError
  else if stop <=? start then Ok b
  else Ok (put_bytes b start (repeat 0 (Z.to_nat (stop - start)))).

(** [src.copy(target, targetStart, sourceStart, sourceEnd)] *)
Definition buf_copy (src target : Buffer) (targetStart sourceStart sourceEnd : Z)
  : result Buffer :=
  if (targetStart <? 0) || (sourceStart <? 0) || (sourceEnd <? 0) then Throw RangeError
  else if (buf_length target <=? targetStart) || (sourceEnd <=? sourceStart) then Ok target
  else if buf_length src <? sourceStart then Throw RangeError
  else Ok (put_bytes target targetStart
             (firstn (Z.to_nat (buf_length target - targetStart))
                (buf_slice src sourceStart sourceEnd))).

(** [b.write(text, offset, length, 'utf8')]: the new buffer and the number
    of bytes written. *)
Definition buf_write (h : Host) (b : Buffer) (v : value) (offset len : Z)
  : result (Buffer * Z) :=
  match v with
  | VStr s =>
      if (offset <? 0) || (buf_length b <? offset) || (len <? 0) then Throw RangeError
      else
        let room := Z.min len (buf_length b - offset) in
        let written := Z.max 0 (Z.min (utf8_fit h s room) room) in
        Ok (put_bytes b offset (firstn (Z.to_nat written) (utf8_encode h s)), written)
  | _ => Throw TypeError
  end.

(** Little- and big-endian integers. *)
Fixpoint le_bytes (n : nat) (x : Z) : list Z :=
  match n with
  | O => []
  | S k => x mod 256 :: le_bytes k (x / 256)
  end.

Fixpoint le_value (bytes : list Z) : Z :=
  match bytes with
  | [] => 0
  | b :: rest => b + 256 * le_value rest
  end.

Definition ordered (little : bool) (bytes : list Z) : list Z :=
  if little then bytes else rev bytes.

(** The bytes of [b] from [pos], [n] of them, when they all lie inside. *)
Definition bytes_at (b : Buffer) (pos : Z) (n : nat) : option (list Z) :=
  if (pos <? 0) || (buf_length b <? pos + Z.of_nat n) then None
  else Some (firstn n (skipn (Z.to_nat pos) b)).

(** [b.readUIntLE / readUIntBE / readIntLE / readIntBE] of [n] bytes, with
    the offset checked. *)
Definition read_int (b : Buffer) (little signed : bool) (n : nat) (pos : Z)
  : result value :=
  match bytes_at b pos n with
  | Some bytes =>
      let u := le_value (ordered little bytes) in
      Ok (VNum (if signed then to_signed (8 * Z.of_nat n) u else u))
  | None => Throw RangeError
  end.

(** The same with [noAssert], as node honours it up to version 9: nothing
    is thrown.  Later versions ignore the argument and throw a [RangeError]
    when the read leaves the buffer; the two agree on every read that lies
    inside the buffer. *)
Definition read_int_noAssert (h : Host) (b : Buffer) (little signed : bool)
  (n : nat) (pos : Z) : value :=
  match read_int b little signed n pos with
  | Ok v => v
  | Throw _ => unchecked_read h (buf_slice b (Z.max 0 pos) (pos + Z.of_nat n))
  end.

(** [b.writeInt... (value, pos, true)] and [b.writeUInt... (value, pos, true)]:
    with [noAssert], as node honours it up to version 9, the value wraps to
    the width, so the signed and the unsigned write store the same bytes,
    and bytes outside the buffer are dropped.  Later versions ignore the
    argument and throw a [RangeError] for a value outside the range of the
    width or a position outside the buffer; the two agree on a value within
    the range written inside the buffer. *)
Definition write_int (h : Host) (b : Buffer) (little : bool) (n : nat)
  (v : value) (pos : Z) : Buffer :=
  put_bytes b pos (ordered little (le_bytes n (ToInteger h v))).

(** Floating-point reads are checked, writes are not. *)
Definition read_float (h : Host) (b : Buffer) (little : bool) (pos : Z) : result value :=
  match bytes_at b pos 4 with
  | Some bytes => Ok (float_of_bits h (le_value (ordered little bytes)))
  | None => Throw RangeError
  end.

Definition read_double (h : Host) (b : Buffer) (little : bool) (pos : Z) : result value :=
  match bytes_at b pos 8 with
  | Some bytes => Ok (double_of_bits h (le_value (ordered little bytes)))
  | None => Throw RangeError
  end.

Definition write_float (h : Host) (b : Buffer) (little : bool) (v : value) (pos : Z)
  : Buffer :=
  put_bytes b pos (ordered little (le_bytes 4 (float_bits h v))).

Definition write_double (h : Host) (b : Buffer) (little : bool) (v : value) (pos : Z)
  : Buffer :=
  put_bytes b pos (ordered little (le_bytes 8 (double_bits h v))).

(** ** The [long] package *)

(** Modelled from the spec: the 64-bit value of the [long] package, "a pair
    of 32-bit words (high, low)" tagged signed or unsigned, with a plain
    number "auto-promoted to a 64-bit value via sign-extension from a 32-bit
    representation".  [Long.fromBits(low, high, unsigned)] keeps both words
    as signed 32-bit integers. *)
Definition Long_fromBits (low high : Z) (unsigned : bool) : value :=
  VLong (ToInt32 low) (ToInt32 high) unsigned.

(** [Long.fromInt(value)]: sign-extension of the 32-bit integer. *)
Definition Long_fromInt (h : Host) (v : value) : value :=
  let x := ToInt32 (ToInteger h v) in
  Long_fromBits x (if x <? 0 then -1 else 0) false.

(** [data instanceof Long ? data : Long.fromInt(data)], as its two words. *)
Definition Long_words (h : Host) (v : value) : Z * Z :=
  match v with
  | VLong low high _ => (low, high)
  | _ => match Long_fromInt h v with
         | VLong low high _ => (low, high)
         | _ => (0, 0)
         end
  end.

(** ** Codec functions *)

(** A decoder is called as [unpack(data, position, decimal)], an encoder as
    [pack(value, packed, position, decimal)]. *)
Definition decoder : Type := Buffer -> Z -> Z -> result value.
Definition encoder : Type := value -> Buffer -> Z -> Z -> result Buffer.

Section Codecs.

Variable h : Host.

Definition UNPACK_STRING : decoder := fun data pos len =>
  let nextZero := buf_indexOf0 data pos in
  let endIndex :=
    Z.min (pos + len) (if nextZero =? -1 then buf_length data else nextZero) in
  Ok (VStr (utf8_decode h (buf_slice data pos endIndex))).

Definition PACK_STRING : encoder := fun data pack pos len =>
  wr <- buf_write h pack data pos len ;;
  let (pack, written) := (wr : Buffer * Z) in
  if written <? len then buf_fill0 pack (pos + written) (pos + len)
  else Ok pack.

Definition UNPACK_PASCAL_STRING : decoder := fun data pos len =>
  match buf_get data 0 with
  | Some n =>
      let n := if len <=? n then len - 1 else n in
      let pos := pos + 1 in
      Ok (VStr (utf8_decode h (buf_slice data pos (pos + n))))
  | None =>
      (* [undefined] compares false and adds up to NaN, which [slice]
         reads as 0 *)
      let pos := pos + 1 in
      Ok (VStr (utf8_decode h (buf_slice data pos 0)))
  end.

Definition PACK_PASCAL_STRING : encoder := fun data pack pos len =>
  match data with
  | VStr s =>
      let bytes := utf8_encode h s in
      let n := buf_length bytes in
      let n := if len <=? n then len - 1 else n in
      let n := if 255 <? n then 255 else n in
      let bytes := buf_set bytes pos n in
      pack <- buf_copy bytes pack (pos + 1) 0 n ;;
      buf_fill0 pack (pos + 1 + n) (pos + len)
  | _ => Throw TypeError
  end.

Definition UNPACK_UINT32_LE : decoder := fun data pos _ =>
  Ok (read_int_noAssert h data true false 4 pos).
Definition UNPACK_UINT32_BE : decoder := fun data pos _ =>
  Ok (read_int_noAssert h data false false 4 pos).
Definition UNPACK_INT32_LE : decoder := fun data pos _ =>
  Ok (read_int_noAssert h data true true 4 pos).
Definition UNPACK_INT32_BE : decoder := fun data pos _ =>
  Ok (read_int_noAssert h data false true 4 pos).
Definition PACK_UINT32_LE : encoder := fun data pack pos _ =>
  Ok (write_int h pack true 4 data pos).
Definition PACK_UINT32_BE : encoder := fun data pack pos _ =>
  Ok (write_int h pack false 4 data pos).
Definition PACK_INT32_LE : encoder := fun data pack pos _ =>
  Ok (write_int h pack true 4 data pos).
Definition PACK_INT32_BE : encoder := fun data pack pos _ =>
  Ok (write_int h pack false 4 data pos).

(** [Long.fromBits(read(low word), read(high word), unsigned)] *)
Definition unpack_int64 (little unsigned : bool) : decoder := fun data pos _ =>
  let lowAt := if little then pos else pos + 4 in
  let highAt := if little then pos + 4 else pos in
  low <- read_int data little true 4 lowAt ;;
  high <- read_int data little true 4 highAt ;;
  Ok (Long_fromBits (ToInteger h low) (ToInteger h high) unsigned).

Definition UNPACK_UINT64_LE : decoder := unpack_int64 true true.
Definition UNPACK_UINT64_BE : decoder := unpack_int64 false true.
Definition UNPACK_INT64_LE : decoder := unpack_int64 true false.
Definition UNPACK_INT64_BE : decoder := unpack_int64 false false.

Definition PACK_INT64_LE : encoder := fun data pack pos _ =>
  let (low, high) := Long_words h data in
  let pack := write_int h pack true 4 (VNum low) pos in
  Ok (write_int h pack true 4 (VNum high) (pos + 4)).

Definition PACK_INT64_BE : encoder := fun data pack pos _ =>
  let (low, high) := Long_words h data in
  let pack := write_int h pack false 4 (VNum high) pos in
  Ok (write_int h pack false 4 (VNum low) (pos + 4)).

Definition PACK_UINT64_LE : encoder := PACK_INT64_LE.
Definition PACK_UINT64_BE : encoder := PACK_INT64_BE.

(** The functions the tables write in place. *)

(* (data, pos) => String.fromCharCode(data[pos]) *)
Definition unpack_char : decoder := fun data pos _ =>
  let code := match buf_get data pos with Some b => b | None => 0 end in
  Ok (VStr (String (ascii_of_N (Z.to_N code)) EmptyString)).

(* (data, pack, pos) => { pack[pos] = data.charCodeAt(0) } *)
Definition pack_char : encoder := fun data pack pos _ =>
  match data with
  | VStr (String c _) => Ok (buf_set pack pos (Z.of_N (N_of_ascii c)))
  | VStr EmptyString => Ok (buf_set pack pos 0)
  | _ => Throw TypeError
  end.

(* (data, pos) => data.readInt8(pos) *)
Definition unpack_int8 : decoder := fun data pos _ => read_int data true true 1 pos.

(* (data, pack, pos) => { pack.writeInt8(data, pos, true) } *)
Definition pack_int8 : encoder := fun data pack pos _ =>
  Ok (write_int h pack true 1 data pos).

(* (data, pos) => data[pos] *)
Definition unpack_byte : decoder := fun data pos _ =>
  match buf_get data pos with
  | Some b => Ok (VNum b)
  | None => Ok VUndefined
  end.

(* (data, pack, pos) => { pack[pos] = data } *)
Definition pack_byte : encoder := fun data pack pos _ =>
  Ok (buf_set pack pos (ToInteger h data)).

(* (data, pos) => data.readInt16LE(pos) and its three siblings *)
Definition unpack_int16 (little signed : bool) : decoder := fun data pos _ =>
  read_int data little signed 2 pos.

(* (data, pack, pos) => pack.writeInt16LE(data, pos, true) and siblings *)
Definition pack_int16 (little : bool) : encoder := fun data pack pos _ =>
  Ok (write_int h pack little 2 data pos).

(* (data, pos) => data.readFloatLE(pos), (data, pos) => data.readDoubleLE(pos) *)
Definition unpack_float (little : bool) : decoder := fun data pos _ =>
  read_float h data little pos.
Definition unpack_double (little : bool) : decoder := fun data pos _ =>
  read_double h data little pos.

(* (data, pack, pos) => pack.writeFloatLE(data, pos, true), and for doubles *)
Definition pack_float (little : bool) : encoder := fun data pack pos _ =>
  Ok (write_float h pack little data pos).
Definition pack_double (little : bool) : encoder := fun data pack pos _ =>
  Ok (write_double h pack little data pos).

(* (data, pos) => data[pos] !== 0 *)
Definition unpack_bool : decoder := fun data pos _ =>
  match buf_get data pos with
  | Some b => Ok (VBool (negb (b =? 0)))
  | None => Ok (VBool true)
  end.

(* (data, pack, pos) => { pack[pos] = data ? 1 : 0 } *)
Definition pack_bool : encoder := fun data pack pos _ =>
  Ok (buf_set pack pos (if truthy h data then 1 else 0)).

End Codecs.

(** ** The three tables *)

(** A table entry [[size, alignment, unpack, pack]]; [None] is [null]. *)
Record op : Type := mkOp {
  op_size : Z;
  op_align : Z;
  op_unpack : option decoder;
  op_pack : option encoder
}.

(** A table is looked up by one character; [None] is a missing key. *)
Definition table : Type := ascii -> option op.

Section Tables.

Variable h : Host.

Definition NATIVE_MAP : table := fun c =>
  match c with
  | "x" => Some (mkOp 1 1 None None)
  | "c" => Some (mkOp 1 1 (Some (unpack_char)) (Some (pack_char)))
  | "b" => Some (mkOp 1 1 (Some (unpack_int8)) (Some (pack_int8 h)))
  | "B" => Some (mkOp 1 1 (Some (unpack_byte)) (Some (pack_byte h)))
  | "h" => Some (mkOp 2 2
             (Some (if IS_LITTLE_ENDIAN h then unpack_int16 true true else unpack_int16 false true))
             (Some (if IS_LITTLE_ENDIAN h then pack_int16 h true else pack_int16 h false)))
  | "H" => Some (mkOp 2 2
             (Some (if IS_LITTLE_ENDIAN h then unpack_int16 true false else unpack_int16 false false))
             (Some (if IS_LITTLE_ENDIAN h then pack_int16 h true else pack_int16 h false)))
  | "i" => Some (mkOp 4 4
             (Some (if IS_LITTLE_ENDIAN h then UNPACK_INT32_LE h else UNPACK_INT32_BE h))
             (Some (if IS_LITTLE_ENDIAN h then PACK_INT32_LE h else PACK_INT32_BE h)))
  | "I" => Some (mkOp 4 4
             (Some (if IS_LITTLE_ENDIAN h then UNPACK_UINT32_LE h else UNPACK_UINT32_BE h))
             (Some (if IS_LITTLE_ENDIAN h then PACK_UINT32_LE h else PACK_UINT32_BE h)))
  | "l" => Some (mkOp 4 4
             (Some (if IS_LITTLE_ENDIAN h then UNPACK_INT32_LE h else UNPACK_INT32_BE h))
             (Some (if IS_LITTLE_ENDIAN h then PACK_INT32_LE h else PACK_INT32_BE h)))
  | "L" => Some (mkOp 4 4
             (Some (if IS_LITTLE_ENDIAN h then UNPACK_UINT32_LE h else UNPACK_UINT32_BE h))
             (Some (if IS_LITTLE_ENDIAN h then PACK_UINT32_LE h else PACK_UINT32_BE h)))
  | "f" => Some (mkOp 4 4
             (Some (if IS_LITTLE_ENDIAN h then unpack_float h true else unpack_float h false))
             (Some (if IS_LITTLE_ENDIAN h then pack_float h true else pack_float h false)))
  | "d" => Some (mkOp 8 8
             (Some (if IS_LITTLE_ENDIAN h then unpack_double h true else unpack_double h false))
             (Some (if IS_LITTLE_ENDIAN h then pack_double h true else pack_double h false)))
  | "s" => Some (mkOp 1 1 (Some (UNPACK_STRING h)) (Some (PACK_STRING h)))
  | "p" => Some (mkOp 1 1 (Some (UNPACK_PASCAL_STRING h)) (Some (PACK_PASCAL_STRING h)))
  | "P" => Some (mkOp (if IS_64bit h then 8 else 4) (if IS_64bit h then 8 else 4)
             (Some (if IS_LITTLE_ENDIAN h
                    then (if IS_64bit h then UNPACK_UINT64_LE h else UNPACK_UINT32_LE h)
                    else (if IS_64bit h then UNPACK_UINT64_BE h else UNPACK_UINT32_BE h)))
             (Some (if IS_LITTLE_ENDIAN h
                    then (if IS_64bit h then PACK_UINT64_LE h else PACK_UINT32_LE h)
                    else (if IS_64bit h then PACK_UINT64_BE h else PACK_UINT32_BE h))))
  | "q" => Some (mkOp 8 8
             (Some (if IS_LITTLE_ENDIAN h then UNPACK_INT64_LE h else UNPACK_INT64_BE h))
             (Some (if IS_LITTLE_ENDIAN h then PACK_INT64_LE h else PACK_INT64_BE h)))
  | "Q" => Some (mkOp 8 8
             (Some (if IS_LITTLE_ENDIAN h then UNPACK_UINT64_LE h else UNPACK_UINT64_BE h))
             (Some (if IS_LITTLE_ENDIAN h then PACK_UINT64_LE h else PACK_UINT64_BE h)))
  | "?" => Some (mkOp 1 1 (Some (unpack_bool)) (Some (pack_bool h)))
  | _ => None
  end%char.

Definition LITTLE_ENDIAN_MAP : table := fun c =>
  match c with
  | "x" => Some (mkOp 1 1 None None)
  | "c" => Some (mkOp 1 1 (Some (unpack_char)) (Some (pack_char)))
  | "b" => Some (mkOp 1 1 (Some (unpack_int8)) (Some (pack_int8 h)))
  | "B" => Some (mkOp 1 1 (Some (unpack_byte)) (Some (pack_byte h)))
  | "h" => Some (mkOp 2 1 (Some (unpack_int16 true true)) (Some (pack_int16 h true)))
  | "H" => Some (mkOp 2 1 (Some (unpack_int16 true false)) (Some (pack_int16 h true)))
  | "i" => Some (mkOp 4 1 (Some (UNPACK_INT32_LE h)) (Some (PACK_INT32_LE h)))
  | "I" => Some (mkOp 4 1 (Some (UNPACK_UINT32_LE h)) (Some (PACK_UINT32_LE h)))
  | "l" => Some (mkOp 4 1 (Some (UNPACK_INT32_LE h)) (Some (PACK_INT32_LE h)))
  | "L" => Some (mkOp 4 1 (Some (UNPACK_UINT32_LE h)) (Some (PACK_UINT32_LE h)))
  | "f" => Some (mkOp 4 1 (Some (unpack_float h true)) (Some (pack_float h true)))
  | "d" => Some (mkOp 8 1 (Some (unpack_double h true)) (Some (pack_double h true)))
  | "s" => Some (mkOp 1 1 (Some (UNPACK_STRING h)) (Some (PACK_STRING h)))
  | "p" => Some (mkOp 1 1 (Some (UNPACK_PASCAL_STRING h)) (Some (PACK_PASCAL_STRING h)))
  | "P" => Some (mkOp (if IS_64bit h then 8 else 4) 1
             (Some (if IS_64bit h then UNPACK_UINT64_LE h else UNPACK_UINT32_LE h))
             (Some (if IS_64bit h then PACK_UINT64_LE h else PACK_UINT32_LE h)))
  | "q" => Some (mkOp 8 1 (Some (UNPACK_INT64_LE h)) (Some (PACK_INT64_LE h)))
  | "Q" => Some (mkOp 8 1 (Some (UNPACK_UINT64_LE h)) (Some (PACK_UINT64_LE h)))
  | "?" => Some (mkOp 1 1 (Some (unpack_bool)) (Some (pack_bool h)))
  | _ => None
  end%char.

Definition BIG_ENDIAN_MAP : table := fun c =>
  match c with
  | "x" => Some (mkOp 1 1 None None)
  | "c" => Some (mkOp 1 1 (Some (unpack_char)) (Some (pack_char)))
  | "b" => Some (mkOp 1 1 (Some (unpack_int8)) (Some (pack_int8 h)))
  | "B" => Some (mkOp 1 1 (Some (unpack_byte)) (Some (pack_byte h)))
  | "h" => Some (mkOp 2 1 (Some (unpack_int16 false true)) (Some (pack_int16 h false)))
  | "H" => Some (mkOp 2 1 (Some (unpack_int16 false false)) (Some (pack_int16 h false)))
  | "i" => Some (mkOp 4 1 (Some (UNPACK_INT32_BE h)) (Some (PACK_INT32_BE h)))
  | "I" => Some (mkOp 4 1 (Some (UNPACK_UINT32_BE h)) (Some (PACK_UINT32_BE h)))
  | "l" => Some (mkOp 4 1 (Some (UNPACK_INT32_BE h)) (Some (PACK_INT32_BE h)))
  | "L" => Some (mkOp 4 1 (Some (UNPACK_UINT32_BE h)) (Some (PACK_UINT32_BE h)))
  | "f" => Some (mkOp 4 1 (Some (unpack_float h false)) (Some (pack_float h false)))
  | "d" => Some (mkOp 8 1 (Some (unpack_double h false)) (Some (pack_double h false)))
  | "s" => Some (mkOp 1 1 (Some (UNPACK_STRING h)) (Some (PACK_STRING h)))
  | "p" => Some (mkOp 1 1 (Some (UNPACK_PASCAL_STRING h)) (Some (PACK_PASCAL_STRING h)))
  | "P" => Some (mkOp (if IS_64bit h then 8 else 4) 1
             (Some (if IS_64bit h then UNPACK_UINT64_BE h else UNPACK_UINT32_BE h))
             (Some (if IS_64bit h then PACK_UINT64_BE h else PACK_UINT32_BE h)))
  | "q" => Some (mkOp 8 1 (Some (UNPACK_INT64_BE h)) (Some (PACK_INT64_BE h)))
  | "Q" => Some (mkOp 8 1 (Some (UNPACK_UINT64_BE h)) (Some (PACK_UINT64_BE h)))
  | "?" => Some (mkOp 1 1 (Some (unpack_bool)) (Some (pack_bool h)))
  | _ => None
  end%char.

(** ** selectMap *)

Record selection : Type := mkSelection {
  sel_map : table;
  skipFirst : bool
}.

Definition selectMap (format : list ascii) : selection :=
  match format with
  | "<" :: _ => mkSelection LITTLE_ENDIAN_MAP true
  | ">" :: _ => mkSelection BIG_ENDIAN_MAP true
  | "!" :: _ => mkSelection BIG_ENDIAN_MAP true
  | "=" :: _ => mkSelection (if IS_LITTLE_ENDIAN h then LITTLE_ENDIAN_MAP else BIG_ENDIAN_MAP) true
  | "@" :: _ => mkSelection NATIVE_MAP true
  | _ => mkSelection NATIVE_MAP false
  end%char.

End Tables.

(** ** The walks *)

(** [c >= '0' && c <= '9'] *)
Definition is_digit (c : ascii) : bool := (("0" <=? c) && (c <=? "9"))%char.

(** [decimal === null ? c : (decimal + c)] *)
Definition push_digit (decimal : option string) (c : ascii) : option string :=
  match decimal with
  | None => Some (String c EmptyString)
  | Some d => Some (d ++ String c EmptyString)%string
  end.

(** [parseInt(text, 10)] on a run of decimal digits: the integer the digits
    spell, which is the number [parseInt] returns as long as it is below
    2^53. *)
Definition digit_value (c : ascii) : Z := Z.of_N (N_of_ascii c) - 48.

Fixpoint parseInt_from (acc : Z) (s : string) : Z :=
  match s with
  | EmptyString => acc
  | String c rest => parseInt_from (10 * acc + digit_value c) rest
  end.

Definition parseInt (s : string) : Z := parseInt_from 0 s.

(** [decimal ? parseInt(decimal, 10) : 0] *)
Definition count_of (decimal : option string) : Z :=
  match decimal with
  | Some d => if String.eqb d EmptyString then 0 else parseInt d
  | None => 0
  end.

(** [if (align > 1) position = Math.ceil(position / align) * align] *)
Definition align_to (position align : Z) : Z :=
  if 1 <? align then - ((- position) / align) * align else position.

Definition is_s (c : ascii) : bool := (c =? "s")%char.
Definition is_p (c : ascii) : bool := (c =? "p")%char.

(** The size one field occurrence takes and how often it is repeated, as
    [unpackFrom] and [pack] work them out. *)
Definition field_size (c : ascii) (o : op) (decimal : Z) : Z :=
  if is_s c then decimal
  else if is_p c then or_default decimal 1
  else op_size o.

Definition field_repeat (c : ascii) (decimal : Z) : Z :=
  if is_s c then 1
  else if is_p c then 1
  else or_default decimal 1.

(** *** sizeOf *)

Fixpoint sizeOf_loop (map : table) (format : list ascii) (size : Z)
  (decimal : option string) : Z :=
  match format with
  | [] => size
  | c :: rest =>
      if is_digit c then sizeOf_loop map rest size (push_digit decimal c)
      else
        match map c with
        | None => sizeOf_loop map rest size decimal
        | Some o =>
            let size := align_to size (op_align o) in
            let decimal := count_of decimal in
            let size :=
              if is_s c then size + or_default decimal 0
              else if is_p c then size + or_default decimal 1
              else size + op_size o * or_default decimal 1 in
            sizeOf_loop map rest size None
        end
  end.

(** The characters the loop visits: all of them, or all but the first. *)
Definition walked (h : Host) (format : list ascii) : list ascii :=
  if skipFirst (selectMap h format) then skipn 1 format else format.

Definition sizeOf (h : Host) (format : string) : Z :=
  let format := list_ascii_of_string format in
  sizeOf_loop (sel_map (selectMap h format)) (walked h format) 0 None.

(** *** unpackFrom *)

(** The [while (repeat > 0)] loop of [unpackFrom]. *)
Fixpoint unpack_repeat (unpack : option decoder) (data : Buffer) (checkBounds : bool)
  (size decimal : Z) (repeat : nat) (position : Z) (unpacked : list value)
  : result (Z * list value) :=
  match repeat with
  | O => Ok (position, unpacked)
  | S repeat =>
      match unpack with
      | Some f =>
          if checkBounds && (buf_length data <=? position + size)
          then Throw ReachedEndOfBuffer
          else
            v <- f data position decimal ;;
            unpack_repeat unpack data checkBounds size decimal repeat
              (position + size) (unpacked ++ [v])
      | None =>
          unpack_repeat unpack data checkBounds size decimal repeat position unpacked
      end
  end.

(** The state of the [for] loop: position, pending count, values so far. *)
Definition unpack_state : Type := Z * option string * list value.

Fixpoint unpackFrom_loop (map : table) (data : Buffer) (checkBounds : bool)
  (format : list ascii) (st : unpack_state) : result unpack_state :=
  match format with
  | [] => Ok st
  | c :: rest =>
      let '(position, decimal, unpacked) := st in
      if is_digit c
      then unpackFrom_loop map data checkBounds rest
             (position, push_digit decimal c, unpacked)
      else
        match map c with
        | None => unpackFrom_loop map data checkBounds rest st
        | Some o =>
            let position := align_to position (op_align o) in
            let decimal := count_of decimal in
            let size := field_size c o decimal in
            let repeat := field_repeat c decimal in
            r <- unpack_repeat (op_unpack o) data checkBounds size decimal
                   (Z.to_nat repeat) position unpacked ;;
            unpackFrom_loop map data checkBounds rest (fst r, None, snd r)
        end
  end.

Definition unpackFrom (h : Host) (format : string) (data : Buffer) (checkBounds : bool)
  (position : Z) : result (list value) :=
  let format := list_ascii_of_string format in
  st <- unpackFrom_loop (sel_map (selectMap h format)) data checkBounds
          (walked h format) (position, None, []) ;;
  Ok (snd st).

Definition unpack (h : Host) (format : string) (data : Buffer) (checkBounds : bool)
  : result (list value) :=
  unpackFrom h format data checkBounds 0.

(** *** pack *)

(** The [while (repeat > 0)] loop of [pack]; [data[dIndex]] is [undefined]
    past the end of the array. *)
Fixpoint pack_repeat (pack : option encoder) (data : list value) (checkBounds : bool)
  (size decimal : Z) (repeat : nat) (position : Z) (dIndex : nat) (packed : Buffer)
  : result (Z * nat * Buffer) :=
  match repeat with
  | O => Ok (position, dIndex, packed)
  | S repeat =>
      match pack with
      | Some f =>
          if checkBounds && (length data <=? dIndex)%nat
          then Throw ReachedEndOfData
          else
            packed <- f (nth dIndex data VUndefined) packed position decimal ;;
            pack_repeat pack data checkBounds size decimal repeat
              (position + size) (S dIndex) packed
      | None =>
          pack_repeat pack data checkBounds size decimal repeat
            (position + size) dIndex packed
      end
  end.

(** The state of the [for] loop: position, pending count, index of the next
    value, the buffer. *)
Definition pack_state : Type := Z * option string * nat * Buffer.

Fixpoint pack_loop (map : table) (data : list value) (checkBounds : bool)
  (format : list ascii) (st : pack_state) : result pack_state :=
  match format with
  | [] => Ok st
  | c :: rest =>
      let '(position, decimal, dIndex, packed) := st in
      if is_digit c
      then pack_loop map data checkBounds rest
             (position, push_digit decimal c, dIndex, packed)
      else
        match map c with
        | None => pack_loop map data checkBounds rest st
        | Some o =>
            let position := align_to position (op_align o) in
            let decimal := count_of decimal in
            let size := field_size c o decimal in
            let repeat := field_repeat c decimal in
            r <- pack_repeat (op_pack o) data checkBounds size decimal
                   (Z.to_nat repeat) position dIndex packed ;;
            let '(position, dIndex, packed) := r in
            pack_loop map data checkBounds rest (position, None, dIndex, packed)
        end
  end.

(** The rest of [pack], from [let position = 0] to [return packed], on the
    buffer the allocation has made. *)
Definition pack_into (h : Host) (format : string) (data : list value)
  (checkBounds : bool) (packed : Buffer) : result Buffer :=
  let format := list_ascii_of_string format in
  st <- pack_loop (sel_map (selectMap h format)) data checkBounds
          (walked h format) (0, None, 0%nat, packed) ;;
  Ok (snd st).

(** [PythonStruct.sizeOf], a property read on the class.  The methods of
    [class PythonStruct] are declared without [static], so they are
    properties of the prototype and the class object has none of that name:
    the read gives [undefined], here [None]. *)
Definition PythonStruct_sizeOf : option (Host -> string -> Z) := None.

(** The callee of a call expression: calling [undefined] throws a
    [TypeError] before any argument is used. *)
Definition callee {A : Type} (f : option A) : result A :=
  match f with
  | Some g => Ok g
  | None => Throw TypeError
  end.

(** [pack(format, data, checkBounds)] with [data] an array.  The buffer is
    made by [new Buffer(PythonStruct.sizeOf(format))]. *)
Definition pack (h : Host) (format : string) (data : list value) (checkBounds : bool)
  : result Buffer :=
  size_of <- callee PythonStruct_sizeOf ;;
  let packed := new_Buffer h (size_of h format) in
  pack_into h format data checkBounds packed.

(** [pack(format, v1, v2, ...)]: the values are collected from the
    arguments and bounds checking is switched on. *)
Definition pack_arguments (h : Host) (format : string) (values : list value)
  : result Buffer :=
  pack h format values true.

(** ** The copy written with [var]

    The repository holds the module a second time, as an object literal
    [var PythonStruct = { sizeOf: function ..., unpack: function ...,
    pack: function ... }] with [function] expressions in the tables.  It
    differs from [index.js] in three places: [UNPACK_STRING] uses the result
    of [indexOf] as it comes, there is no [unpackFrom] ([unpack] starts at
    position 0 itself), and [PythonStruct.sizeOf] in [pack] is a property of
    the object, hence the function above it.  Its definitions carry the
    suffix [_var]. *)

Definition UNPACK_STRING_var (h : Host) : decoder := fun data pos len =>
  let nextZero := buf_indexOf0 data pos in
  Ok (VStr (utf8_decode h (buf_slice data pos (Z.min (pos + len) nextZero)))).

Section Tables_var.

Variable h : Host.

Definition NATIVE_MAP_var : table := fun c =>
  match c with
  | "x" => Some (mkOp 1 1 None None)
  | "c" => Some (mkOp 1 1 (Some (unpack_char)) (Some (pack_char)))
  | "b" => Some (mkOp 1 1 (Some (unpack_int8)) (Some (pack_int8 h)))
  | "B" => Some (mkOp 1 1 (Some (unpack_byte)) (Some (pack_byte h)))
  | "h" => Some (mkOp 2 2
             (Some (if IS_LITTLE_ENDIAN h then unpack_int16 true true else unpack_int16 false true))
             (Some (if IS_LITTLE_ENDIAN h then pack_int16 h true else pack_int16 h false)))
  | "H" => Some (mkOp 2 2
             (Some (if IS_LITTLE_ENDIAN h then unpack_int16 true false else unpack_int16 false false))
             (Some (if IS_LITTLE_ENDIAN h then pack_int16 h true else pack_int16 h false)))
  | "i" => Some (mkOp 4 4
             (Some (if IS_LITTLE_ENDIAN h then UNPACK_INT32_LE h else UNPACK_INT32_BE h))
             (Some (if IS_LITTLE_ENDIAN h then PACK_INT32_LE h else PACK_INT32_BE h)))
  | "I" => Some (mkOp 4 4
             (Some (if IS_LITTLE_ENDIAN h then UNPACK_UINT32_LE h else UNPACK_UINT32_BE h))
             (Some (if IS_LITTLE_ENDIAN h then PACK_UINT32_LE h else PACK_UINT32_BE h)))
  | "l" => Some (mkOp 4 4
             (Some (if IS_LITTLE_ENDIAN h then UNPACK_INT32_LE h else UNPACK_INT32_BE h))
             (Some (if IS_LITTLE_ENDIAN h then PACK_INT32_LE h else PACK_INT32_BE h)))
  | "L" => Some (mkOp 4 4
             (Some (if IS_LITTLE_ENDIAN h then UNPACK_UINT32_LE h else UNPACK_UINT32_BE h))
             (Some (if IS_LITTLE_ENDIAN h then PACK_UINT32_LE h else PACK_UINT32_BE h)))
  | "f" => Some (mkOp 4 4
             (Some (if IS_LITTLE_ENDIAN h then unpack_float h true else unpack_float h false))
             (Some (if IS_LITTLE_ENDIAN h then pack_float h true else pack_float h false)))
  | "d" => Some (mkOp 8 8
             (Some (if IS_LITTLE_ENDIAN h then unpack_double h true else unpack_double h false))
             (Some (if IS_LITTLE_ENDIAN h then pack_double h true else pack_double h false)))
  | "s" => Some (mkOp 1 1 (Some (UNPACK_STRING_var h)) (Some (PACK_STRING h)))
  | "p" => Some (mkOp 1 1 (Some (UNPACK_PASCAL_STRING h)) (Some (PACK_PASCAL_STRING h)))
  | "P" => Some (mkOp (if IS_64bit h then 8 else 4) (if IS_64bit h then 8 else 4)
             (Some (if IS_LITTLE_ENDIAN h
                    then (if IS_64bit h then UNPACK_UINT64_LE h else UNPACK_UINT32_LE h)
                    else (if IS_64bit h then UNPACK_UINT64_BE h else UNPACK_UINT32_BE h)))
             (Some (if IS_LITTLE_ENDIAN h
                    then (if IS_64bit h then PACK_UINT64_LE h else PACK_UINT32_LE h)
                    else (if IS_64bit h then PACK_UINT64_BE h else PACK_UINT32_BE h))))
  | "q" => Some (mkOp 8 8
             (Some (if IS_LITTLE_ENDIAN h then UNPACK_INT64_LE h else UNPACK_INT64_BE h))
             (Some (if IS_LITTLE_ENDIAN h then PACK_INT64_LE h else PACK_INT64_BE h)))
  | "Q" => Some (mkOp 8 8
             (Some (if IS_LITTLE_ENDIAN h then UNPACK_UINT64_LE h else UNPACK_UINT64_BE h))
             (Some (if IS_LITTLE_ENDIAN h then PACK_UINT64_LE h else PACK_UINT64_BE h)))
  | "?" => Some (mkOp 1 1 (Some (unpack_bool)) (Some (pack_bool h)))
  | _ => None
  end%char.

Definition LITTLE_ENDIAN_MAP_var : table := fun c =>
  match c with
  | "x" => Some (mkOp 1 1 None None)
  | "c" => Some (mkOp 1 1 (Some (unpack_char)) (Some (pack_char)))
  | "b" => Some (mkOp 1 1 (Some (unpack_int8)) (Some (pack_int8 h)))
  | "B" => Some (mkOp 1 1 (Some (unpack_byte)) (Some (pack_byte h)))
  | "h" => Some (mkOp 2 1 (Some (unpack_int16 true true)) (Some (pack_int16 h true)))
  | "H" => Some (mkOp 2 1 (Some (unpack_int16 true false)) (Some (pack_int16 h true)))
  | "i" => Some (mkOp 4 1 (Some (UNPACK_INT32_LE h)) (Some (PACK_INT32_LE h)))
  | "I" => Some (mkOp 4 1 (Some (UNPACK_UINT32_LE h)) (Some (PACK_UINT32_LE h)))
  | "l" => Some (mkOp 4 1 (Some (UNPACK_INT32_LE h)) (Some (PACK_INT32_LE h)))
  | "L" => Some (mkOp 4 1 (Some (UNPACK_UINT32_LE h)) (Some (PACK_UINT32_LE h)))
  | "f" => Some (mkOp 4 1 (Some (unpack_float h true)) (Some (pack_float h true)))
  | "d" => Some (mkOp 8 1 (Some (unpack_double h true)) (Some (pack_double h true)))
  | "s" => Some (mkOp 1 1 (Some (UNPACK_STRING_var h)) (Some (PACK_STRING h)))
  | "p" => Some (mkOp 1 1 (Some (UNPACK_PASCAL_STRING h)) (Some (PACK_PASCAL_STRING h)))
  | "P" => Some (mkOp (if IS_64bit h then 8 else 4) 1
             (Some (if IS_64bit h then UNPACK_UINT64_LE h else UNPACK_UINT32_LE h))
             (Some (if IS_64bit h then PACK_UINT64_LE h else PACK_UINT32_LE h)))
  | "q" => Some (mkOp 8 1 (Some (UNPACK_INT64_LE h)) (Some (PACK_INT64_LE h)))
  | "Q" => Some (mkOp 8 1 (Some (UNPACK_UINT64_LE h)) (Some (PACK_UINT64_LE h)))
  | "?" => Some (mkOp 1 1 (Some (unpack_bool)) (Some (pack_bool h)))
  | _ => None
  end%char.

Definition BIG_ENDIAN_MAP_var : table := fun c =>
  match c with
  | "x" => Some (mkOp 1 1 None None)
  | "c" => Some (mkOp 1 1 (Some (unpack_char)) (Some (pack_char)))
  | "b" => Some (mkOp 1 1 (Some (unpack_int8)) (Some (pack_int8 h)))
  | "B" => Some (mkOp 1 1 (Some (unpack_byte)) (Some (pack_byte h)))
  | "h" => Some (mkOp 2 1 (Some (unpack_int16 false true)) (Some (pack_int16 h false)))
  | "H" => Some (mkOp 2 1 (Some (unpack_int16 false false)) (Some (pack_int16 h false)))
  | "i" => Some (mkOp 4 1 (Some (UNPACK_INT32_BE h)) (Some (PACK_INT32_BE h)))
  | "I" => Some (mkOp 4 1 (Some (UNPACK_UINT32_BE h)) (Some (PACK_UINT32_BE h)))
  | "l" => Some (mkOp 4 1 (Some (UNPACK_INT32_BE h)) (Some (PACK_INT32_BE h)))
  | "L" => Some (mkOp 4 1 (Some (UNPACK_UINT32_BE h)) (Some (PACK_UINT32_BE h)))
  | "f" => Some (mkOp 4 1 (Some (unpack_float h false)) (Some (pack_float h false)))
  | "d" => Some (mkOp 8 1 (Some (unpack_double h false)) (Some (pack_double h false)))
  | "s" => Some (mkOp 1 1 (Some (UNPACK_STRING_var h)) (Some (PACK_STRING h)))
  | "p" => Some (mkOp 1 1 (Some (UNPACK_PASCAL_STRING h)) (Some (PACK_PASCAL_STRING h)))
  | "P" => Some (mkOp (if IS_64bit h then 8 else 4) 1
             (Some (if IS_64bit h then UNPACK_UINT64_BE h else UNPACK_UINT32_BE h))
             (Some (if IS_64bit h then PACK_UINT64_BE h else PACK_UINT32_BE h)))
  | "q" => Some (mkOp 8 1 (Some (UNPACK_INT64_BE h)) (Some (PACK_INT64_BE h)))
  | "Q" => Some (mkOp 8 1 (Some (UNPACK_UINT64_BE h)) (Some (PACK_UINT64_BE h)))
  | "?" => Some (mkOp 1 1 (Some (unpack_bool)) (Some (pack_bool h)))
  | _ => None
  end%char.

Definition selectMap_var (format : list ascii) : selection :=
  match format with
  | "<" :: _ => mkSelection LITTLE_ENDIAN_MAP_var true
  | ">" :: _ => mkSelection BIG_ENDIAN_MAP_var true
  | "!" :: _ => mkSelection BIG_ENDIAN_MAP_var true
  | "=" :: _ =>
      mkSelection (if IS_LITTLE_ENDIAN h then LITTLE_ENDIAN_MAP_var else BIG_ENDIAN_MAP_var)
        true
  | "@" :: _ => mkSelection NATIVE_MAP_var true
  | _ => mkSelection NATIVE_MAP_var false
  end%char.

End Tables_var.

Definition walked_var (h : Host) (format : list ascii) : list ascii :=
  if skipFirst (selectMap_var h format) then skipn 1 format else format.

(** The three loops are those of [index.js], statement for statement. *)
Definition sizeOf_var (h : Host) (format : string) : Z :=
  let format := list_ascii_of_string format in
  sizeOf_loop (sel_map (selectMap_var h format)) (walked_var h format) 0 None.

Definition unpack_var (h : Host) (format : string) (data : Buffer) (checkBounds : bool)
  : result (list value) :=
  let format := list_ascii_of_string format in
  st <- unpackFrom_loop (sel_map (selectMap_var h format)) data checkBounds
          (walked_var h format) (0, None, []) ;;
  Ok (snd st).

(** [PythonStruct.sizeOf] is the [sizeOf] of the object literal. *)
Definition PythonStruct_sizeOf_var : option (Host -> string -> Z) := Some sizeOf_var.

Definition pack_var (h : Host) (format : string) (data : list value)
  (checkBounds : bool) : result Buffer :=
  size_of <- callee PythonStruct_sizeOf_var ;;
  let packed := new_Buffer h (size_of h format) in
  let format := list_ascii_of_string format in
  st <- pack_loop (sel_map (selectMap_var h format)) data checkBounds
          (walked_var h format) (0, None, 0%nat, packed) ;;
  Ok (snd st).

Definition pack_arguments_var (h : Host) (format : string) (values : list value)
  : result Buffer :=
  pack_var h format values true.

(** ** A host to run examples on *)

(** Little-endian, 64-bit, new buffers hold zeros; text is kept to 7-bit
    characters, for which UTF-8 is one byte per character; numbers are
    converted as IEEE-754 has it. *)
Definition ascii_bytes (s : string) : list Z :=
  map (fun c => Z.of_N (N_of_ascii c)) (list_ascii_of_string s).

Definition bytes_ascii (l : list Z) : string :=
  string_of_list_ascii (map (fun b => ascii_of_N (Z.to_N b)) l).

(** IEEE-754 numbers as that host converts them.  A finite number is
    [(-1)^s * m * 2^e] with [m >= 0] and [e] integers. *)
Inductive ieee : Type :=
| Finite (negative : bool) (m e : Z)
| Infinity (negative : bool)
| NaN.

(** The number a pattern with [ebits] exponent bits and [fbits] fraction
    bits stands for. *)
Definition ieee_decode (ebits fbits bits : Z) : ieee :=
  let negative := Z.testbit bits (ebits + fbits) in
  let e := (bits / 2 ^ fbits) mod 2 ^ ebits in
  let f := bits mod 2 ^ fbits in
  let bias := 2 ^ (ebits - 1) - 1 in
  if e =? 2 ^ ebits - 1 then (if f =? 0 then Infinity negative else NaN)
  else if e =? 0 then Finite negative f (1 - bias - fbits)
  else Finite negative (2 ^ fbits + f) (e - bias - fbits).

(** [m / 2^shift] rounded to the nearest integer, ties to the even one. *)
Definition round_half_even (m shift : Z) : Z :=
  let d := m / 2 ^ shift in
  let r := m mod 2 ^ shift in
  let half := 2 ^ (shift - 1) in
  if r <? half then d
  else if half <? r then d + 1
  else if Z.even d then d else d + 1.

(** The pattern of the nearest number of the format; [q] is the exponent
    of the last place that is kept. *)
Definition ieee_encode (ebits fbits : Z) (x : ieee) : Z :=
  let bias := 2 ^ (ebits - 1) - 1 in
  let top := (2 ^ ebits - 1) * 2 ^ fbits in
  let sign (negative : bool) := if negative then 2 ^ (ebits + fbits) else 0 in
  match x with
  | NaN => top + 2 ^ (fbits - 1)
  | Infinity negative => sign negative + top
  | Finite negative m e =>
      if m =? 0 then sign negative
      else
        let emin := 1 - bias - fbits in
        let q := Z.max (Z.log2 m + e - fbits) emin in
        let mant := if e <? q then round_half_even m (q - e) else m * 2 ^ (e - q) in
        sign negative + Z.min ((q - emin) * 2 ^ fbits + mant) top
  end.

(** A number as a value: a [VNum] when it is an integer, a [VReal] with its
    binary64 pattern when it is not. *)
Definition number (x : ieee) : value :=
  match x with
  | Finite negative m e =>
      let sign := if negative then -1 else 1 in
      if m =? 0 then (if negative then VReal (ieee_encode 11 52 x) else VNum 0)
      else if 0 <=? e then VNum (sign * (m * 2 ^ e))
      else if m mod 2 ^ (- e) =? 0 then VNum (sign * (m / 2 ^ (- e)))
      else VReal (ieee_encode 11 52 x)
  | _ => VReal (ieee_encode 11 52 x)
  end.

(** [ToNumber].  A [Long] goes through its [toString]; the empty text is 0
    and any other text is taken to be no numeral. *)
Definition ToNumber (v : value) : ieee :=
  match v with
  | VUndefined => NaN
  | VNum n => Finite (n <? 0) (Z.abs n) 0
  | VReal bits => ieee_decode 11 52 bits
  | VBool b => Finite false (if b then 1 else 0) 0
  | VStr s => if String.eqb s EmptyString then Finite false 0 0 else NaN
  | VLong low high unsigned =>
      let n := if unsigned then (high * 2 ^ 32 + low mod 2 ^ 32) mod 2 ^ 64
               else high * 2 ^ 32 + low mod 2 ^ 32 in
      Finite (n <? 0) (Z.abs n) 0
  end.

(** Truncation towards zero; [NaN] and the infinities give 0. *)
Definition truncate (x : ieee) : Z :=
  match x with
  | Finite negative m e =>
      (if negative then -1 else 1) * (if 0 <=? e then m * 2 ^ e else m / 2 ^ (- e))
  | _ => 0
  end.

Definition is_truthy (x : ieee) : bool :=
  match x with
  | Finite _ m _ => negb (m =? 0)
  | Infinity _ => true
  | NaN => false
  end.

Definition x64 : Host := {|
  IS_LITTLE_ENDIAN := true;
  IS_64bit := true;
  fresh_byte := fun _ => 0;
  utf8_encode := ascii_bytes;
  utf8_decode := bytes_ascii;
  utf8_fit := fun s n => Z.min n (Z.of_nat (String.length s));
  coerce_integer := fun v => truncate (ToNumber v);
  real_truthy := fun bits => is_truthy (ieee_decode 11 52 bits);
  float_bits := fun v => ieee_encode 8 23 (ToNumber v);
  float_of_bits := fun bits => number (ieee_decode 8 23 bits);
  double_bits := fun v => ieee_encode 11 52 (ToNumber v);
  double_of_bits := fun bits => number (ieee_decode 11 52 bits);
  unchecked_read := fun _ => VUndefined
|}.

(** ** Vocabulary for the properties *)

Definition type_codes : list ascii :=
  ["x"; "c"; "b"; "B"; "h"; "H"; "i"; "I"; "l"; "L"; "f"; "d"; "s"; "p"; "P";
   "q"; "Q"; "?"]%char.

(** The codes that are repeated rather than given a length. *)
Definition scalar_codes : list ascii :=
  ["x"; "c"; "b"; "B"; "h"; "H"; "i"; "I"; "l"; "L"; "f"; "d"; "P"; "q"; "Q";
   "?"]%char.

(** One of the three tables of host [h]. *)
Definition is_table (h : Host) (m : table) : Prop :=
  m = NATIVE_MAP h \/ m = LITTLE_ENDIAN_MAP h \/ m = BIG_ENDIAN_MAP h.

(** A pending count holds decimal digits only. *)
Fixpoint digits_only (s : string) : Prop :=
  match s with
  | EmptyString => True
  | String c rest => is_digit c = true /\ digits_only rest
  end.

Definition pending_ok (decimal : option string) : Prop :=
  match decimal with
  | None => True
  | Some d => digits_only d
  end.

(** The prefixes a format can start with; the empty one stands for a format
    without prefix. *)
Definition all_prefixes : list string := [""; "@"; "="; "<"; ">"; "!"]%string.
Definition native_prefixes : list string := [""; "@"]%string.
Definition standard_prefixes : list string := ["="; "<"; ">"; "!"]%string.

(** The count that is pending when a walk has gone through [format]: the
    [decimal] variable of the three loops, which they all update alike. *)
Fixpoint pending (m : table) (format : list ascii) (decimal : option string)
  : option string :=
  match format with
  | [] => decimal
  | c :: rest =>
      if is_digit c then pending m rest (push_digit decimal c)
      else
        match m c with
        | None => pending m rest decimal
        | Some _ => pending m rest None
        end
  end.

Definition pending_count (h : Host) (format : string) : option string :=
  let format := list_ascii_of_string format in
  pending (sel_map (selectMap h format)) (walked h format) None.

(** The decoding occurrences [unpackFrom] comes to, in order, each as the
    position it is read at and its size: the loop of [unpackFrom] with the
    reads left out. *)
Fixpoint repeat_sites (size : Z) (repeat : nat) (position : Z) : list (Z * Z) :=
  match repeat with
  | O => []
  | S repeat => (position, size) :: repeat_sites size repeat (position + size)
  end.

Fixpoint unpack_sites (m : table) (format : list ascii) (position : Z)
  (decimal : option string) : list (Z * Z) :=
  match format with
  | [] => []
  | c :: rest =>
      if is_digit c then unpack_sites m rest position (push_digit decimal c)
      else
        match m c with
        | None => unpack_sites m rest position decimal
        | Some o =>
            let position := align_to position (op_align o) in
            let decimal := count_of decimal in
            let size := field_size c o decimal in
            let repeat := Z.to_nat (field_repeat c decimal) in
            match op_unpack o with
            | Some _ =>
                repeat_sites size repeat position
                  ++ unpack_sites m rest (position + Z.of_nat repeat * size) None
            | None => unpack_sites m rest position None
            end
        end
  end.

Definition decode_sites (h : Host) (format : string) (position : Z) : list (Z * Z) :=
  let format := list_ascii_of_string format in
  unpack_sites (sel_map (selectMap h format)) (walked h format) position None.

(** The span of an occurrence reaches or passes the end of the buffer:
    [position + size >= data.length]. *)
Definition reaches_end (data : Buffer) (site : Z * Z) : Prop :=
  buf_length data <= fst site + snd site.

(** The number of values a format asks for: the occurrences at which
    [pack] has an encoder to call. *)
Fixpoint pack_slots (m : table) (format : list ascii) (decimal : option string) : nat :=
  match format with
  | [] => 0
  | c :: rest =>
      if is_digit c then pack_slots m rest (push_digit decimal c)
      else
        match m c with
        | None => pack_slots m rest decimal
        | Some o =>
            let decimal := count_of decimal in
            let repeat := Z.to_nat (field_repeat c decimal) in
            match op_pack o with
            | Some _ => (repeat + pack_slots m rest None)%nat
            | None => pack_slots m rest None
            end
        end
  end.

Definition value_slots (h : Host) (format : string) : nat :=
  let format := list_ascii_of_string format in
  pack_slots (sel_map (selectMap h format)) (walked h format) None.

(** The values a code is meant to carry.  For [f] and [d] these are the
    values the host's IEEE-754 conversion takes to a bit pattern of the
    width and back; for the 64-bit codes they are [Long]s with the
    signedness of the code; [P] follows the width of the host. *)
Inductive representable (h : Host) : ascii -> value -> Prop :=
| rep_char ch : representable h "c" (VStr (String ch EmptyString))
| rep_int8 x : -128 <= x < 128 -> representable h "b" (VNum x)
| rep_uint8 x : 0 <= x < 256 -> representable h "B" (VNum x)
| rep_int16 x : -32768 <= x < 32768 -> representable h "h" (VNum x)
| rep_uint16 x : 0 <= x < 65536 -> representable h "H" (VNum x)
| rep_int32 c x :
    c = "i"%char \/ c = "l"%char ->
    -2147483648 <= x < 2147483648 -> representable h c (VNum x)
| rep_uint32 c x :
    c = "I"%char \/ c = "L"%char ->
    0 <= x < 4294967296 -> representable h c (VNum x)
| rep_float v :
    float_of_bits h (float_bits h v mod 2 ^ 32) = v -> representable h "f" v
| rep_double v :
    double_of_bits h (double_bits h v mod 2 ^ 64) = v -> representable h "d" v
| rep_int64 low high :
    -2147483648 <= low < 2147483648 -> -2147483648 <= high < 2147483648 ->
    representable h "q" (VLong low high false)
| rep_uint64 low high :
    -2147483648 <= low < 2147483648 -> -2147483648 <= high < 2147483648 ->
    representable h "Q" (VLong low high true)
| rep_pointer32 x :
    IS_64bit h = false -> 0 <= x < 4294967296 -> representable h "P" (VNum x)
| rep_pointer64 low high :
    IS_64bit h = true ->
    -2147483648 <= low < 2147483648 -> -2147483648 <= high < 2147483648 ->
    representable h "P" (VLong low high true)
| rep_bool b : representable h "?" (VBool b).

(** The first characters that name a byte order. *)
Definition byte_order_prefixes : list ascii := ["<"; ">"; "!"; "="]%char.

(** Two tables with the same keys and sizes, the first of which does not
    align. *)
Definition same_sizes_unaligned (m1 m2 : table) : Prop :=
  forall c,
    match m1 c, m2 c with
    | Some o1, Some o2 => op_size o1 = op_size o2 /\ op_align o1 = 1 /\ 0 < op_size o1
    | None, None => True
    | _, _ => False
    end.

(** The codes of the occurrences that take a value, in order: the loop of
    [pack] with the writes left out. *)
Fixpoint pack_codes (m : table) (format : list ascii) (decimal : option string)
  : list ascii :=
  match format with
  | [] => []
  | c :: rest =>
      if is_digit c then pack_codes m rest (push_digit decimal c)
      else
        match m c with
        | None => pack_codes m rest decimal
        | Some o =>
            let decimal := count_of decimal in
            let repeat := Z.to_nat (field_repeat c decimal) in
            match op_pack o with
            | Some _ => List.repeat c repeat ++ pack_codes m rest None
            | None => pack_codes m rest None
            end
        end
  end.

Definition value_codes (h : Host) (format : string) : list ascii :=
  let format := list_ascii_of_string format in
  pack_codes (sel_map (selectMap h format)) (walked h format) None.

(** The codes left aside when whole formats are packed and unpacked again:
    the pad code and the two text codes. *)
Definition pad_or_text (c : ascii) : bool :=
  ((c =? "x") || (c =? "s") || (c =? "p"))%char.

(** A format made of the other codes only. *)
Definition plain (format : string) : Prop :=
  existsb pad_or_text (list_ascii_of_string format) = false.

(** A result of the decoding loops with its position moved on by [k]. *)
Definition moved_repeat (k : Z) (r : result (Z * list value)) : result (Z * list value) :=
  match r with
  | Ok (position, unpacked) => Ok (k + position, unpacked)
  | Throw e => Throw e
  end.

Definition moved_state (k : Z) (r : result unpack_state) : result unpack_state :=
  match r with
  | Ok (position, decimal, unpacked) => Ok (k + position, decimal, unpacked)
  | Throw e => Throw e
  end.

(** A format without the pascal code. *)
Definition no_pascal (format : string) : Prop :=
  existsb is_p (list_ascii_of_string format) = false.

(** What the rest of [pack] makes of a new buffer of the computed size:
    [pack] as it would go on were the allocation to succeed. *)
Definition pack_fresh (h : Host) (format : string) (data : list value)
  (checkBounds : bool) : result Buffer :=
  pack_into h format data checkBounds (new_Buffer h (sizeOf h format)).

(** Two tables with the same keys, sizes, alignments and encoders, and the
    same decoders except for the code [s]. *)
Definition same_but_text (m m' : table) : Prop :=
  forall c,
    match m c, m' c with
    | Some o, Some o' =>
        op_size o = op_size o' /\ op_align o = op_align o'
        /\ op_pack o = op_pack o'
        /\ (is_s c = false -> op_unpack o = op_unpack o')
    | None, None => True
    | _, _ => False
    end.

(** A format without the code [s]. *)
Definition no_text (format : list ascii) : Prop :=
  existsb is_s format = false.

(** The same counts on the copy written with [var]. *)
Definition value_slots_var (h : Host) (format : string) : nat :=
  let format := list_ascii_of_string format in
  pack_slots (sel_map (selectMap_var h format)) (walked_var h format) None.

Definition value_codes_var (h : Host) (format : string) : list ascii :=
  let format := list_ascii_of_string format in
  pack_codes (sel_map (selectMap_var h format)) (walked_var h format) None.

Definition pending_count_var (h : Host) (format : string) : option string :=
  let format := list_ascii_of_string format in
  pending (sel_map (selectMap_var h format)) (walked_var h format) None.

(** * Properties *)

(** ** The keys of the tables *)

Lemma selectMap_is_table h format : is_table h (sel_map (selectMap h format)).
Proof.
  unfold is_table.
  destruct format as [|c rest]; [now left|].
  destruct c as [[] [] [] [] [] [] [] []]; cbn; auto.
  destruct (IS_LITTLE_ENDIAN h); auto.
Qed.

Ltac split_ascii c := destruct c as [[] [] [] [] [] [] [] []].

Ltac pick_member := repeat (first [left; reflexivity | right]).

Lemma table_key h m c o : is_table h m -> m c = Some o -> In c type_codes.
Proof.
  intros [-> | [-> | ->]] H; split_ascii c;
    first [discriminate H | unfold type_codes; pick_member].
Qed.

Lemma table_has_codes h m c : is_table h m -> In c type_codes -> exists o, m c = Some o.
Proof.
  intros Hm Hc. unfold type_codes in Hc.
  repeat (destruct Hc as [<- | Hc];
          [destruct Hm as [-> | [-> | ->]]; eexists; reflexivity|]).
  destruct Hc.
Qed.

(** Case analysis on an entry of one of the tables: the goal is left with a
    concrete code in a concrete table. *)
Ltac table_cases Hm Hc :=
  let Hin := fresh "Hin" in
  pose proof (table_key _ _ _ _ Hm Hc) as Hin;
  unfold type_codes in Hin;
  repeat (destruct Hin as [<- | Hin]);
  [ .. | destruct Hin ];
  destruct Hm as [-> | [-> | ->]];
  cbn in Hc; injection Hc as <-.

Lemma type_code_not_digit c : In c type_codes -> is_digit c = false.
Proof.
  unfold type_codes; intros H.
  repeat (destruct H as [<- | H]; [reflexivity|]). destruct H.
Qed.

(** Sizes and alignments in the tables are positive. *)
Lemma table_size_pos h m c o : is_table h m -> m c = Some o -> 0 < op_size o.
Proof.
  intros Hm Hc. table_cases Hm Hc; cbn; try lia; destruct (IS_64bit h); lia.
Qed.

Lemma table_align_pos h m c o : is_table h m -> m c = Some o -> 0 < op_align o.
Proof.
  intros Hm Hc. table_cases Hm Hc; cbn; try lia; destruct (IS_64bit h); lia.
Qed.

(** ** Counts and alignment *)

Lemma digits_only_app a b : digits_only a -> digits_only b -> digits_only (a ++ b).
Proof. induction a; cbn; intuition. Qed.

Lemma push_digit_ok decimal c :
  pending_ok decimal -> is_digit c = true -> pending_ok (push_digit decimal c).
Proof.
  destruct decimal as [d|]; cbn; intros Hd Hc; [|tauto].
  apply digits_only_app; cbn; tauto.
Qed.

Lemma digit_value_range c : is_digit c = true -> 0 <= digit_value c <= 9.
Proof.
  split_ascii c; cbn; intros H; try discriminate H; unfold digit_value; cbn; lia.
Qed.

Lemma parseInt_from_nonneg s : forall acc,
  digits_only s -> 0 <= acc -> 0 <= parseInt_from acc s.
Proof.
  induction s as [|c s IH]; cbn [parseInt_from digits_only]; intros acc Hs Hacc;
    [assumption|].
  destruct Hs as [Hc Hs]. apply IH; [assumption|].
  pose proof (digit_value_range c Hc). lia.
Qed.

Lemma count_of_nonneg decimal : pending_ok decimal -> 0 <= count_of decimal.
Proof.
  destruct decimal as [d|]; cbn; [|lia].
  intros Hd. destruct (String.eqb d ""); [lia|].
  apply parseInt_from_nonneg; [assumption|lia].
Qed.

Lemma or_default_nonneg n d : 0 <= n -> 0 <= d -> 0 <= or_default n d.
Proof. unfold or_default; destruct (n =? 0); lia. Qed.

Lemma or_default_one_pos n : 0 <= n -> 0 < or_default n 1.
Proof. unfold or_default; destruct (Z.eqb_spec n 0); lia. Qed.

(** Aligning moves a position up, never down, and by less than the
    alignment. *)
Lemma align_to_bounds position align :
  position <= align_to position align < position + Z.max 1 align.
Proof.
  unfold align_to. destruct (Z.ltb_spec 1 align) as [Ha|Ha]; [|lia].
  pose proof (Z.div_mod (- position) align ltac:(lia)) as Hdm.
  pose proof (Z.mod_pos_bound (- position) align ltac:(lia)) as Hb.
  set (q := - position / align) in *. set (r := (- position) mod align) in *.
  replace (- q * align) with (position + r) by lia. lia.
Qed.

Lemma align_to_ge position align : position <= align_to position align.
Proof. apply align_to_bounds. Qed.

Lemma align_to_multiple position align :
  1 < align -> (align_to position align) mod align = 0.
Proof.
  intros Ha. unfold align_to. destruct (Z.ltb_spec 1 align); [|lia].
  apply Z.mod_mul; lia.
Qed.

Lemma field_size_nonneg h m c o decimal :
  is_table h m -> m c = Some o -> 0 <= decimal -> 0 <= field_size c o decimal.
Proof.
  intros Hm Hc Hd. unfold field_size.
  destruct (is_s c); [assumption|].
  destruct (is_p c); [apply or_default_nonneg; lia|].
  pose proof (table_size_pos _ _ _ _ Hm Hc); lia.
Qed.

(** ** Buffers keep their length *)

Lemma store_length b : forall i v, length (store b i v) = length b.
Proof. induction b; destruct i; cbn; intros; auto. Qed.

Lemma buf_set_length b i v : length (buf_set b i v) = length b.
Proof. unfold buf_set; destruct (i <? 0); [reflexivity|apply store_length]. Qed.

Lemma put_bytes_length bytes : forall b pos, length (put_bytes b pos bytes) = length b.
Proof.
  induction bytes as [|x rest IH]; cbn; intros; [reflexivity|].
  rewrite IH. apply buf_set_length.
Qed.

Lemma new_Buffer_length h size : 0 <= size -> buf_length (new_Buffer h size) = size.
Proof.
  intros Hs. unfold buf_length, new_Buffer.
  rewrite length_map, length_seq. lia.
Qed.

Lemma buf_fill0_length b start stop b' :
  buf_fill0 b start stop = Ok b' -> length b' = length b.
Proof.
  unfold buf_fill0.
  destruct ((start <? 0) || (buf_length b <? stop)); [discriminate|].
  destruct (stop <=? start); intros [= <-]; [reflexivity|apply put_bytes_length].
Qed.

Lemma buf_copy_length src target ts ss se b' :
  buf_copy src target ts ss se = Ok b' -> length b' = length target.
Proof.
  unfold buf_copy.
  destruct ((ts <? 0) || (ss <? 0) || (se <? 0)); [discriminate|].
  destruct ((buf_length target <=? ts) || (se <=? ss)); [now intros [= <-]|].
  destruct (buf_length src <? ss); [discriminate|].
  intros [= <-]. apply put_bytes_length.
Qed.

Lemma buf_write_length h b v offset len b' written :
  buf_write h b v offset len = Ok (b', written) -> length b' = length b.
Proof.
  unfold buf_write. destruct v; try discriminate.
  destruct ((offset <? 0) || (buf_length b <? offset) || (len <? 0)); [discriminate|].
  intros [= <- _]. apply put_bytes_length.
Qed.

Lemma write_int_length h b little n v pos :
  length (write_int h b little n v pos) = length b.
Proof. apply put_bytes_length. Qed.

(** Every encoder of the tables returns a buffer of the length it was
    given. *)
Lemma encoder_keeps_length h m c o f v b pos decimal b' :
  is_table h m -> m c = Some o -> op_pack o = Some f ->
  f v b pos decimal = Ok b' -> length b' = length b.
Proof.
  intros Hm Hc Hf Hr.
  table_cases Hm Hc; cbn in Hf; try discriminate Hf; injection Hf as <-;
    try destruct (IS_LITTLE_ENDIAN h); try destruct (IS_64bit h);
    try (unfold PACK_UINT64_LE, PACK_UINT64_BE, PACK_INT64_LE, PACK_INT64_BE in Hr;
         destruct (Long_words h v));
    try (injection Hr as <-;
         first [ apply put_bytes_length | apply buf_set_length
               | rewrite !write_int_length; reflexivity ]).
  all: try (unfold pack_char in Hr; destruct v as [| | | |s|]; try discriminate Hr;
            destruct s; injection Hr as <-; apply buf_set_length).
  all: try (unfold PACK_STRING, bind in Hr;
            destruct (buf_write h b v pos decimal) as [[b1 w]|] eqn:Hw;
              [|discriminate Hr];
            apply buf_write_length in Hw;
            destruct (w <? decimal);
              [apply buf_fill0_length in Hr; congruence | injection Hr as <-; exact Hw]).
  all: try (unfold PACK_PASCAL_STRING, bind in Hr;
            destruct v as [| | | |s|]; try discriminate Hr;
            match type of Hr with
            | match ?x with _ => _ end = _ => destruct x as [b1|] eqn:Hcp
            end; [|discriminate Hr];
            apply buf_copy_length in Hcp; apply buf_fill0_length in Hr; congruence).
Qed.

(** ** The computed size *)

Lemma sizeOf_loop_ge h m : is_table h m -> forall format size decimal,
  pending_ok decimal -> size <= sizeOf_loop m format size decimal.
Proof.
  intros Hm format; induction format as [|c rest IH]; intros size decimal Hd;
    cbn [sizeOf_loop]; [lia|].
  destruct (is_digit c) eqn:Hdig; [apply IH, push_digit_ok; assumption|].
  destruct (m c) as [o|] eqn:Hc; [|apply IH; assumption].
  pose proof (table_size_pos _ _ _ _ Hm Hc) as Hsz.
  pose proof (align_to_ge size (op_align o)) as Hal.
  pose proof (count_of_nonneg _ Hd) as Hn.
  pose proof (or_default_nonneg (count_of decimal) 0 Hn ltac:(lia)).
  pose proof (or_default_nonneg (count_of decimal) 1 Hn ltac:(lia)).
  match goal with |- _ <= sizeOf_loop _ _ ?s _ => specialize (IH s None I) end.
  destruct (is_s c); [lia|]. destruct (is_p c); [lia|]. nia.
Qed.

Lemma sizeOf_nonneg h format : 0 <= sizeOf h format.
Proof.
  unfold sizeOf. eapply sizeOf_loop_ge; [apply selectMap_is_table|exact I].
Qed.

(** ** Lengths through [pack] *)

Lemma pack_repeat_length h m c o : is_table h m -> m c = Some o ->
  forall data cb size decimal repeat position dIndex packed position' dIndex' packed',
  pack_repeat (op_pack o) data cb size decimal repeat position dIndex packed
    = Ok (position', dIndex', packed') ->
  length packed' = length packed.
Proof.
  intros Hm Hc data cb size decimal repeat.
  induction repeat as [|n IH]; intros position dIndex packed position' dIndex' packed';
    cbn [pack_repeat].
  - now intros [= _ _ <-].
  - destruct (op_pack o) as [f|] eqn:Hf; [|apply IH].
    destruct (cb && (length data <=? dIndex)%nat); [discriminate|].
    unfold bind.
    destruct (f (nth dIndex data VUndefined) packed position decimal) as [b1|] eqn:Hw;
      [|discriminate].
    intros Hr. apply IH in Hr.
    rewrite Hr. eapply encoder_keeps_length; eassumption.
Qed.

Lemma pack_loop_length h m : is_table h m ->
  forall data cb format position decimal dIndex packed st',
  pack_loop m data cb format (position, decimal, dIndex, packed) = Ok st' ->
  length (snd st') = length packed.
Proof.
  intros Hm data cb format; induction format as [|c rest IH];
    intros position decimal dIndex packed st'; cbn [pack_loop].
  - now intros [= <-].
  - destruct (is_digit c); [apply IH|].
    destruct (m c) as [o|] eqn:Hc; [|apply IH].
    unfold bind.
    match goal with
    | |- match ?x with _ => _ end = _ -> _ => destruct x as [[[p1 d1] b1]|] eqn:Hr
    end; [|discriminate].
    intros Hl. apply IH in Hl. rewrite Hl.
    eapply pack_repeat_length; eassumption.
Qed.

(** ** Walking a format in two parts *)

Lemma list_ascii_of_string_app a b :
  list_ascii_of_string (a ++ b) = list_ascii_of_string a ++ list_ascii_of_string b.
Proof. induction a; cbn; congruence. Qed.

(** Only the first character matters to [selectMap], so a format that is
    not empty decides the selection for whatever follows it. *)
Lemma selectMap_app h pre rest :
  pre <> [] -> selectMap h (pre ++ rest) = selectMap h pre.
Proof. destruct pre; [congruence|reflexivity]. Qed.

Lemma walked_app h pre rest :
  pre <> [] -> walked h (pre ++ rest) = walked h pre ++ rest.
Proof.
  intros Hp. unfold walked. rewrite selectMap_app by assumption.
  destruct pre; [congruence|]. destruct (skipFirst _); reflexivity.
Qed.

(** An unrecognized character inside a format changes none of the walks. *)
Lemma sizeOf_loop_skip m c post : is_digit c = false -> m c = None ->
  forall pre size decimal,
  sizeOf_loop m (pre ++ c :: post) size decimal = sizeOf_loop m (pre ++ post) size decimal.
Proof.
  intros Hdig Hc pre; induction pre as [|a pre IH]; intros size decimal;
    cbn [app sizeOf_loop].
  - now rewrite Hdig, Hc.
  - destruct (is_digit a); [apply IH|]. destruct (m a); apply IH.
Qed.

Lemma unpackFrom_loop_skip m data cb c post : is_digit c = false -> m c = None ->
  forall pre st,
  unpackFrom_loop m data cb (pre ++ c :: post) st = unpackFrom_loop m data cb (pre ++ post) st.
Proof.
  intros Hdig Hc pre; induction pre as [|a pre IH]; intros [[position decimal] unpacked];
    cbn [app unpackFrom_loop].
  - now rewrite Hdig, Hc.
  - destruct (is_digit a); [apply IH|]. destruct (m a); [|apply IH].
    unfold bind. destruct (unpack_repeat _ _ _ _ _ _ _ _); [apply IH|reflexivity].
Qed.

Lemma pack_loop_skip m data cb c post : is_digit c = false -> m c = None ->
  forall pre st,
  pack_loop m data cb (pre ++ c :: post) st = pack_loop m data cb (pre ++ post) st.
Proof.
  intros Hdig Hc pre; induction pre as [|a pre IH];
    intros [[[position decimal] dIndex] packed]; cbn [app pack_loop].
  - now rewrite Hdig, Hc.
  - destruct (is_digit a); [apply IH|]. destruct (m a); [|apply IH].
    unfold bind. destruct (pack_repeat _ _ _ _ _ _ _ _ _) as [[[p1 d1] b1]|];
      [apply IH|reflexivity].
Qed.

Lemma table_no_key h m c : is_table h m -> ~ In c type_codes -> m c = None.
Proof.
  intros Hm Hn. destruct (m c) as [o|] eqn:Hc; [|reflexivity].
  elim Hn. eapply table_key; eassumption.
Qed.

(** ** The buffer [pack] returns *)

(** C7, evaluated: [pack] makes its buffer with
    [new Buffer(PythonStruct.sizeOf(format))].  [sizeOf] is a method of the
    class, not a static member, so [PythonStruct.sizeOf] is [undefined] and
    the call throws a [TypeError] before a buffer exists: whatever the
    format, the values and the flag, no call of [pack] completes, and none
    returns a buffer of the computed size. *)
Theorem pack_stops_at_allocation h format data checkBounds :
  pack h format data checkBounds = Throw TypeError
  /\ (forall packed, pack h format data checkBounds <> Ok packed)
  /\ pack x64 "<H" [VNum 1] false = Throw TypeError
  /\ sizeOf x64 "<H" = 2.
Proof.
  assert (H : pack h format data checkBounds = Throw TypeError) by reflexivity.
  split; [exact H|]. split; [|split; reflexivity].
  intros packed. rewrite H. discriminate.
Qed.

(** ** Characters that are not type codes *)

(** C6, as the code has it: a character that is neither a digit nor a type
    code, standing anywhere after the first character of the format, is
    passed over and nothing else happens, so a count written before it is
    still pending afterwards and goes to the next type code.  The format
    with the character and the format without it give the same size and the
    same decoded values; [pack] gives the same on both (it stops at its
    allocation, see C7), and so does the rest of [pack] on any buffer.
    ([pre] is not empty: the first character of a format is the one
    [selectMap] looks at, so both formats select the same table.) *)
Theorem unrecognized_char_keeps_count h pre c post data values checkBounds position :
  pre <> EmptyString ->
  is_digit c = false ->
  ~ In c type_codes ->
  sizeOf h (pre ++ String c post) = sizeOf h (pre ++ post)
  /\ unpackFrom h (pre ++ String c post) data checkBounds position
     = unpackFrom h (pre ++ post) data checkBounds position
  /\ pack h (pre ++ String c post) values checkBounds
     = pack h (pre ++ post) values checkBounds
  /\ (forall packed,
        pack_into h (pre ++ String c post) values checkBounds packed
        = pack_into h (pre ++ post) values checkBounds packed).
Proof.
  intros Hpre Hdig Hkey.
  assert (Hne : list_ascii_of_string pre <> []) by (destruct pre; [congruence|discriminate]).
  assert (Hsize : sizeOf h (pre ++ String c post) = sizeOf h (pre ++ post)).
  { unfold sizeOf. rewrite !list_ascii_of_string_app.
    rewrite !selectMap_app, !walked_app by assumption.
    cbn [list_ascii_of_string].
    apply sizeOf_loop_skip; [assumption|].
    eapply table_no_key; [apply selectMap_is_table|assumption]. }
  split; [exact Hsize|split; [|split]].
  - unfold unpackFrom. rewrite !list_ascii_of_string_app.
    rewrite !selectMap_app, !walked_app by assumption.
    cbn [list_ascii_of_string].
    rewrite unpackFrom_loop_skip; [reflexivity|assumption|].
    eapply table_no_key; [apply selectMap_is_table|assumption].
  - reflexivity.
  - intros packed. unfold pack_into. rewrite !list_ascii_of_string_app.
    rewrite !selectMap_app, !walked_app by assumption.
    cbn [list_ascii_of_string].
    rewrite pack_loop_skip; [reflexivity|assumption|].
    eapply table_no_key; [apply selectMap_is_table|assumption].
Qed.

Lemma unrecognized_char_keeps_count_witness :
  sizeOf x64 "<2 i" = sizeOf x64 "<2i"
  /\ unpackFrom x64 "<2 B" [7; 9] false 0 = unpackFrom x64 "<2B" [7; 9] false 0
  /\ pack_into x64 "<2 B" [VNum 7; VNum 9] false [0; 0]
     = pack_into x64 "<2B" [VNum 7; VNum 9] false [0; 0]
  /\ pack_into x64 "<2 B" [VNum 7; VNum 9] false [0; 0] = Ok [7; 9]
  /\ pack x64 "<2 B" [VNum 7; VNum 9] false = Throw TypeError.
Proof.
  assert (Hkey : ~ In " "%char type_codes).
  { unfold type_codes; cbn; intros H;
      repeat (destruct H as [H|H]; [discriminate H|]); exact H. }
  pose proof (unrecognized_char_keeps_count x64 "<2" " " "i" [7; 9] [VNum 7; VNum 9]
                false 0 ltac:(discriminate) eq_refl Hkey) as [H1 _].
  pose proof (unrecognized_char_keeps_count x64 "<2" " " "B" [7; 9] [VNum 7; VNum 9]
                false 0 ltac:(discriminate) eq_refl Hkey) as [_ [H2 [_ H3]]].
  exact (conj H1 (conj H2 (conj (H3 [0; 0]) (conj eq_refl eq_refl)))).
Defined.

(** C6, as the claim words it, fails: the digits before an unrecognized
    character are not swallowed.  In ['2 i'] the count 2 reaches [i] across
    the blank (8 bytes, where [' i'] has 4), and ['<2 B'] decodes two bytes
    where ['< B'] decodes one. *)
Lemma count_survives_unrecognized_char :
  sizeOf x64 "2 i" <> sizeOf x64 " i"
  /\ unpack x64 "<2 B" [7; 9] false <> unpack x64 "< B" [7; 9] false
  /\ sizeOf x64 "2 i" = 8
  /\ sizeOf x64 " i" = 4
  /\ unpack x64 "<2 B" [7; 9] false = Ok [VNum 7; VNum 9]
  /\ unpack x64 "< B" [7; 9] false = Ok [VNum 7].
Proof. repeat split; try reflexivity; vm_compute; discriminate. Qed.

(** ** Sizes of small formats *)

(** C8: with every prefix, five ints take five times the size of one; a
    byte followed by an int takes the byte, padding up to the next multiple
    of four, and the int under a native prefix (8 bytes in all), and just
    the two sizes added up (5 bytes) under a standard prefix. *)
Theorem size_additivity h :
  Forall (fun p => sizeOf h (p ++ "5i") = 5 * sizeOf h (p ++ "i")) all_prefixes
  /\ Forall (fun p =>
       let padding := align_to (sizeOf h "b") 4 - sizeOf h "b" in
       sizeOf h (p ++ "bi") = sizeOf h "b" + padding + sizeOf h (p ++ "i")
       /\ padding = 3
       /\ sizeOf h (p ++ "bi") = 8) native_prefixes
  /\ Forall (fun p =>
       sizeOf h (p ++ "bi") = sizeOf h "b" + sizeOf h (p ++ "i")
       /\ sizeOf h (p ++ "bi") = 5) standard_prefixes.
Proof.
  unfold all_prefixes, native_prefixes, standard_prefixes.
  repeat split; repeat constructor;
    unfold sizeOf; cbn; destruct (IS_LITTLE_ENDIAN h); reflexivity.
Qed.

(** ** A count of zero on a repeated code *)

Lemma scalar_code_is_type_code c : In c scalar_codes -> In c type_codes.
Proof.
  unfold scalar_codes; intros H.
  repeat (destruct H as [<- | H]; [unfold type_codes; pick_member|]). destruct H.
Qed.

Lemma scalar_code_not_text c : In c scalar_codes -> is_s c = false /\ is_p c = false.
Proof.
  unfold scalar_codes; intros H.
  repeat (destruct H as [<- | H]; [split; reflexivity|]). destruct H.
Qed.

(** The codecs of the repeated codes take no notice of the count they are
    handed as last argument. *)
Lemma scalar_decoder_ignores_count h m c o f : is_table h m -> m c = Some o ->
  is_s c = false -> is_p c = false -> op_unpack o = Some f ->
  forall data pos d1 d2, f data pos d1 = f data pos d2.
Proof.
  intros Hm Hc Hs Hp Hf.
  table_cases Hm Hc; try discriminate Hs; try discriminate Hp;
    cbn in Hf; try discriminate Hf; injection Hf as <-;
    try destruct (IS_LITTLE_ENDIAN h); try destruct (IS_64bit h); reflexivity.
Qed.

Lemma scalar_encoder_ignores_count h m c o f : is_table h m -> m c = Some o ->
  is_s c = false -> is_p c = false -> op_pack o = Some f ->
  forall v packed pos d1 d2, f v packed pos d1 = f v packed pos d2.
Proof.
  intros Hm Hc Hs Hp Hf.
  table_cases Hm Hc; try discriminate Hs; try discriminate Hp;
    cbn in Hf; try discriminate Hf; injection Hf as <-;
    try destruct (IS_LITTLE_ENDIAN h); try destruct (IS_64bit h); reflexivity.
Qed.

Lemma unpack_repeat_ignores_count h m c o data cb size d1 d2 :
  is_table h m -> m c = Some o -> is_s c = false -> is_p c = false ->
  forall repeat position unpacked,
  unpack_repeat (op_unpack o) data cb size d1 repeat position unpacked
  = unpack_repeat (op_unpack o) data cb size d2 repeat position unpacked.
Proof.
  intros Hm Hc Hs Hp repeat; induction repeat as [|n IH]; intros position unpacked;
    cbn [unpack_repeat]; [reflexivity|].
  destruct (op_unpack o) as [f|] eqn:Hf; [|apply IH].
  rewrite (scalar_decoder_ignores_count _ _ _ _ _ Hm Hc Hs Hp Hf data position d1 d2).
  destruct (cb && _); [reflexivity|].
  unfold bind. destruct (f data position d2); [apply IH|reflexivity].
Qed.

Lemma pack_repeat_ignores_count h m c o data cb size d1 d2 :
  is_table h m -> m c = Some o -> is_s c = false -> is_p c = false ->
  forall repeat position dIndex packed,
  pack_repeat (op_pack o) data cb size d1 repeat position dIndex packed
  = pack_repeat (op_pack o) data cb size d2 repeat position dIndex packed.
Proof.
  intros Hm Hc Hs Hp repeat; induction repeat as [|n IH]; intros position dIndex packed;
    cbn [pack_repeat]; [reflexivity|].
  destruct (op_pack o) as [f|] eqn:Hf; [|apply IH].
  rewrite (scalar_encoder_ignores_count _ _ _ _ _ Hm Hc Hs Hp Hf
             (nth dIndex data VUndefined) packed position d1 d2).
  destruct (cb && _); [reflexivity|].
  unfold bind. destruct (f _ packed position d2); [apply IH|reflexivity].
Qed.

(** Two continuations that agree whenever no count is pending agree after
    any beginning that leaves no count pending. *)
Lemma sizeOf_loop_after m t1 t2 :
  (forall size, sizeOf_loop m t1 size None = sizeOf_loop m t2 size None) ->
  forall pre size decimal, pending m pre decimal = None ->
  sizeOf_loop m (pre ++ t1) size decimal = sizeOf_loop m (pre ++ t2) size decimal.
Proof.
  intros Ht pre; induction pre as [|a pre IH]; intros size decimal;
    cbn [app pending sizeOf_loop].
  - intros ->. apply Ht.
  - destruct (is_digit a); [apply IH|]. destruct (m a); apply IH.
Qed.

Lemma unpackFrom_loop_after m data cb t1 t2 :
  (forall position unpacked,
     unpackFrom_loop m data cb t1 (position, None, unpacked)
     = unpackFrom_loop m data cb t2 (position, None, unpacked)) ->
  forall pre position decimal unpacked, pending m pre decimal = None ->
  unpackFrom_loop m data cb (pre ++ t1) (position, decimal, unpacked)
  = unpackFrom_loop m data cb (pre ++ t2) (position, decimal, unpacked).
Proof.
  intros Ht pre; induction pre as [|a pre IH]; intros position decimal unpacked;
    cbn [app pending unpackFrom_loop].
  - intros ->. apply Ht.
  - destruct (is_digit a); [apply IH|]. destruct (m a); [|apply IH].
    intros Hp. unfold bind.
    destruct (unpack_repeat _ _ _ _ _ _ _ _) as [[p1 u1]|]; [|reflexivity].
    apply IH, Hp.
Qed.

Lemma pack_loop_after m data cb t1 t2 :
  (forall position dIndex packed,
     pack_loop m data cb t1 (position, None, dIndex, packed)
     = pack_loop m data cb t2 (position, None, dIndex, packed)) ->
  forall pre position decimal dIndex packed, pending m pre decimal = None ->
  pack_loop m data cb (pre ++ t1) (position, decimal, dIndex, packed)
  = pack_loop m data cb (pre ++ t2) (position, decimal, dIndex, packed).
Proof.
  intros Ht pre; induction pre as [|a pre IH]; intros position decimal dIndex packed;
    cbn [app pending pack_loop].
  - intros ->. apply Ht.
  - destruct (is_digit a); [apply IH|]. destruct (m a); [|apply IH].
    intros Hp. unfold bind.
    destruct (pack_repeat _ _ _ _ _ _ _ _ _) as [[[p1 d1] b1]|]; [|reflexivity].
    apply IH, Hp.
Qed.

Lemma sizeOf_field_zero h m c post : is_table h m -> In c scalar_codes ->
  forall size,
  sizeOf_loop m ("0"%char :: c :: post) size None
  = sizeOf_loop m ("1"%char :: c :: post) size None
  /\ sizeOf_loop m ("0"%char :: c :: post) size None
     = sizeOf_loop m (c :: post) size None.
Proof.
  intros Hm Hc size.
  pose proof (type_code_not_digit _ (scalar_code_is_type_code _ Hc)) as Hdig.
  destruct (table_has_codes _ _ _ Hm (scalar_code_is_type_code _ Hc)) as [o Ho].
  destruct (scalar_code_not_text _ Hc) as [Hs Hp].
  cbn [sizeOf_loop]. change (is_digit "0") with true. change (is_digit "1") with true.
  cbn iota. cbn [sizeOf_loop]. rewrite Hdig, Ho, Hs, Hp.
  split; reflexivity.
Qed.

Lemma unpack_field_zero h m data cb c post : is_table h m -> In c scalar_codes ->
  forall position unpacked,
  unpackFrom_loop m data cb ("0"%char :: c :: post) (position, None, unpacked)
  = unpackFrom_loop m data cb ("1"%char :: c :: post) (position, None, unpacked)
  /\ unpackFrom_loop m data cb ("0"%char :: c :: post) (position, None, unpacked)
     = unpackFrom_loop m data cb (c :: post) (position, None, unpacked).
Proof.
  intros Hm Hc position unpacked.
  pose proof (type_code_not_digit _ (scalar_code_is_type_code _ Hc)) as Hdig.
  destruct (table_has_codes _ _ _ Hm (scalar_code_is_type_code _ Hc)) as [o Ho].
  destruct (scalar_code_not_text _ Hc) as [Hs Hp].
  cbn [unpackFrom_loop]. change (is_digit "0") with true. change (is_digit "1") with true.
  cbn iota. cbn [unpackFrom_loop]. rewrite Hdig, Ho.
  unfold field_size, field_repeat. rewrite Hs, Hp.
  change (count_of (push_digit None "0")) with 0.
  change (count_of (push_digit None "1")) with 1.
  change (count_of None) with 0.
  rewrite (unpack_repeat_ignores_count h m c o data cb (op_size o) 0 1 Hm Ho Hs Hp).
  split; reflexivity.
Qed.

Lemma pack_field_zero h m data cb c post : is_table h m -> In c scalar_codes ->
  forall position dIndex packed,
  pack_loop m data cb ("0"%char :: c :: post) (position, None, dIndex, packed)
  = pack_loop m data cb ("1"%char :: c :: post) (position, None, dIndex, packed)
  /\ pack_loop m data cb ("0"%char :: c :: post) (position, None, dIndex, packed)
     = pack_loop m data cb (c :: post) (position, None, dIndex, packed).
Proof.
  intros Hm Hc position dIndex packed.
  pose proof (type_code_not_digit _ (scalar_code_is_type_code _ Hc)) as Hdig.
  destruct (table_has_codes _ _ _ Hm (scalar_code_is_type_code _ Hc)) as [o Ho].
  destruct (scalar_code_not_text _ Hc) as [Hs Hp].
  cbn [pack_loop]. change (is_digit "0") with true. change (is_digit "1") with true.
  cbn iota. cbn [pack_loop]. rewrite Hdig, Ho.
  unfold field_size, field_repeat. rewrite Hs, Hp.
  change (count_of (push_digit None "0")) with 0.
  change (count_of (push_digit None "1")) with 1.
  change (count_of None) with 0.
  rewrite (pack_repeat_ignores_count h m c o data cb (op_size o) 0 1 Hm Ho Hs Hp).
  split; reflexivity.
Qed.

(** A format that starts with a digit or with a repeated code has no prefix. *)
Lemma selectMap_no_prefix h c rest :
  is_digit c = true \/ In c type_codes ->
  selectMap h (c :: rest) = mkSelection (NATIVE_MAP h) false.
Proof.
  intros [H|H].
  - split_ascii c; try discriminate H; reflexivity.
  - unfold type_codes in H.
    repeat (destruct H as [<- | H]; [reflexivity|]). destruct H.
Qed.

(** The selection and the characters walked after a beginning [pre],
    whether [pre] is empty or not, when what follows has no prefix. *)
Lemma selection_after h pre c rest :
  is_digit c = true \/ In c type_codes ->
  let whole := list_ascii_of_string pre ++ c :: rest in
  sel_map (selectMap h whole) = sel_map (selectMap h (list_ascii_of_string pre))
  /\ walked h whole = walked h (list_ascii_of_string pre) ++ c :: rest.
Proof.
  intros Hc. destruct pre as [|a pre].
  - cbn [list_ascii_of_string app]. unfold walked.
    rewrite (selectMap_no_prefix h c rest Hc). split; reflexivity.
  - cbn zeta. rewrite selectMap_app, walked_app by discriminate. split; reflexivity.
Qed.

(** ** Pad bytes *)

(** C2, evaluated: [unpackFrom] moves its position only inside
    [if (unpack)], so a pad code, whose decoder is [null], leaves the
    position where it was, and the field after it is read from the pad
    byte's own offset.  ['<xB'] decodes exactly as ['<B'] does, on any host,
    buffer and start position; with the bytes 17 and 34 it returns 17, the
    pad byte, where [sizeOf] has counted the pad byte (2 bytes, the value
    at offset 1).  Three pad bytes are stepped over no better. *)
Theorem pad_leaves_unpack_position :
  (forall h data checkBounds position,
     unpackFrom h "<xB" data checkBounds position
     = unpackFrom h "<B" data checkBounds position)
  /\ unpack x64 "<xB" [17; 34] false = Ok [VNum 17]
  /\ sizeOf x64 "<xB" = 2
  /\ unpack x64 "<3xB" [17; 34; 51; 68] false = Ok [VNum 17]
  /\ sizeOf x64 "<3xB" = 4.
Proof. repeat split; reflexivity. Qed.

(** ** Pascal strings *)

Lemma store_other b : forall i j v, i <> j -> nth_error (store b j v) i = nth_error b i.
Proof.
  induction b as [|x b IH]; intros i j v Hij; destruct j, i; cbn; try reflexivity;
    try congruence.
  apply IH. congruence.
Qed.

Lemma buf_set_other b i j v : i <> j -> buf_get (buf_set b j v) i = buf_get b i.
Proof.
  intros Hij. unfold buf_get, buf_set.
  destruct (Z.ltb_spec i 0); [reflexivity|].
  destruct (Z.ltb_spec j 0); [reflexivity|].
  apply store_other. lia.
Qed.

Lemma put_bytes_before bytes : forall b start i,
  i < start -> buf_get (put_bytes b start bytes) i = buf_get b i.
Proof.
  induction bytes as [|x rest IH]; intros b start i Hi; cbn [put_bytes]; [reflexivity|].
  rewrite IH by lia. apply buf_set_other. lia.
Qed.

Lemma buf_fill0_before b start stop b' i :
  buf_fill0 b start stop = Ok b' -> i < start -> buf_get b' i = buf_get b i.
Proof.
  unfold buf_fill0.
  destruct ((start <? 0) || (buf_length b <? stop)); [discriminate|].
  destruct (stop <=? start); intros [= <-] Hi; [reflexivity|].
  apply put_bytes_before; assumption.
Qed.

Lemma buf_copy_before src target ts ss se b' i :
  buf_copy src target ts ss se = Ok b' -> i < ts -> buf_get b' i = buf_get target i.
Proof.
  unfold buf_copy.
  destruct ((ts <? 0) || (ss <? 0) || (se <? 0)); [discriminate|].
  destruct ((buf_length target <=? ts) || (se <=? ss)); [now intros [= <-]|].
  destruct (buf_length src <? ss); [discriminate|].
  intros [= <-] Hi. apply put_bytes_before; assumption.
Qed.

(** C3, evaluated: [PACK_PASCAL_STRING] stores the count with
    [bytes[pos] = n], into the buffer holding the text, not into the output.
    Whatever the text and the length, the output byte at the start of the
    field is the one that was there before.  Called with ['abc'] on a field
    of 4 zero bytes it leaves a first byte 0 followed by 3, 98, 99: the
    count has overwritten the first character of the text.  With 300 bytes
    of text in a zeroed field of 400, the first byte is again 0, not 255,
    and 254 bytes of text follow the 255. *)
Theorem pascal_count_not_in_output :
  (forall h v packed pos len packed',
     PACK_PASCAL_STRING h v packed pos len = Ok packed' ->
     buf_get packed' pos = buf_get packed pos)
  /\ PACK_PASCAL_STRING x64 (VStr "abc") [0; 0; 0; 0] 0 4 = Ok [0; 3; 98; 99]
  /\ (exists packed,
        PACK_PASCAL_STRING x64 (VStr (string_of_list_ascii (repeat "a"%char 300)))
          (repeat 0 400) 0 400 = Ok packed
        /\ buf_get packed 0 = Some 0 /\ buf_get packed 1 = Some 255
        /\ buf_slice packed 2 256 = repeat 97 254
        /\ buf_slice packed 256 400 = repeat 0 144).
Proof.
  split; [|split].
  - intros h v packed pos len packed'. unfold PACK_PASCAL_STRING, bind.
    destruct v as [| | | |s|]; try discriminate.
    match goal with
    | |- match ?x with _ => _ end = _ -> _ => destruct x as [b1|] eqn:Hcp
    end; [|discriminate].
    intros Hf.
    rewrite (buf_fill0_before _ _ _ _ pos Hf).
    + apply (buf_copy_before _ _ _ _ _ _ pos Hcp). lia.
    + set (n0 := buf_length (utf8_encode h s)) in *.
      assert (0 <= n0) by (unfold n0, buf_length; lia).
      unfold buf_copy in Hcp.
      destruct (Z.ltb_spec (pos + 1) 0); [discriminate|].
      destruct (Z.ltb_spec 0 0); [lia|].
      match type of Hcp with
      | context [?n <? 0] => destruct (Z.ltb_spec n 0) as [Hn|Hn]
      end; [discriminate|lia].
  - reflexivity.
  - eexists. split; [vm_compute; reflexivity|]. repeat split; reflexivity.
Qed.

(** C4, evaluated: [UNPACK_PASCAL_STRING] takes the count from [data[0]],
    the first byte of the whole buffer, wherever the field starts.  In
    ['<B3p'] over the bytes 2, 1, 65, 66 the pascal field starts at offset 1
    and its own count byte is 1, which would give ['A']; the count used is
    the 2 at offset 0 and the result is ['AB'].  The same happens when
    [unpackFrom] is started at a later position. *)
Theorem pascal_count_read_at_zero :
  (forall h data pos len n,
     buf_get data 0 = Some n ->
     UNPACK_PASCAL_STRING h data pos len
     = Ok (VStr (utf8_decode h
                   (buf_slice data (pos + 1)
                      (pos + 1 + (if len <=? n then len - 1 else n))))))
  /\ unpack x64 "<B3p" [2; 1; 65; 66] false = Ok [VNum 2; VStr "AB"]
  /\ unpack x64 "<3p" [1; 65; 66] false = Ok [VStr "A"]
  /\ unpackFrom x64 "<3p" [0; 0; 1; 65; 66] false 2 = Ok [VStr ""].
Proof.
  split; [|repeat split; reflexivity].
  intros h data pos len n Hn. unfold UNPACK_PASCAL_STRING. rewrite Hn. reflexivity.
Qed.

(** ** Bounds checking in [unpackFrom] *)

Lemma bytes_at_inside b pos n :
  0 <= pos -> pos + Z.of_nat n <= buf_length b ->
  exists bytes, bytes_at b pos n = Some bytes.
Proof.
  intros Hp Hn. unfold bytes_at.
  destruct (Z.ltb_spec pos 0); [lia|].
  destruct (Z.ltb_spec (buf_length b) (pos + Z.of_nat n)); [lia|].
  eexists; reflexivity.
Qed.

Lemma read_int_inside b little signed n pos :
  0 <= pos -> pos + Z.of_nat n <= buf_length b ->
  exists x, read_int b little signed n pos = Ok (VNum x).
Proof.
  intros Hp Hn. unfold read_int.
  destruct (bytes_at_inside b pos n Hp Hn) as [bytes ->]. eexists; reflexivity.
Qed.

Lemma unpack_int64_inside h little unsigned data pos d :
  0 <= pos -> pos + 8 <= buf_length data ->
  exists v, unpack_int64 h little unsigned data pos d = Ok v.
Proof.
  intros Hp Hn. unfold unpack_int64, bind.
  destruct little.
  - destruct (read_int_inside data true true 4 pos) as [x ->]; [lia|cbn; lia|].
    destruct (read_int_inside data true true 4 (pos + 4)) as [y ->]; [lia|cbn; lia|].
    eexists; reflexivity.
  - destruct (read_int_inside data false true 4 (pos + 4)) as [x ->]; [lia|cbn; lia|].
    destruct (read_int_inside data false true 4 pos) as [y ->]; [lia|cbn; lia|].
    eexists; reflexivity.
Qed.

(** A decoder of the tables returns a value when the field lies inside the
    buffer. *)
Lemma decoder_inside h m c o f data pos decimal :
  is_table h m -> m c = Some o -> op_unpack o = Some f ->
  0 <= pos -> pos + field_size c o decimal < buf_length data ->
  exists v, f data pos decimal = Ok v.
Proof.
  intros Hm Hc Hf Hp Hn.
  table_cases Hm Hc; cbn in Hf; try discriminate Hf; injection Hf as <-;
    unfold field_size in Hn; cbn in Hn;
    try destruct (IS_LITTLE_ENDIAN h); try destruct (IS_64bit h);
    try (eexists; reflexivity);
    try (apply unpack_int64_inside; lia).
  all: try (unfold unpack_byte; destruct (buf_get data pos); eexists; reflexivity).
  all: try (unfold unpack_bool; destruct (buf_get data pos); eexists; reflexivity).
  all: try (unfold UNPACK_PASCAL_STRING; destruct (buf_get data 0); eexists; reflexivity).
  all: try (unfold unpack_int8, unpack_int16;
            match goal with
            | |- exists v, read_int ?b ?l ?s ?n ?p = Ok v =>
                destruct (read_int_inside b l s n p) as [x ->];
                [lia|cbn; lia|eexists; reflexivity]
            end).
  all: unfold unpack_float, unpack_double, read_float, read_double;
    match goal with
    | |- context [bytes_at ?b ?p ?n] =>
        destruct (bytes_at_inside b p n) as [bytes ->];
        [lia|cbn; lia|eexists; reflexivity]
    end.
Qed.

Lemma unpack_repeat_null data cb size decimal : forall repeat position unpacked,
  unpack_repeat None data cb size decimal repeat position unpacked
  = Ok (position, unpacked).
Proof. induction repeat; intros; cbn [unpack_repeat]; auto. Qed.

(** With bounds checking the [while] loop stops with the end-of-buffer
    error at the first occurrence whose span reaches the end, and runs
    through when there is none. *)
Lemma unpack_repeat_checked h m c o f data decimal :
  is_table h m -> m c = Some o -> op_unpack o = Some f ->
  let size := field_size c o decimal in
  0 <= size ->
  forall repeat position unpacked, 0 <= position ->
  match unpack_repeat (Some f) data true size decimal repeat position unpacked with
  | Ok (position', _) =>
      position' = position + Z.of_nat repeat * size
      /\ ~ Exists (reaches_end data) (repeat_sites size repeat position)
  | Throw e =>
      e = ReachedEndOfBuffer
      /\ Exists (reaches_end data) (repeat_sites size repeat position)
  end.
Proof.
  intros Hm Hc Hf size Hsize repeat.
  induction repeat as [|n IH]; intros position unpacked Hpos;
    cbn [unpack_repeat repeat_sites].
  - split; [lia|]. intros H; inversion H.
  - cbn [andb]. destruct (Z.leb_spec (buf_length data) (position + size)) as [Hend|Hin].
    + split; [reflexivity|]. left. exact Hend.
    + destruct (decoder_inside h m c o f data position decimal Hm Hc Hf Hpos Hin)
        as [v Hv].
      fold size. rewrite Hv. cbn [bind].
      specialize (IH (position + size) (unpacked ++ [v]) ltac:(lia)).
      destruct (unpack_repeat _ _ _ _ _ _ _ _) as [[p1 u1]|e].
      * destruct IH as [IH1 IH2]. split; [lia|].
        intros H; inversion H; subst; [unfold reaches_end in *; cbn in *; lia|tauto].
      * destruct IH as [IH1 IH2]. split; [assumption|]. right. assumption.
Qed.

Lemma unpack_loop_checked h m data : is_table h m ->
  forall format position decimal unpacked,
  0 <= position -> pending_ok decimal ->
  match unpackFrom_loop m data true format (position, decimal, unpacked) with
  | Ok _ => ~ Exists (reaches_end data) (unpack_sites m format position decimal)
  | Throw e =>
      e = ReachedEndOfBuffer
      /\ Exists (reaches_end data) (unpack_sites m format position decimal)
  end.
Proof.
  intros Hm format; induction format as [|c rest IH];
    intros position decimal unpacked Hpos Hdec; cbn [unpackFrom_loop unpack_sites].
  - intros H; inversion H.
  - destruct (is_digit c) eqn:Hdig; [apply IH; [assumption|apply push_digit_ok; assumption]|].
    destruct (m c) as [o|] eqn:Hc; [|apply IH; assumption].
    pose proof (align_to_ge position (op_align o)) as Hal.
    pose proof (count_of_nonneg _ Hdec) as Hcount.
    pose proof (field_size_nonneg h m c o _ Hm Hc Hcount) as Hsize.
    set (pos1 := align_to position (op_align o)) in *.
    set (n := count_of decimal) in *.
    destruct (op_unpack o) as [f|] eqn:Hf.
    + pose proof (unpack_repeat_checked h m c o f data n Hm Hc Hf Hsize
                    (Z.to_nat (field_repeat c n)) pos1 unpacked ltac:(lia)) as Hrep.
      cbn zeta in Hrep.
      destruct (unpack_repeat _ _ _ _ _ _ _ _) as [[p1 u1]|e]; cbn [bind fst snd].
      * destruct Hrep as [Hp1 Hno]. subst p1.
        specialize (IH (pos1 + Z.of_nat (Z.to_nat (field_repeat c n)) * field_size c o n)
                      None u1 ltac:(nia) I).
        destruct (unpackFrom_loop _ _ _ _ _) as [st|e].
        -- rewrite Exists_app. tauto.
        -- destruct IH as [IH1 IH2]. split; [assumption|].
           rewrite Exists_app. tauto.
      * destruct Hrep as [He Hex]. split; [assumption|].
        rewrite Exists_app. tauto.
    + rewrite unpack_repeat_null. cbn [bind fst snd].
      apply IH; [lia|exact I].
Qed.

(** C5: with bounds checking, [unpackFrom] (from a position that is not
    negative) throws the end-of-buffer error exactly when some decoding
    occurrence has [position + size >= data.length] at the place the walk
    reads it; the test comes before the read, so nothing else is ever
    thrown.  [unpack('i', <3 bytes>, true)] throws it. *)
Theorem unpack_bounds_check h format data position :
  0 <= position ->
  (unpackFrom h format data true position = Throw ReachedEndOfBuffer
   <-> Exists (reaches_end data) (decode_sites h format position))
  /\ (forall e, unpackFrom h format data true position = Throw e ->
                e = ReachedEndOfBuffer)
  /\ (position = 0 ->
      (unpack h format data true = Throw ReachedEndOfBuffer
       <-> Exists (reaches_end data) (decode_sites h format 0))).
Proof.
  intros Hpos.
  assert (main :
    (unpackFrom h format data true position = Throw ReachedEndOfBuffer
     <-> Exists (reaches_end data) (decode_sites h format position))
    /\ (forall e, unpackFrom h format data true position = Throw e ->
                  e = ReachedEndOfBuffer)).
  { unfold unpackFrom, decode_sites. cbn zeta.
    pose proof (unpack_loop_checked h _ data (selectMap_is_table h
                  (list_ascii_of_string format)) (walked h (list_ascii_of_string format))
                  position None [] Hpos I) as H.
    destruct (unpackFrom_loop _ _ _ _ _) as [st|e]; cbn [bind].
    - split; [split; [discriminate|tauto]|discriminate].
    - destruct H as [-> Hex]. split; [tauto|]. now intros e [= <-]. }
  destruct main as [M1 M2]. split; [exact M1|]. split; [exact M2|].
  intros ->. exact M1.
Qed.

Lemma unpack_bounds_check_witness :
  unpack x64 "i" [1; 2; 3] true = Throw ReachedEndOfBuffer
  /\ unpack x64 "<i" [1; 2; 3; 4] true = Throw ReachedEndOfBuffer
  /\ unpack x64 "<i" [1; 2; 3; 4; 5] true = Ok [VNum 67305985].
Proof.
  split; [|split; reflexivity].
  apply (unpack_bounds_check x64 "i" [1; 2; 3] 0 ltac:(lia)); [reflexivity|].
  unfold decode_sites. cbn. left. unfold reaches_end, buf_length. cbn. lia.
Defined.

(** ** Bounds checking in [pack] *)

Lemma pack_repeat_null data cb size decimal : forall repeat position dIndex packed,
  pack_repeat None data cb size decimal repeat position dIndex packed
  = Ok (position + Z.of_nat repeat * size, dIndex, packed).
Proof.
  induction repeat as [|n IH]; intros; cbn [pack_repeat].
  - f_equal. f_equal. f_equal. lia.
  - rewrite IH. f_equal. f_equal. f_equal. lia.
Qed.

Lemma buf_fill0_error b start stop e :
  buf_fill0 b start stop = Throw e -> e = RangeError.
Proof.
  unfold buf_fill0. destruct (_ || _); [now intros [= <-]|].
  destruct (stop <=? start); discriminate.
Qed.

Lemma buf_copy_error src target ts ss se e :
  buf_copy src target ts ss se = Throw e -> e = RangeError.
Proof.
  unfold buf_copy. destruct (_ || _ || _); [now intros [= <-]|].
  destruct (_ || _); [discriminate|].
  destruct (buf_length src <? ss); [now intros [= <-]|discriminate].
Qed.

Lemma buf_write_error h b v offset len e :
  buf_write h b v offset len = Throw e -> e = TypeError \/ e = RangeError.
Proof.
  unfold buf_write. destruct v; try (intros [= <-]; now left).
  destruct (_ || _ || _); [intros [= <-]; now right|discriminate].
Qed.

(** The encoders of the tables throw only what the runtime throws. *)
Lemma encoder_error h m c o f v b pos decimal e :
  is_table h m -> m c = Some o -> op_pack o = Some f ->
  f v b pos decimal = Throw e -> e = TypeError \/ e = RangeError.
Proof.
  intros Hm Hc Hf Hr.
  table_cases Hm Hc; cbn in Hf; try discriminate Hf; injection Hf as <-;
    try destruct (IS_LITTLE_ENDIAN h); try destruct (IS_64bit h);
    try discriminate Hr;
    try (unfold PACK_UINT64_LE, PACK_UINT64_BE, PACK_INT64_LE, PACK_INT64_BE in Hr;
         destruct (Long_words h v); discriminate Hr).
  all: try (unfold pack_char in Hr; destruct v as [| | | |s|];
            try (injection Hr as <-; now left); destruct s; discriminate Hr).
  all: try (unfold PACK_STRING, bind in Hr;
            destruct (buf_write h b v pos decimal) as [[b1 w]|e1] eqn:Hw;
            [destruct (w <? decimal);
               [right; eapply buf_fill0_error; eassumption|discriminate Hr]
            |injection Hr as <-; eapply buf_write_error; eassumption]).
  all: unfold PACK_PASCAL_STRING, bind in Hr;
    destruct v as [| | | |s|]; try (injection Hr as <-; now left);
    match type of Hr with
    | match ?x with _ => _ end = _ => destruct x as [b1|e1] eqn:Hcp
    end;
    [right; eapply buf_fill0_error; eassumption
    |injection Hr as <-; right; eapply buf_copy_error; eassumption].
Qed.

(** How far the value index has moved when the [while] loop ends, and
    where it stood when the end-of-data error is thrown. *)
Lemma pack_repeat_checked h m c o f data size decimal :
  is_table h m -> m c = Some o -> op_pack o = Some f ->
  forall repeat position dIndex packed,
  match pack_repeat (Some f) data true size decimal repeat position dIndex packed with
  | Ok (_, dIndex', _) =>
      dIndex' = (dIndex + repeat)%nat
      /\ ((dIndex <= length data)%nat -> (dIndex' <= length data)%nat)
  | Throw e => e = ReachedEndOfData -> (length data < dIndex + repeat)%nat
  end.
Proof.
  intros Hm Hc Hf.
  induction repeat as [|n IH]; intros position dIndex packed; cbn [pack_repeat].
  - split; lia.
  - cbn [andb]. destruct (Nat.leb_spec (length data) dIndex) as [Hend|Hin].
    + intros _. lia.
    + destruct (f (nth dIndex data VUndefined) packed position decimal) as [b1|e] eqn:Hw;
        cbn [bind].
      * specialize (IH (position + size) (S dIndex) b1).
        destruct (pack_repeat _ _ _ _ _ _ _ _ _) as [[[p1 d1] b2]|e];
          [|intros He; specialize (IH He); lia].
        destruct IH as [IH1 IH2]. split; lia.
      * intros ->. destruct (encoder_error _ _ _ _ _ _ _ _ _ _ Hm Hc Hf Hw); discriminate.
Qed.

Lemma pack_loop_checked h m data : is_table h m ->
  forall format position decimal dIndex packed,
  match pack_loop m data true format (position, decimal, dIndex, packed) with
  | Ok (_, _, dIndex', _) =>
      dIndex' = (dIndex + pack_slots m format decimal)%nat
      /\ ((dIndex <= length data)%nat -> (dIndex' <= length data)%nat)
  | Throw e =>
      e = ReachedEndOfData -> (length data < dIndex + pack_slots m format decimal)%nat
  end.
Proof.
  intros Hm.
  induction format as [|c rest IH]; intros position decimal dIndex packed;
    cbn [pack_loop pack_slots].
  - split; lia.
  - destruct (is_digit c); [apply IH|].
    destruct (m c) as [o|] eqn:Hc; [|apply IH].
    destruct (op_pack o) as [f|] eqn:Hf.
    + pose proof (pack_repeat_checked h m c o f data (field_size c o (count_of decimal))
                    (count_of decimal) Hm Hc Hf
                    (Z.to_nat (field_repeat c (count_of decimal)))
                    (align_to position (op_align o)) dIndex packed) as Hrep.
      destruct (pack_repeat _ _ _ _ _ _ _ _ _) as [[[p1 d1] b1]|e]; cbn [bind].
      * destruct Hrep as [-> Hle].
        specialize (IH p1 None (dIndex + Z.to_nat (field_repeat c (count_of decimal)))%nat
                      b1).
        destruct (pack_loop _ _ _ _ _) as [[[[p2 c2] d2] b2]|e].
        -- destruct IH as [-> IH2]. split; lia.
        -- intros He. specialize (IH He). lia.
      * intros He. specialize (Hrep He). lia.
    + rewrite pack_repeat_null. cbn [bind]. apply IH.
Qed.

Lemma nth_firstn_below {A} (d : A) : forall k i (l : list A),
  (i < k)%nat -> nth i (firstn k l) d = nth i l d.
Proof.
  induction k as [|k IH]; intros i l Hi; [lia|].
  destruct l as [|x l]; [destruct i; reflexivity|].
  destruct i as [|i]; [reflexivity|]. cbn. apply IH. lia.
Qed.

(** A run that succeeds on [full] and the run on the first [k] values of
    [full] agree until the value index reaches [k]. *)
Lemma pack_repeat_prefix f full k size decimal : (k <= length full)%nat ->
  forall repeat position dIndex packed r,
  (dIndex <= k)%nat ->
  pack_repeat (Some f) full true size decimal repeat position dIndex packed = Ok r ->
  pack_repeat (Some f) (firstn k full) true size decimal repeat position dIndex packed
  = if (k <? dIndex + repeat)%nat then Throw ReachedEndOfData else Ok r.
Proof.
  intros Hk repeat; induction repeat as [|n IH]; intros position dIndex packed r Hd;
    cbn [pack_repeat].
  - intros [= <-]. destruct (Nat.ltb_spec k (dIndex + 0)); [lia|reflexivity].
  - cbn [andb]. rewrite length_firstn, Nat.min_l by assumption.
    destruct (Nat.leb_spec (length full) dIndex) as [|Hin]; [discriminate|].
    destruct (Nat.leb_spec k dIndex) as [Hend|Hlt].
    + intros _. destruct (Nat.ltb_spec k (dIndex + S n)); [reflexivity|lia].
    + rewrite nth_firstn_below by assumption.
      destruct (f (nth dIndex full VUndefined) packed position decimal) as [b1|e];
        cbn [bind]; [|discriminate].
      intros Hr. rewrite (IH (position + size) (S dIndex) b1 r Hlt Hr).
      replace (S dIndex + n)%nat with (dIndex + S n)%nat by lia. reflexivity.
Qed.

Lemma pack_loop_prefix h m full k : is_table h m -> (k <= length full)%nat ->
  forall format position decimal dIndex packed st,
  (dIndex <= k)%nat ->
  pack_loop m full true format (position, decimal, dIndex, packed) = Ok st ->
  pack_loop m (firstn k full) true format (position, decimal, dIndex, packed)
  = if (k <? dIndex + pack_slots m format decimal)%nat
    then Throw ReachedEndOfData else Ok st.
Proof.
  intros Hm Hk format; induction format as [|c rest IH];
    intros position decimal dIndex packed st Hd; cbn [pack_loop pack_slots].
  - intros [= <-]. destruct (Nat.ltb_spec k (dIndex + 0)); [lia|reflexivity].
  - destruct (is_digit c); [apply IH; assumption|].
    destruct (m c) as [o|] eqn:Hc; [|apply IH; assumption].
    destruct (op_pack o) as [f|] eqn:Hf.
    + set (n := Z.to_nat (field_repeat c (count_of decimal))).
      pose proof (pack_repeat_checked h m c o f full (field_size c o (count_of decimal))
                    (count_of decimal) Hm Hc Hf n (align_to position (op_align o))
                    dIndex packed) as Hchk.
      destruct (pack_repeat (Some f) full _ _ _ _ _ _ _) as [[[p1 d1] b1]|e] eqn:Hrep;
        cbn [bind]; [|discriminate].
      destruct Hchk as [-> _].
      rewrite (pack_repeat_prefix f full k _ _ Hk _ _ _ _ _ Hd Hrep).
      destruct (Nat.ltb_spec k (dIndex + n)) as [Hshort|Hlong]; cbn [bind].
      * intros _. destruct (Nat.ltb_spec k (dIndex + (n + pack_slots m rest None)));
          [reflexivity|lia].
      * intros Hrest. rewrite (IH _ _ _ _ _ Hlong Hrest).
        rewrite Nat.add_assoc. reflexivity.
    + rewrite !pack_repeat_null. cbn [bind]. apply IH; assumption.
Qed.

(** C9, evaluated: with bounds checking requested [pack] never throws the
    end-of-data error.  It throws the [TypeError] of its allocation (see
    C7) on every input, also when there are fewer values than the format
    asks for, so the loop that holds the check is not reached.  The check
    itself is as the claim has it: at an occurrence with an encoder the
    loop throws as soon as the value index has reached the number of
    values, whatever the encoder is, and a pad code, which has no encoder,
    asks for no value, moves the position on and leaves the value index
    alone. *)
Theorem pack_never_reports_missing_values h format data :
  pack h format data true = Throw TypeError
  /\ pack h format data true <> Throw ReachedEndOfData
  /\ pack_arguments h format data = Throw TypeError
  /\ pack x64 "<BH" [VNum 1] true = Throw TypeError
  /\ (forall f values size decimal repeat position dIndex packed,
        (length values <= dIndex)%nat ->
        pack_repeat (Some f) values true size decimal (S repeat) position dIndex packed
        = Throw ReachedEndOfData)
  /\ (forall m, is_table h m ->
        exists o, m "x"%char = Some o /\ op_pack o = None
        /\ forall values size decimal repeat position dIndex packed,
             pack_repeat (op_pack o) values true size decimal repeat position dIndex packed
             = Ok (position + Z.of_nat repeat * size, dIndex, packed)).
Proof.
  assert (H : pack h format data true = Throw TypeError) by reflexivity.
  split; [exact H|]. split; [rewrite H; discriminate|]. split; [exact H|].
  split; [reflexivity|]. split.
  - intros f values size decimal repeat position dIndex packed Hend.
    cbn [pack_repeat andb]. destruct (Nat.leb_spec (length values) dIndex); [reflexivity|lia].
  - intros m' [-> | [-> | ->]]; eexists; (split; [reflexivity|]);
      (split; [reflexivity|]); intros; apply pack_repeat_null.
Qed.

(** ** Writing bytes and reading them back *)

Lemma firstn_exact {A} (a b : list A) : firstn (length a) (a ++ b) = a.
Proof. induction a; cbn; congruence. Qed.

Lemma skipn_exact {A} (a b : list A) : skipn (length a) (a ++ b) = b.
Proof. induction a; cbn; congruence. Qed.

Lemma store_spec b : forall i v, (i < length b)%nat ->
  store b i v = firstn i b ++ v :: skipn (S i) b.
Proof.
  induction b as [|x b IH]; intros i v Hi; cbn in Hi; [lia|].
  destruct i as [|i]; [reflexivity|].
  cbn [store firstn skipn app]. f_equal. apply IH. lia.
Qed.

Lemma put_bytes_app a : forall b pos c,
  put_bytes b pos (a ++ c) = put_bytes (put_bytes b pos a) (pos + Z.of_nat (length a)) c.
Proof.
  induction a as [|x a IH]; intros b pos c; cbn [app put_bytes length].
  - f_equal. lia.
  - rewrite IH. f_equal. lia.
Qed.

Lemma firstn_past_one {A} (a : list A) x s :
  firstn (S (length a)) (a ++ x :: s) = a ++ [x].
Proof. induction a as [|y a IH]; [reflexivity|]. cbn in *. now rewrite IH. Qed.

Lemma skipn_past_one {A} (a : list A) x s k :
  skipn (S (length a) + k) (a ++ x :: s) = skipn k s.
Proof. induction a as [|y a IH]; [reflexivity|]. exact IH. Qed.

(** What a buffer holds after [bytes] have been stored inside it. *)
Lemma put_bytes_spec bytes : forall b pos,
  0 <= pos -> pos + Z.of_nat (length bytes) <= buf_length b ->
  put_bytes b pos bytes
  = firstn (Z.to_nat pos) b ++ map (fun x => x mod 256) bytes
      ++ skipn (Z.to_nat pos + length bytes) b.
Proof.
  induction bytes as [|x rest IH]; intros b pos Hpos Hlen; cbn [put_bytes map length app].
  - rewrite Nat.add_0_r. symmetry. apply firstn_skipn.
  - unfold buf_length in *. cbn [length] in Hlen.
    rewrite IH; [|lia|rewrite buf_set_length; lia].
    unfold buf_set. destruct (Z.ltb_spec pos 0); [lia|].
    set (p := Z.to_nat pos). replace (Z.to_nat (pos + 1)) with (S p) by lia.
    rewrite store_spec by lia.
    assert (Hp : length (firstn p b) = p) by (rewrite length_firstn; lia).
    remember (firstn p b) as a eqn:Ea. remember (skipn (S p) b) as s eqn:Es.
    clearbody p. subst p.
    rewrite firstn_past_one, skipn_past_one, <- app_assoc. subst s.
    rewrite skipn_skipn.
    replace (length rest + S (length a))%nat with (length a + S (length rest))%nat by lia.
    reflexivity.
Qed.

(** Reading part of what has just been stored. *)
Lemma bytes_at_put_bytes b pos bytes i n :
  0 <= pos -> pos + Z.of_nat (length bytes) <= buf_length b ->
  (i + n <= length bytes)%nat ->
  bytes_at (put_bytes b pos bytes) (pos + Z.of_nat i) n
  = Some (firstn n (skipn i (map (fun x => x mod 256) bytes))).
Proof.
  intros Hpos Hlen Hin. unfold bytes_at.
  assert (Hl : buf_length (put_bytes b pos bytes) = buf_length b)
    by (unfold buf_length; now rewrite put_bytes_length).
  rewrite Hl.
  destruct (Z.ltb_spec (pos + Z.of_nat i) 0); [lia|].
  destruct (Z.ltb_spec (buf_length b) (pos + Z.of_nat i + Z.of_nat n)); [lia|].
  cbn [orb]. f_equal.
  rewrite put_bytes_spec by assumption.
  set (M := map (fun x => x mod 256) bytes).
  assert (HM : length M = length bytes) by apply length_map.
  assert (Hp : length (firstn (Z.to_nat pos) b) = Z.to_nat pos)
    by (rewrite length_firstn; unfold buf_length in Hlen; lia).
  replace (Z.to_nat (pos + Z.of_nat i)) with (i + Z.to_nat pos)%nat by lia.
  rewrite <- skipn_skipn. rewrite <- Hp at 1. rewrite skipn_exact.
  rewrite skipn_app, firstn_app.
  replace (i - length M)%nat with 0%nat by lia.
  rewrite length_skipn.
  replace (n - (length M - i))%nat with 0%nat by lia.
  cbn [firstn skipn]. apply app_nil_r.
Qed.

Lemma bytes_at_put_bytes_whole b pos bytes :
  0 <= pos -> pos + Z.of_nat (length bytes) <= buf_length b ->
  bytes_at (put_bytes b pos bytes) pos (length bytes)
  = Some (map (fun x => x mod 256) bytes).
Proof.
  intros Hpos Hlen.
  pose proof (bytes_at_put_bytes b pos bytes 0 (length bytes) Hpos Hlen ltac:(lia)) as H.
  rewrite Z.add_0_r in H. rewrite H. cbn [skipn]. f_equal.
  apply firstn_all2. rewrite length_map. lia.
Qed.

(** Two stores side by side, each read back on its own. *)
Lemma bytes_at_two_stores b pos a c :
  0 <= pos -> pos + Z.of_nat (length a) + Z.of_nat (length c) <= buf_length b ->
  let b' := put_bytes (put_bytes b pos a) (pos + Z.of_nat (length a)) c in
  bytes_at b' pos (length a) = Some (map (fun x => x mod 256) a)
  /\ bytes_at b' (pos + Z.of_nat (length a)) (length c)
     = Some (map (fun x => x mod 256) c).
Proof.
  intros Hpos Hlen b'. unfold b'. rewrite <- put_bytes_app.
  assert (Hl : pos + Z.of_nat (length (a ++ c)) <= buf_length b)
    by (rewrite length_app; lia).
  split.
  - pose proof (bytes_at_put_bytes b pos (a ++ c) 0 (length a) Hpos Hl
                  ltac:(rewrite length_app; lia)) as H.
    rewrite Z.add_0_r in H. rewrite H. cbn [skipn]. f_equal.
    rewrite map_app. rewrite <- (length_map (fun x => x mod 256) a). apply firstn_exact.
  - rewrite (bytes_at_put_bytes b pos (a ++ c) (length a) (length c) Hpos Hl
               ltac:(rewrite length_app; lia)).
    f_equal. rewrite map_app.
    rewrite <- (length_map (fun x => x mod 256) a) at 1. rewrite skipn_exact.
    apply firstn_all2. rewrite length_map. lia.
Qed.

(** The value of the bytes of a number. *)
Lemma le_bytes_length n : forall x, length (le_bytes n x) = n.
Proof. induction n; intros; cbn; auto. Qed.

Lemma le_bytes_wrapped n : forall x,
  map (fun b => b mod 256) (le_bytes n x) = le_bytes n x.
Proof.
  induction n as [|n IH]; intros x; cbn [le_bytes map]; [reflexivity|].
  rewrite IH, Z.mod_mod by lia. reflexivity.
Qed.

Lemma le_value_le_bytes n : forall x,
  le_value (le_bytes n x) = x mod 256 ^ Z.of_nat n.
Proof.
  induction n as [|n IH]; intros x; cbn [le_bytes le_value].
  - change (256 ^ Z.of_nat 0) with 1. now rewrite Z.mod_1_r.
  - rewrite IH. rewrite Nat2Z.inj_succ, Z.pow_succ_r by lia.
    rewrite Z.rem_mul_r by lia. lia.
Qed.

Lemma ordered_twice little (l : list Z) : ordered little (ordered little l) = l.
Proof. destruct little; [reflexivity|apply rev_involutive]. Qed.

Lemma ordered_length little (l : list Z) : length (ordered little l) = length l.
Proof. destruct little; [reflexivity|apply length_rev]. Qed.

Lemma ordered_map little (f : Z -> Z) l :
  map f (ordered little l) = ordered little (map f l).
Proof. destruct little; [reflexivity|apply map_rev]. Qed.

(** The unsigned number a stored integer reads back as. *)
Lemma stored_value little n x :
  le_value (ordered little (map (fun b => b mod 256) (ordered little (le_bytes n x))))
  = x mod 256 ^ Z.of_nat n.
Proof.
  rewrite ordered_map, ordered_twice, le_bytes_wrapped. apply le_value_le_bytes.
Qed.

Lemma to_signed_mod bits x :
  0 < bits -> - 2 ^ (bits - 1) <= x < 2 ^ (bits - 1) ->
  to_signed bits (x mod 2 ^ bits) = x.
Proof.
  intros Hb Hx. unfold to_signed.
  assert (H2 : 2 ^ bits = 2 * 2 ^ (bits - 1)).
  { replace bits with (Z.succ (bits - 1)) at 1 by lia. apply Z.pow_succ_r. lia. }
  assert (Hp : 0 < 2 ^ (bits - 1)) by (apply Z.pow_pos_nonneg; lia).
  rewrite Z.mod_mod by lia.
  destruct (Z_lt_le_dec x 0) as [Hneg|Hnn].
  - assert (Hm : x mod 2 ^ bits = x + 2 ^ bits).
    { symmetry. apply Z.mod_unique with (q := -1); lia. }
    rewrite Hm. destruct (Z.ltb_spec (x + 2 ^ bits) (2 ^ (bits - 1))); lia.
  - rewrite Z.mod_small by lia.
    destruct (Z.ltb_spec x (2 ^ (bits - 1))); lia.
Qed.

(** ** Codecs read back what they wrote *)

Lemma write_int_read_int h b little signed n x pos :
  0 <= pos -> pos + Z.of_nat n <= buf_length b ->
  read_int (write_int h b little n (VNum x) pos) little signed n pos
  = Ok (VNum (if signed then to_signed (8 * Z.of_nat n) (x mod 256 ^ Z.of_nat n)
              else x mod 256 ^ Z.of_nat n)).
Proof.
  intros Hpos Hlen. unfold read_int, write_int. cbn [ToInteger].
  pose proof (bytes_at_put_bytes_whole b pos (ordered little (le_bytes n x)) Hpos) as H.
  rewrite ordered_length, le_bytes_length in H. rewrite (H Hlen).
  rewrite stored_value. reflexivity.
Qed.

Lemma pow256 n : 256 ^ Z.of_nat n = 2 ^ (8 * Z.of_nat n).
Proof. change 256 with (2 ^ 8). rewrite <- Z.pow_mul_r by lia. reflexivity. Qed.

Lemma write_int_read_signed h b little n x pos :
  0 <= pos -> pos + Z.of_nat n <= buf_length b -> (0 < n)%nat ->
  - 2 ^ (8 * Z.of_nat n - 1) <= x < 2 ^ (8 * Z.of_nat n - 1) ->
  read_int (write_int h b little n (VNum x) pos) little true n pos = Ok (VNum x).
Proof.
  intros Hpos Hlen Hn Hx. rewrite write_int_read_int by assumption.
  rewrite pow256, to_signed_mod by lia. reflexivity.
Qed.

Lemma write_int_read_unsigned h b little n x pos :
  0 <= pos -> pos + Z.of_nat n <= buf_length b ->
  0 <= x < 2 ^ (8 * Z.of_nat n) ->
  read_int (write_int h b little n (VNum x) pos) little false n pos = Ok (VNum x).
Proof.
  intros Hpos Hlen Hx. rewrite write_int_read_int by assumption.
  rewrite pow256, Z.mod_small by lia. reflexivity.
Qed.

Lemma read_int_noAssert_inside h b little signed n pos v :
  read_int b little signed n pos = Ok v ->
  read_int_noAssert h b little signed n pos = v.
Proof. unfold read_int_noAssert. now intros ->. Qed.

Lemma store_same b : forall i v, (i < length b)%nat -> nth_error (store b i v) i = Some v.
Proof.
  induction b as [|x b IH]; intros i v Hi; cbn in Hi; [lia|].
  destruct i as [|i]; [reflexivity|]. cbn. apply IH. lia.
Qed.

Lemma buf_set_get b pos v :
  0 <= pos < buf_length b -> buf_get (buf_set b pos v) pos = Some (v mod 256).
Proof.
  intros Hpos. unfold buf_get, buf_set, buf_length in *.
  destruct (Z.ltb_spec pos 0); [lia|]. apply store_same. lia.
Qed.

Lemma write_float_read_float h b little v pos :
  0 <= pos -> pos + 4 <= buf_length b ->
  read_float h (write_float h b little v pos) little pos
  = Ok (float_of_bits h (float_bits h v mod 2 ^ 32)).
Proof.
  intros Hpos Hlen. unfold read_float, write_float.
  pose proof (bytes_at_put_bytes_whole b pos (ordered little (le_bytes 4 (float_bits h v)))
                Hpos) as H.
  rewrite ordered_length, le_bytes_length in H. rewrite (H Hlen).
  rewrite stored_value. reflexivity.
Qed.

Lemma write_double_read_double h b little v pos :
  0 <= pos -> pos + 8 <= buf_length b ->
  read_double h (write_double h b little v pos) little pos
  = Ok (double_of_bits h (double_bits h v mod 2 ^ 64)).
Proof.
  intros Hpos Hlen. unfold read_double, write_double.
  pose proof (bytes_at_put_bytes_whole b pos (ordered little (le_bytes 8 (double_bits h v)))
                Hpos) as H.
  rewrite ordered_length, le_bytes_length in H. rewrite (H Hlen).
  rewrite stored_value. reflexivity.
Qed.

Lemma ToInt32_small x : -2147483648 <= x < 2147483648 -> ToInt32 x = x.
Proof.
  intros Hx. unfold ToInt32, to_signed.
  change (2 ^ 32) with 4294967296. change (2 ^ (32 - 1)) with 2147483648.
  destruct (Z_lt_le_dec x 0).
  - assert (Hm : x mod 4294967296 = x + 4294967296)
      by (symmetry; apply Z.mod_unique with (q := -1); lia).
    rewrite Hm. destruct (Z.ltb_spec (x + 4294967296) 2147483648); lia.
  - rewrite Z.mod_small by lia. destruct (Z.ltb_spec x 2147483648); lia.
Qed.

(** The two words of a [Long], written and read in either byte order. *)
Lemma pack_int64_unpack_int64 h (little unsigned : bool) low high s b pos d d' :
  0 <= pos -> pos + 8 <= buf_length b ->
  -2147483648 <= low < 2147483648 -> -2147483648 <= high < 2147483648 ->
  exists packed,
    (if little then PACK_INT64_LE h else PACK_INT64_BE h) (VLong low high s) b pos d
      = Ok packed
    /\ unpack_int64 h little unsigned packed pos d' = Ok (VLong low high unsigned).
Proof.
  intros Hpos Hlen Hlow Hhigh.
  assert (Hw : forall x, length (ordered little (le_bytes 4 x)) = 4%nat)
    by (intros; now rewrite ordered_length, le_bytes_length).
  assert (Hv : forall x, -2147483648 <= x < 2147483648 ->
             to_signed 32 (le_value (ordered little
               (map (fun b => b mod 256) (ordered little (le_bytes 4 x))))) = x).
  { intros x Hx. rewrite stored_value. rewrite (pow256 4).
    apply (to_signed_mod 32); [lia|]. exact Hx. }
  destruct little; eexists; (split; [reflexivity|]);
    unfold unpack_int64, write_int, read_int, bind; cbn [ToInteger Long_words].
  - pose proof (bytes_at_two_stores b pos (ordered true (le_bytes 4 low))
                  (ordered true (le_bytes 4 high)) Hpos) as H.
    rewrite !Hw in H. destruct (H ltac:(lia)) as [H1 H2]. cbn zeta in H1, H2.
    change (Z.of_nat 4) with 4 in *.
    rewrite H1, H2. cbn [ToInteger].
    change (8 * 4) with 32. rewrite !Hv by assumption.
    unfold Long_fromBits. now rewrite !ToInt32_small.
  - pose proof (bytes_at_two_stores b pos (ordered false (le_bytes 4 high))
                  (ordered false (le_bytes 4 low)) Hpos) as H.
    rewrite !Hw in H. destruct (H ltac:(lia)) as [H1 H2]. cbn zeta in H1, H2.
    change (Z.of_nat 4) with 4 in *.
    rewrite H1, H2. cbn [ToInteger].
    change (8 * 4) with 32. rewrite !Hv by assumption.
    unfold Long_fromBits. now rewrite !ToInt32_small.
Qed.

(** ** Formats of one field under a byte-order prefix *)

Lemma byte_order_selection h p rest : In p byte_order_prefixes ->
  exists m, (m = LITTLE_ENDIAN_MAP h \/ m = BIG_ENDIAN_MAP h)
            /\ selectMap h (p :: rest) = mkSelection m true.
Proof.
  unfold byte_order_prefixes. intros [<- | [<- | [<- | [<- | []]]]]; cbn [selectMap].
  - eexists; split; [left|]; reflexivity.
  - eexists; split; [right|]; reflexivity.
  - eexists; split; [right|]; reflexivity.
  - destruct (IS_LITTLE_ENDIAN h); eexists; (split; [|reflexivity]); auto.
Qed.

Lemma standard_align h m c o :
  m = LITTLE_ENDIAN_MAP h \/ m = BIG_ENDIAN_MAP h -> m c = Some o -> op_align o = 1.
Proof.
  intros Hm Hc.
  assert (Ht : is_table h m) by (unfold is_table; tauto).
  pose proof (table_key _ _ _ _ Ht Hc) as Hin. unfold type_codes in Hin.
  repeat (destruct Hin as [<- | Hin];
          [destruct Hm as [-> | ->]; cbn in Hc; injection Hc as <-; reflexivity|]).
  destruct Hin.
Qed.

(** ** Round trip of one value *)

Lemma char_code_round_trip ch :
  ascii_of_N (Z.to_N (Z.of_N (N_of_ascii ch) mod 256)) = ch.
Proof.
  pose proof (N_ascii_bounded ch) as Hb.
  rewrite Z.mod_small by lia. rewrite N2Z.id. apply ascii_N_embedding.
Qed.

(** The field of a one-field format lies inside the fresh buffer. *)
Ltac inside := rewrite ?new_Buffer_length by lia; cbn; lia.

(** C1, evaluated: the round trip does not get past [pack].  Whatever
    the format and the value, [pack] throws the [TypeError] of its
    allocation (see C7), so [unpack(fmt, pack(fmt, [v]))] throws it too and
    returns no value to compare with [v]; this for each of the four
    byte-order prefixes, every type code and every value. *)
Theorem round_trip_stops_at_pack h format values checkBounds checkBounds' :
  (packed <- pack h format values checkBounds ;;
   unpack h format packed checkBounds') = Throw TypeError
  /\ (forall decoded,
        (packed <- pack h format values checkBounds ;;
         unpack h format packed checkBounds') <> Ok decoded)
  /\ (packed <- pack x64 "<B" [VNum 7] false ;; unpack x64 "<B" packed false)
     = Throw TypeError.
Proof.
  split; [reflexivity|]. split; [|reflexivity]. intros decoded. discriminate.
Qed.

(** * Further properties of the walks *)

(** ** The two copies side by side *)

(** The tables of the copy written with [var] hold what those of
    [index.js] hold, but for the decoder of [s]. *)
Ltac same_entry :=
  first [ exact I
        | repeat split; first [reflexivity | intros H; first [reflexivity | discriminate H]] ].

Lemma NATIVE_MAP_var_same h : same_but_text (NATIVE_MAP h) (NATIVE_MAP_var h).
Proof. intros c. split_ascii c; cbn; same_entry. Qed.

Lemma LITTLE_ENDIAN_MAP_var_same h :
  same_but_text (LITTLE_ENDIAN_MAP h) (LITTLE_ENDIAN_MAP_var h).
Proof. intros c. split_ascii c; cbn; same_entry. Qed.

Lemma BIG_ENDIAN_MAP_var_same h :
  same_but_text (BIG_ENDIAN_MAP h) (BIG_ENDIAN_MAP_var h).
Proof. intros c. split_ascii c; cbn; same_entry. Qed.

Lemma selectMap_var_same h format :
  same_but_text (sel_map (selectMap h format)) (sel_map (selectMap_var h format))
  /\ skipFirst (selectMap_var h format) = skipFirst (selectMap h format).
Proof.
  destruct format as [|c rest]; [split; [apply NATIVE_MAP_var_same|reflexivity]|].
  split_ascii c; cbn [selectMap selectMap_var sel_map skipFirst];
    try destruct (IS_LITTLE_ENDIAN h);
    (split;
     [ first [ apply NATIVE_MAP_var_same | apply LITTLE_ENDIAN_MAP_var_same
             | apply BIG_ENDIAN_MAP_var_same ]
     | reflexivity ]).
Qed.

Lemma walked_var_same h format : walked_var h format = walked h format.
Proof.
  unfold walked_var, walked. now rewrite (proj2 (selectMap_var_same h format)).
Qed.

Lemma field_size_same c o o' decimal :
  op_size o = op_size o' -> field_size c o' decimal = field_size c o decimal.
Proof. unfold field_size. now intros ->. Qed.

Lemma sizeOf_loop_same m m' : same_but_text m m' ->
  forall format size decimal,
  sizeOf_loop m' format size decimal = sizeOf_loop m format size decimal.
Proof.
  intros Hs format; induction format as [|c rest IH]; intros size decimal;
    cbn [sizeOf_loop]; [reflexivity|].
  destruct (is_digit c); [apply IH|].
  specialize (Hs c). destruct (m c) as [o|], (m' c) as [o'|]; try contradiction;
    [|apply IH].
  destruct Hs as (Hz & Ha & _). rewrite <- Hz, <- Ha. apply IH.
Qed.

Lemma pack_loop_same m m' data cb : same_but_text m m' ->
  forall format st,
  pack_loop m' data cb format st = pack_loop m data cb format st.
Proof.
  intros Hs format; induction format as [|c rest IH]; intros [[[position decimal] dIndex] packed];
    cbn [pack_loop]; [reflexivity|].
  destruct (is_digit c); [apply IH|].
  specialize (Hs c). destruct (m c) as [o|], (m' c) as [o'|]; try contradiction;
    [|apply IH].
  destruct Hs as (Hz & Ha & Hp & _).
  rewrite <- Ha, <- Hp, (field_size_same c o o' _ Hz).
  unfold bind. destruct (pack_repeat _ _ _ _ _ _ _ _ _) as [[[p1 d1] b1]|]; [apply IH|reflexivity].
Qed.

Lemma unpackFrom_loop_same m m' data cb : same_but_text m m' ->
  forall format st, no_text format ->
  unpackFrom_loop m' data cb format st = unpackFrom_loop m data cb format st.
Proof.
  intros Hs format; induction format as [|c rest IH]; intros [[position decimal] unpacked];
    unfold no_text; cbn [unpackFrom_loop existsb]; [reflexivity|].
  intros Ht. apply orb_false_elim in Ht. destruct Ht as [Hc Hrest].
  destruct (is_digit c); [apply IH, Hrest|].
  specialize (Hs c). destruct (m c) as [o|], (m' c) as [o'|]; try contradiction;
    [|apply IH, Hrest].
  destruct Hs as (Hz & Ha & _ & Hu).
  rewrite <- Ha, <- (Hu Hc), (field_size_same c o o' _ Hz).
  unfold bind. destruct (unpack_repeat _ _ _ _ _ _ _ _) as [[p1 u1]|]; [apply IH, Hrest|reflexivity].
Qed.

Lemma sizeOf_var_same h format : sizeOf_var h format = sizeOf h format.
Proof.
  unfold sizeOf_var, sizeOf. cbn zeta. rewrite walked_var_same.
  apply sizeOf_loop_same, selectMap_var_same.
Qed.

(** [pack] of the copy written with [var] is the rest of [pack] of
    [index.js] run on a new buffer of the computed size. *)
Lemma pack_var_fresh h format data checkBounds :
  pack_var h format data checkBounds = pack_fresh h format data checkBounds.
Proof.
  unfold pack_var, pack_fresh, pack_into, PythonStruct_sizeOf_var, callee.
  cbn [bind]. cbn zeta. rewrite sizeOf_var_same, walked_var_same.
  rewrite (pack_loop_same _ _ data checkBounds (proj1 (selectMap_var_same h _))).
  reflexivity.
Qed.

Lemma pack_slots_same m m' : same_but_text m m' ->
  forall format decimal, pack_slots m' format decimal = pack_slots m format decimal.
Proof.
  intros Hs format; induction format as [|c rest IH]; intros decimal;
    cbn [pack_slots]; [reflexivity|].
  destruct (is_digit c); [apply IH|].
  specialize (Hs c). destruct (m c) as [o|], (m' c) as [o'|]; try contradiction;
    [|apply IH].
  destruct Hs as (_ & _ & Hp & _). rewrite <- Hp, !IH. reflexivity.
Qed.

Lemma pack_codes_same m m' : same_but_text m m' ->
  forall format decimal, pack_codes m' format decimal = pack_codes m format decimal.
Proof.
  intros Hs format; induction format as [|c rest IH]; intros decimal;
    cbn [pack_codes]; [reflexivity|].
  destruct (is_digit c); [apply IH|].
  specialize (Hs c). destruct (m c) as [o|], (m' c) as [o'|]; try contradiction;
    [|apply IH].
  destruct Hs as (_ & _ & Hp & _). rewrite <- Hp, !IH. reflexivity.
Qed.

Lemma value_slots_var_same h format : value_slots_var h format = value_slots h format.
Proof.
  unfold value_slots_var, value_slots. cbn zeta. rewrite walked_var_same.
  apply pack_slots_same, selectMap_var_same.
Qed.

Lemma value_codes_var_same h format : value_codes_var h format = value_codes h format.
Proof.
  unfold value_codes_var, value_codes. cbn zeta. rewrite walked_var_same.
  apply pack_codes_same, selectMap_var_same.
Qed.

(** On a format without [s] the two copies decode alike. *)
Lemma unpack_var_no_text h format data checkBounds :
  no_text (list_ascii_of_string format) ->
  unpack_var h format data checkBounds = unpack h format data checkBounds.
Proof.
  intros Ht. unfold unpack_var, unpack, unpackFrom. cbn zeta.
  rewrite walked_var_same.
  rewrite (unpackFrom_loop_same _ _ data checkBounds (proj1 (selectMap_var_same h _)));
    [reflexivity|].
  unfold no_text, walked in *. destruct (skipFirst _); [|assumption].
  destruct (list_ascii_of_string format) as [|c rest]; [assumption|].
  cbn [skipn existsb] in *. apply orb_false_elim in Ht. tauto.
Qed.


(** ** How many values come back *)

Lemma repeat_sites_length size : forall repeat position,
  length (repeat_sites size repeat position) = repeat.
Proof. induction repeat; intros; cbn; auto. Qed.

Lemma unpack_repeat_count f data cb size decimal : forall repeat position unpacked r,
  unpack_repeat (Some f) data cb size decimal repeat position unpacked = Ok r ->
  fst r = position + Z.of_nat repeat * size
  /\ length (snd r) = (length unpacked + repeat)%nat.
Proof.
  induction repeat as [|n IH]; intros position unpacked r; cbn [unpack_repeat].
  - intros [= <-]. cbn. split; lia.
  - destruct (cb && _); [discriminate|].
    destruct (f data position decimal) as [v|]; cbn [bind]; [|discriminate].
    intros Hr. apply IH in Hr. destruct Hr as [Hp Hl].
    rewrite Hp, Hl, length_app. cbn [length]. split; lia.
Qed.

Lemma unpack_loop_count m data cb : forall format position decimal unpacked st,
  unpackFrom_loop m data cb format (position, decimal, unpacked) = Ok st ->
  length (snd st)
  = (length unpacked + length (unpack_sites m format position decimal))%nat.
Proof.
  induction format as [|c rest IH]; intros position decimal unpacked st;
    cbn [unpackFrom_loop unpack_sites].
  - intros [= <-]. cbn. lia.
  - destruct (is_digit c); [apply IH|].
    destruct (m c) as [o|]; [|apply IH].
    destruct (op_unpack o) as [f|].
    + destruct (unpack_repeat (Some f) _ _ _ _ _ _ _) as [r|] eqn:Hr; cbn [bind];
        [|discriminate].
      apply unpack_repeat_count in Hr. destruct Hr as [Hp Hl].
      intros Hst. apply IH in Hst. rewrite Hst, Hl, Hp.
      rewrite length_app, repeat_sites_length. lia.
    + rewrite unpack_repeat_null. cbn [bind fst snd]. apply IH.
Qed.

Lemma unpack_sites_length m : forall format position position' decimal,
  length (unpack_sites m format position decimal)
  = length (unpack_sites m format position' decimal).
Proof.
  induction format as [|c rest IH]; intros position position' decimal;
    cbn [unpack_sites]; [reflexivity|].
  destruct (is_digit c); [apply IH|].
  destruct (m c) as [o|]; [|apply IH].
  destruct (op_unpack o); [|apply IH].
  rewrite !length_app, !repeat_sites_length. f_equal. apply IH.
Qed.

(** X1: when [unpackFrom] returns, the number of values it returns is the
    number of decoding occurrences of the format, whatever the buffer
    holds, whether bounds are checked, and wherever decoding starts. *)
Theorem unpack_value_count h format data checkBounds position values :
  unpackFrom h format data checkBounds position = Ok values ->
  length values = length (decode_sites h format 0).
Proof.
  unfold unpackFrom, decode_sites. cbn zeta.
  destruct (unpackFrom_loop _ _ _ _ _) as [st|] eqn:Hl; cbn [bind]; [|discriminate].
  intros [= <-]. apply unpack_loop_count in Hl. rewrite Hl. cbn [length plus].
  apply unpack_sites_length.
Qed.

Lemma unpack_value_count_witness :
  unpackFrom x64 "<2Hx3sB" [1; 0; 2; 0; 65; 66; 0; 9] false 0
    = Ok [VNum 1; VNum 2; VStr "AB"; VNum 9]
  /\ length [VNum 1; VNum 2; VStr "AB"; VNum 9] = length (decode_sites x64 "<2Hx3sB" 0).
Proof.
  split; [reflexivity|].
  apply (unpack_value_count x64 "<2Hx3sB" [1; 0; 2; 0; 65; 66; 0; 9] false 0).
  reflexivity.
Defined.

(** ** Values beyond those the format asks for *)

Lemma pack_repeat_index f data cb size decimal : forall repeat position dIndex packed r,
  pack_repeat (Some f) data cb size decimal repeat position dIndex packed = Ok r ->
  snd (fst r) = (dIndex + repeat)%nat.
Proof.
  induction repeat as [|n IH]; intros position dIndex packed r; cbn [pack_repeat].
  - intros [= <-]. cbn. lia.
  - destruct (cb && _); [discriminate|].
    destruct (f _ packed position decimal) as [b1|]; cbn [bind]; [|discriminate].
    intros Hr. apply IH in Hr. lia.
Qed.

Lemma pack_repeat_surplus f data extra cb size decimal : forall repeat position dIndex packed,
  (dIndex + repeat <= length data)%nat ->
  pack_repeat (Some f) (data ++ extra) cb size decimal repeat position dIndex packed
  = pack_repeat (Some f) data cb size decimal repeat position dIndex packed.
Proof.
  induction repeat as [|n IH]; intros position dIndex packed Hn; cbn [pack_repeat];
    [reflexivity|].
  rewrite length_app.
  destruct (Nat.leb_spec (length data + length extra) dIndex); [lia|].
  destruct (Nat.leb_spec (length data) dIndex); [lia|].
  rewrite app_nth1 by lia.
  destruct (cb && false); [reflexivity|].
  destruct (f _ packed position decimal) as [b1|]; cbn [bind]; [|reflexivity].
  apply IH. lia.
Qed.

Lemma pack_loop_surplus m data extra cb : forall format position decimal dIndex packed,
  (dIndex + pack_slots m format decimal <= length data)%nat ->
  pack_loop m (data ++ extra) cb format (position, decimal, dIndex, packed)
  = pack_loop m data cb format (position, decimal, dIndex, packed).
Proof.
  induction format as [|c rest IH]; intros position decimal dIndex packed;
    cbn [pack_loop pack_slots]; [reflexivity|].
  destruct (is_digit c); [apply IH|].
  destruct (m c) as [o|]; [|apply IH].
  destruct (op_pack o) as [f|].
  - intros Hn. rewrite pack_repeat_surplus by lia.
    destruct (pack_repeat (Some f) data _ _ _ _ _ _ _) as [[[p1 d1] b1]|] eqn:Hr;
      cbn [bind]; [|reflexivity].
    apply pack_repeat_index in Hr. cbn in Hr. subst d1. apply IH. lia.
  - intros Hn. rewrite !pack_repeat_null. cbn [bind]. apply IH. exact Hn.
Qed.

(** X2: values after the last one the format asks for are ignored.  In the
    copy written with [var], with at least as many values as there are
    value-consuming occurrences, [pack] gives the same result, buffer or
    error, with or without further values appended, whether bounds are
    checked or not. *)
Theorem pack_ignores_surplus h format data extra checkBounds :
  (value_slots_var h format <= length data)%nat ->
  pack_var h format (data ++ extra) checkBounds = pack_var h format data checkBounds.
Proof.
  rewrite value_slots_var_same, !pack_var_fresh.
  unfold pack_fresh, pack_into, value_slots. cbn zeta. intros Hn.
  rewrite pack_loop_surplus by (cbn; exact Hn). reflexivity.
Qed.

Lemma pack_ignores_surplus_witness :
  pack_var x64 "<BxH" ([VNum 1; VNum 2] ++ [VStr "more"; VNum 7]) true
  = pack_var x64 "<BxH" [VNum 1; VNum 2] true
  /\ pack_var x64 "<BxH" [VNum 1; VNum 2] true = Ok [1; 0; 2; 0].
Proof.
  split; [|reflexivity].
  apply (pack_ignores_surplus x64 "<BxH" [VNum 1; VNum 2] [VStr "more"; VNum 7] true).
  cbn. lia.
Defined.

(** ** Sizes under the different prefixes *)

Lemma standard_vs_any h m1 m2 :
  m1 = LITTLE_ENDIAN_MAP h \/ m1 = BIG_ENDIAN_MAP h -> is_table h m2 ->
  same_sizes_unaligned m1 m2.
Proof.
  intros H1 H2 c.
  destruct H1 as [-> | ->]; destruct H2 as [-> | [-> | ->]]; split_ascii c; cbn;
    try exact I; repeat split; try reflexivity; try lia; destruct (IS_64bit h); lia.
Qed.

Lemma sizeOf_loop_le m1 m2 : same_sizes_unaligned m1 m2 ->
  forall format s1 s2 decimal, pending_ok decimal -> s1 <= s2 ->
  sizeOf_loop m1 format s1 decimal <= sizeOf_loop m2 format s2 decimal.
Proof.
  intros Hm format; induction format as [|c rest IH]; intros s1 s2 decimal Hd Hs;
    cbn [sizeOf_loop]; [exact Hs|].
  destruct (is_digit c) eqn:Hdig; [apply IH; [apply push_digit_ok|]; assumption|].
  specialize (Hm c).
  destruct (m1 c) as [o1|], (m2 c) as [o2|]; try contradiction; [|apply IH; assumption].
  destruct Hm as (Hsz & Hal & Hpos). rewrite Hal, <- Hsz.
  change (align_to s1 1) with s1.
  pose proof (align_to_ge s2 (op_align o2)).
  pose proof (count_of_nonneg _ Hd).
  destruct (is_s c); [apply IH; [exact I|lia]|].
  destruct (is_p c); apply IH; try exact I; lia.
Qed.

(** X3: the size of a format does not depend on the byte order, and
    alignment only ever adds to it: the same format body has one size under
    ['<'], ['>'], ['!'] and ['='], and under ['@'] a size that is at least
    as large. *)
Theorem size_by_prefix h body :
  sizeOf h (String "<" body) = sizeOf h (String ">" body)
  /\ sizeOf h (String ">" body) = sizeOf h (String "!" body)
  /\ sizeOf h (String "=" body) = sizeOf h (String "<" body)
  /\ sizeOf h (String "<" body) <= sizeOf h (String "@" body).
Proof.
  assert (LB : forall f, sizeOf_loop (LITTLE_ENDIAN_MAP h) f 0 None
                         = sizeOf_loop (BIG_ENDIAN_MAP h) f 0 None).
  { intros f. apply Z.le_antisymm;
      (apply sizeOf_loop_le; [apply (standard_vs_any h)|exact I|lia]);
      unfold is_table; auto. }
  unfold sizeOf, walked. cbn [list_ascii_of_string selectMap sel_map skipFirst skipn].
  repeat split.
  - apply LB.
  - destruct (IS_LITTLE_ENDIAN h); [reflexivity|symmetry; apply LB].
  - apply sizeOf_loop_le; [apply (standard_vs_any h)|exact I|lia];
      unfold is_table; auto.
Qed.

(** ** Size of a format made of two parts *)

Lemma sizeOf_loop_app m a : forall b size decimal,
  sizeOf_loop m (a ++ b) size decimal
  = sizeOf_loop m b (sizeOf_loop m a size decimal) (pending m a decimal).
Proof.
  induction a as [|c a IH]; intros b size decimal; cbn [app sizeOf_loop pending];
    [reflexivity|].
  destruct (is_digit c); [apply IH|]. destruct (m c); apply IH.
Qed.

Lemma sizeOf_loop_shift h m :
  m = LITTLE_ENDIAN_MAP h \/ m = BIG_ENDIAN_MAP h ->
  forall format size decimal,
  sizeOf_loop m format size decimal = size + sizeOf_loop m format 0 decimal.
Proof.
  intros Hm format; induction format as [|c rest IH]; intros size decimal;
    cbn [sizeOf_loop]; [lia|].
  destruct (is_digit c); [apply IH|].
  destruct (m c) as [o|] eqn:Hc; [|apply IH].
  rewrite (standard_align h m c o Hm Hc).
  change (align_to size 1) with size. change (align_to 0 1) with 0.
  destruct (is_s c); [rewrite IH, (IH (0 + _)); lia|].
  destruct (is_p c); rewrite IH, (IH (0 + _)); lia.
Qed.

(** X4: under a byte-order prefix nothing is padded, so sizes add up: when
    the first part of a format ends with no count pending, the size of the
    whole is the size of the first part plus the size of the second.  The
    sizes of the code are numbers of the language, which hold integers
    exactly below 2^53; the statement is for formats whose size stays below
    that, where every count, product and sum of [sizeOf] is the integer
    computed here. *)
Theorem size_concat h p a b :
  In p byte_order_prefixes ->
  pending_count h (String p a) = None ->
  sizeOf h (String p (a ++ b)) < 2 ^ 53 ->
  sizeOf h (String p (a ++ b)) = sizeOf h (String p a) + sizeOf h (String p b).
Proof.
  intros Hp Hpend _.
  destruct (byte_order_selection h p (list_ascii_of_string a) Hp) as [m [Hm Ha]].
  destruct (byte_order_selection h p (list_ascii_of_string b) Hp) as [m' [_ Hb]].
  destruct (byte_order_selection h p (list_ascii_of_string (a ++ b)) Hp) as [m'' [_ Hab]].
  assert (m' = m /\ m'' = m) as [-> ->].
  { unfold byte_order_prefixes in Hp.
    destruct Hp as [<- | [<- | [<- | [<- | []]]]]; cbn [selectMap] in *;
      split; congruence. }
  unfold pending_count in Hpend. cbn zeta in Hpend.
  unfold sizeOf, walked in *. cbn [list_ascii_of_string] in *.
  rewrite Ha in *. rewrite Hb, Hab. cbn [sel_map skipFirst skipn] in *.
  rewrite list_ascii_of_string_app, sizeOf_loop_app, Hpend.
  apply (sizeOf_loop_shift h m Hm).
Qed.

Lemma size_concat_witness :
  sizeOf x64 "<2Hxi3s" = sizeOf x64 "<2Hx" + sizeOf x64 "<i3s"
  /\ sizeOf x64 "<2Hxi3s" = 12.
Proof.
  split; [|reflexivity].
  apply (size_concat x64 "<" "2Hx" "i3s").
  - unfold byte_order_prefixes. pick_member.
  - reflexivity.
  - reflexivity.
Defined.

(** ** What an encoder leaves alone *)

Lemma put_bytes_after bytes : forall b start i,
  start + Z.of_nat (length bytes) <= i ->
  buf_get (put_bytes b start bytes) i = buf_get b i.
Proof.
  induction bytes as [|x rest IH]; intros b start i Hi; cbn [put_bytes]; [reflexivity|].
  cbn [length] in Hi. rewrite IH by lia. apply buf_set_other. lia.
Qed.

Lemma put_bytes_outside bytes b start i n :
  Z.of_nat (length bytes) <= n -> i < start \/ start + n <= i ->
  buf_get (put_bytes b start bytes) i = buf_get b i.
Proof.
  intros Hn [Hi|Hi]; [apply put_bytes_before|apply put_bytes_after]; lia.
Qed.

Lemma write_int_outside h b little n v pos i :
  i < pos \/ pos + Z.of_nat n <= i ->
  buf_get (write_int h b little n v pos) i = buf_get b i.
Proof.
  intros Hi. apply put_bytes_outside with (n := Z.of_nat n); [|exact Hi].
  rewrite ordered_length, le_bytes_length. lia.
Qed.

Lemma buf_fill0_outside b start stop b' i :
  buf_fill0 b start stop = Ok b' -> i < start \/ stop <= i ->
  buf_get b' i = buf_get b i.
Proof.
  unfold buf_fill0. destruct (_ || _); [discriminate|].
  destruct (Z.leb_spec stop start); intros [= <-] Hi; [reflexivity|].
  apply put_bytes_outside with (n := stop - start); [rewrite repeat_length; lia|lia].
Qed.

Lemma buf_slice_length b start stop :
  0 <= start -> 0 <= stop ->
  Z.of_nat (length (buf_slice b start stop)) <= Z.max 0 (stop - start).
Proof.
  intros Hs He. unfold buf_slice, clamp_index, buf_length.
  rewrite length_firstn.
  destruct (Z.ltb_spec start 0); [lia|].
  destruct (Z.ltb_spec stop 0); [lia|].
  generalize (length (skipn (Z.to_nat (Z.max 0 (Z.min start (Z.of_nat (length b))))) b)).
  intros k. lia.
Qed.

Lemma buf_copy_outside src target ts se b' i :
  buf_copy src target ts 0 se = Ok b' -> i < ts \/ ts + se <= i ->
  buf_get b' i = buf_get target i.
Proof.
  unfold buf_copy.
  destruct (Z.ltb_spec ts 0); [discriminate|].
  destruct (Z.ltb_spec se 0); [discriminate|]. cbn [orb Z.ltb Z.compare].
  destruct (_ || _); [now intros [= <-]|].
  destruct (buf_length src <? 0); [discriminate|].
  intros [= <-] Hi.
  apply put_bytes_outside with (n := Z.max 0 se); [|lia].
  rewrite length_firstn.
  pose proof (buf_slice_length src 0 se ltac:(lia) ltac:(lia)). lia.
Qed.

(** Every byte before the position and every byte from the end of the
    field on is left as it was. *)
Lemma encoder_frame h m c o f v b pos decimal b' i :
  is_table h m -> m c = Some o -> op_pack o = Some f ->
  f v b pos decimal = Ok b' ->
  i < pos \/ pos + field_size c o decimal <= i ->
  buf_get b' i = buf_get b i.
Proof.
  intros Hm Hc Hf Hr Hi.
  table_cases Hm Hc; cbn in Hf; try discriminate Hf; injection Hf as <-;
    unfold field_size in Hi; cbn [is_s is_p Ascii.eqb Bool.eqb op_size] in Hi;
    cbn in Hi;
    try destruct (IS_LITTLE_ENDIAN h); try destruct (IS_64bit h);
    try (unfold PACK_UINT64_LE, PACK_UINT64_BE, PACK_INT64_LE, PACK_INT64_BE in Hr;
         destruct (Long_words h v));
    try (injection Hr as <-;
         first [ rewrite !write_int_outside by (cbn; lia); reflexivity
               | apply buf_set_other; lia
               | apply put_bytes_outside with (n := 4);
                 [rewrite ordered_length, le_bytes_length; cbn; lia|lia]
               | apply put_bytes_outside with (n := 8);
                 [rewrite ordered_length, le_bytes_length; cbn; lia|lia] ]).
  all: try (unfold pack_char in Hr; destruct v as [| | | |s|]; try discriminate Hr;
            destruct s; injection Hr as <-; apply buf_set_other; lia).
  all: try (unfold PACK_STRING, bind, buf_write in Hr;
            destruct v as [| | | |s|]; try discriminate Hr;
            destruct (_ || _ || _) eqn:Hb; [discriminate Hr|];
            apply orb_false_elim in Hb; destruct Hb as [Hb Hb3];
            apply orb_false_elim in Hb; destruct Hb as [Hb1 Hb2];
            apply Z.ltb_ge in Hb1, Hb2, Hb3;
            match type of Hr with
            | context [put_bytes ?bb ?pp (firstn (Z.to_nat ?w) ?bs)] =>
                set (written := w) in *;
                assert (Hw : 0 <= written <= decimal) by (unfold written; lia);
                assert (Hp : buf_get (put_bytes bb pp (firstn (Z.to_nat written) bs)) i
                             = buf_get bb i)
                  by (apply put_bytes_outside with (n := decimal);
                      [rewrite length_firstn; lia|exact Hi])
            end;
            destruct (written <? decimal);
              [rewrite (buf_fill0_outside _ _ _ _ i Hr) by lia; exact Hp
              |injection Hr as <-; exact Hp]).
  all: unfold PACK_PASCAL_STRING, bind in Hr;
    destruct v as [| | | |s|]; try discriminate Hr;
    match type of Hr with
    | match buf_copy ?src ?bb ?pp 0 ?n with _ => _ end = _ =>
        destruct (buf_copy src bb pp 0 n) as [b1|] eqn:Hcp; [|discriminate Hr];
        remember n as count eqn:Ecount
    end;
    assert (Hcount : 0 <= count /\ count + 1 <= decimal)
      by (unfold buf_copy in Hcp;
          destruct (Z.ltb_spec (pos + 1) 0); [discriminate Hcp|];
          destruct (Z.ltb_spec count 0); [discriminate Hcp|];
          pose proof (Zle_0_nat (length (utf8_encode h s)));
          unfold buf_length in Ecount;
          destruct (Z.leb_spec decimal (Z.of_nat (length (utf8_encode h s))));
          match type of Ecount with context [255 <? ?x] =>
            destruct (Z.ltb_spec 255 x) end; lia);
    assert (Hd : or_default decimal 1 = decimal)
      by (unfold or_default; destruct (Z.eqb_spec decimal 0); lia);
    rewrite Hd in Hi;
    rewrite (buf_fill0_outside _ _ _ _ i Hr) by lia;
    apply (buf_copy_outside _ _ _ _ _ i Hcp); lia.
Qed.

(** X5: an encoder writes inside its field only.  Whatever entry of
    whatever table is called, at whatever position, the buffer keeps its
    length, and every byte before the position and every byte from the end
    of the field on is afterwards what it was before. *)
Theorem encoder_stays_in_field h m c o f v b pos decimal b' :
  is_table h m -> m c = Some o -> op_pack o = Some f ->
  f v b pos decimal = Ok b' ->
  length b' = length b
  /\ forall i, i < pos \/ pos + field_size c o decimal <= i ->
                buf_get b' i = buf_get b i.
Proof.
  intros Hm Hc Hf Hr. split.
  - eapply encoder_keeps_length; eassumption.
  - intros i Hi. eapply encoder_frame; eassumption.
Qed.

Lemma encoder_stays_in_field_witness :
  length [9; 1; 2; 0; 0; 9] = length [9; 8; 8; 8; 8; 9]
  /\ forall i, i < 1 \/ 1 + 4 <= i ->
                buf_get [9; 1; 2; 0; 0; 9] i = buf_get [9; 8; 8; 8; 8; 9] i.
Proof.
  exact (encoder_stays_in_field x64 (LITTLE_ENDIAN_MAP x64) "i" _ _ (VNum 513)
           [9; 8; 8; 8; 8; 9] 1 0 _ (or_intror (or_introl eq_refl)) eq_refl eq_refl eq_refl).
Defined.

(** ** Buffers that are long enough *)

Lemma align_to_mono p q align : p <= q -> align_to p align <= align_to q align.
Proof.
  intros Hpq. unfold align_to. destruct (Z.ltb_spec 1 align); [|exact Hpq].
  pose proof (Z.div_le_mono (- q) (- p) align ltac:(lia) ltac:(lia)). nia.
Qed.

Lemma decoder_fits h m c o f data pos decimal :
  is_table h m -> m c = Some o -> op_unpack o = Some f ->
  0 <= pos -> pos + field_size c o decimal <= buf_length data ->
  exists v, f data pos decimal = Ok v.
Proof.
  intros Hm Hc Hf Hp Hn.
  table_cases Hm Hc; cbn in Hf; try discriminate Hf; injection Hf as <-;
    unfold field_size in Hn; cbn in Hn;
    try destruct (IS_LITTLE_ENDIAN h); try destruct (IS_64bit h);
    try (eexists; reflexivity);
    try (apply unpack_int64_inside; lia).
  all: try (unfold unpack_byte; destruct (buf_get data pos); eexists; reflexivity).
  all: try (unfold unpack_bool; destruct (buf_get data pos); eexists; reflexivity).
  all: try (unfold UNPACK_PASCAL_STRING; destruct (buf_get data 0); eexists; reflexivity).
  all: try (unfold unpack_int8, unpack_int16;
            match goal with
            | |- exists v, read_int ?b ?l ?s ?n ?p = Ok v =>
                destruct (read_int_inside b l s n p) as [x ->];
                [lia|cbn; lia|eexists; reflexivity]
            end).
  all: unfold unpack_float, unpack_double, read_float, read_double;
    match goal with
    | |- context [bytes_at ?b ?p ?n] =>
        destruct (bytes_at_inside b p n) as [bytes ->];
        [lia|cbn; lia|eexists; reflexivity]
    end.
Qed.

Lemma field_total c o size decimal :
  0 <= decimal ->
  (if is_s c then size + or_default decimal 0
   else if is_p c then size + or_default decimal 1
   else size + op_size o * or_default decimal 1)
  = size + Z.of_nat (Z.to_nat (field_repeat c decimal)) * field_size c o decimal.
Proof.
  intros Hd. unfold field_repeat, field_size.
  pose proof (or_default_one_pos decimal Hd).
  destruct (is_s c); [unfold or_default; destruct (Z.eqb_spec decimal 0); lia|].
  destruct (is_p c); lia.
Qed.

(** No decoding occurrence ends beyond the computed size. *)
Lemma unpack_sites_within h m : is_table h m ->
  forall format position size decimal, pending_ok decimal -> position <= size ->
  Forall (fun site => fst site + snd site <= sizeOf_loop m format size decimal)
    (unpack_sites m format position decimal).
Proof.
  intros Hm format; induction format as [|c rest IH];
    intros position size decimal Hd Hps; cbn [unpack_sites sizeOf_loop]; [constructor|].
  destruct (is_digit c) eqn:Hdig; [apply IH; [apply push_digit_ok|]; assumption|].
  destruct (m c) as [o|] eqn:Hc; [|apply IH; assumption].
  pose proof (count_of_nonneg _ Hd) as Hn.
  rewrite (field_total c o _ _ Hn).
  pose proof (field_size_nonneg h m c o _ Hm Hc Hn) as Hfs.
  pose proof (align_to_mono position size (op_align o) Hps) as Hal.
  set (pos1 := align_to position (op_align o)) in *.
  set (size1 := align_to size (op_align o)) in *.
  set (fs := field_size c o (count_of decimal)) in *.
  set (n := Z.to_nat (field_repeat c (count_of decimal))).
  destruct (op_unpack o).
  - apply Forall_app. split.
    + pose proof (sizeOf_loop_ge h m Hm rest (size1 + Z.of_nat n * fs) None I) as Hge.
      assert (Hall : forall k p, p + Z.of_nat k * fs <= size1 + Z.of_nat n * fs ->
                Forall (fun site => fst site + snd site
                                    <= sizeOf_loop m rest (size1 + Z.of_nat n * fs) None)
                  (repeat_sites fs k p)).
      { induction k as [|k IHk]; intros p Hp; cbn [repeat_sites]; constructor.
        - cbn [fst snd]. nia.
        - apply IHk. lia. }
      apply Hall. lia.
    + apply IH; [exact I|lia].
  - apply IH; [exact I|nia].
Qed.

Lemma unpack_repeat_fits h m c o f data decimal :
  is_table h m -> m c = Some o -> op_unpack o = Some f ->
  let size := field_size c o decimal in
  0 <= size ->
  forall repeat position unpacked, 0 <= position ->
  Forall (fun site => fst site + snd site <= buf_length data)
    (repeat_sites size repeat position) ->
  exists r, unpack_repeat (Some f) data false size decimal repeat position unpacked = Ok r
            /\ fst r = position + Z.of_nat repeat * size.
Proof.
  intros Hm Hc Hf size Hsize repeat.
  induction repeat as [|n IH]; intros position unpacked Hpos Hall;
    cbn [unpack_repeat repeat_sites andb] in *.
  - eexists; split; [reflexivity|cbn; lia].
  - inversion Hall as [|site sites Hhere Hrest]; subst. cbn [fst snd] in Hhere.
    destruct (decoder_fits h m c o f data position decimal Hm Hc Hf Hpos Hhere) as [v Hv].
    fold size. rewrite Hv. cbn [bind].
    destruct (IH (position + size) (unpacked ++ [v]) ltac:(lia) Hrest) as [r [Hr Hp]].
    exists r. split; [exact Hr|lia].
Qed.

Lemma unpack_loop_fits h m data : is_table h m ->
  forall format position decimal unpacked, 0 <= position -> pending_ok decimal ->
  Forall (fun site => fst site + snd site <= buf_length data)
    (unpack_sites m format position decimal) ->
  exists st, unpackFrom_loop m data false format (position, decimal, unpacked) = Ok st.
Proof.
  intros Hm format; induction format as [|c rest IH];
    intros position decimal unpacked Hpos Hd; cbn [unpackFrom_loop unpack_sites].
  - intros _. eexists; reflexivity.
  - destruct (is_digit c) eqn:Hdig; [apply IH; [|apply push_digit_ok]; assumption|].
    destruct (m c) as [o|] eqn:Hc; [|apply IH; assumption].
    pose proof (count_of_nonneg _ Hd) as Hn.
    pose proof (field_size_nonneg h m c o _ Hm Hc Hn) as Hfs.
    pose proof (align_to_ge position (op_align o)) as Hal.
    destruct (op_unpack o) as [f|] eqn:Hf.
    + intros Hall. apply Forall_app in Hall. destruct Hall as [Hfield Hrest].
      assert (Hpos1 : 0 <= align_to position (op_align o)) by lia.
      destruct (unpack_repeat_fits h m c o f data (count_of decimal) Hm Hc Hf Hfs
                  _ _ unpacked Hpos1 Hfield) as [r [-> Hp]].
      cbn [bind]. apply IH; [nia|exact I|]. rewrite Hp. exact Hrest.
    + intros Hall. rewrite unpack_repeat_null. cbn [bind fst snd].
      apply IH; [lia|exact I|exact Hall].
Qed.

(** X7: a buffer at least as long as [sizeOf] says always unpacks when
    bounds are not checked: no read leaves the buffer, so nothing is
    thrown.  (With bounds checking a buffer of exactly that length is
    refused when the last field is a decoding one.) *)
Theorem long_enough_unpacks h format data :
  sizeOf h format <= buf_length data ->
  exists values, unpack h format data false = Ok values.
Proof.
  intros Hlen. unfold unpack, unpackFrom. cbn zeta.
  pose proof (unpack_sites_within h _ (selectMap_is_table h (list_ascii_of_string format))
                (walked h (list_ascii_of_string format)) 0 0 None I ltac:(lia)) as Hin.
  fold (sizeOf h format) in Hin.
  destruct (unpack_loop_fits h _ data (selectMap_is_table h (list_ascii_of_string format))
              (walked h (list_ascii_of_string format)) 0 None [] ltac:(lia) I) as [st ->].
  - eapply Forall_impl; [|exact Hin]. cbn beta. intros site Hs. lia.
  - eexists; reflexivity.
Qed.

Lemma long_enough_unpacks_witness :
  (exists values, unpack x64 "bhI3sq" [1; 0; 2; 0; 3; 0; 0; 0; 65; 66; 67; 0; 0; 0; 0; 0;
                                       4; 0; 0; 0; 0; 0; 0; 0] false = Ok values)
  /\ unpack x64 "bhI3sq" [1; 0; 2; 0; 3; 0; 0; 0; 65; 66; 67; 0; 0; 0; 0; 0;
                          4; 0; 0; 0; 0; 0; 0; 0] true = Throw ReachedEndOfBuffer.
Proof.
  split; [|reflexivity].
  apply (long_enough_unpacks x64 "bhI3sq"). cbn. lia.
Defined.

(** ** A written count of zero *)

(** A format that is one repeated code with the count 0 in front. *)
Lemma sizeOf_lone_zero m c o : In c scalar_codes -> m c = Some o ->
  sizeOf_loop m ["0"%char; c] 0 None = op_size o.
Proof.
  intros Hc Ho.
  pose proof (type_code_not_digit _ (scalar_code_is_type_code _ Hc)) as Hdig.
  destruct (scalar_code_not_text _ Hc) as [Hs Hp].
  cbn [sizeOf_loop]. change (is_digit "0") with true. cbn iota.
  rewrite Hdig, Ho, Hs, Hp.
  change (count_of (push_digit None "0")) with 0. change (or_default 0 1) with 1.
  unfold align_to. destruct (1 <? op_align o); cbn; lia.
Qed.

Lemma scalar_code_decoder h m c o : is_table h m -> m c = Some o ->
  In c scalar_codes -> c <> "x"%char -> exists f, op_unpack o = Some f.
Proof.
  intros Hm Ho Hc Hx. destruct (scalar_code_not_text _ Hc) as [Hs Hp].
  table_cases Hm Ho; try congruence; try discriminate Hs; try discriminate Hp;
    eexists; reflexivity.
Qed.

Lemma unpack_lone_zero h m c data cb position st : is_table h m ->
  In c scalar_codes -> c <> "x"%char ->
  unpackFrom_loop m data cb ["0"%char; c] (position, None, []) = Ok st ->
  length (snd st) = 1%nat.
Proof.
  intros Hm Hc Hx.
  pose proof (scalar_code_is_type_code _ Hc) as Hkey.
  pose proof (type_code_not_digit _ Hkey) as Hdig.
  destruct (table_has_codes _ _ _ Hm Hkey) as [o Ho].
  destruct (scalar_code_decoder _ _ _ _ Hm Ho Hc Hx) as [f Hf].
  destruct (scalar_code_not_text _ Hc) as [Hs Hp].
  cbn [unpackFrom_loop]. change (is_digit "0") with true. cbn iota.
  rewrite Hdig, Ho. unfold field_repeat. rewrite Hs, Hp.
  change (count_of (push_digit None "0")) with 0. change (or_default 0 1) with 1.
  change (Z.to_nat 1) with 1%nat. cbn [unpack_repeat]. rewrite Hf.
  destruct (cb && _); [discriminate|].
  unfold bind. destruct (f data _ 0) as [v|]; [|discriminate].
  intros [= <-]. reflexivity.
Qed.

Lemma unpack_lone_zero_total h m c o data : is_table h m ->
  In c scalar_codes -> c <> "x"%char -> m c = Some o ->
  op_size o <= buf_length data ->
  exists v, unpackFrom_loop m data false ["0"%char; c] (0, None, [])
            = Ok (op_size o, None, [v]).
Proof.
  intros Hm Hc Hx Ho Hlen.
  pose proof (scalar_code_is_type_code _ Hc) as Hkey.
  pose proof (type_code_not_digit _ Hkey) as Hdig.
  destruct (scalar_code_decoder _ _ _ _ Hm Ho Hc Hx) as [f Hf].
  destruct (scalar_code_not_text _ Hc) as [Hs Hp].
  assert (Hal : align_to 0 (op_align o) = 0).
  { unfold align_to. destruct (1 <? op_align o); cbn; lia. }
  destruct (decoder_fits h m c o f data 0 0 Hm Ho Hf (Z.le_refl 0)) as [v Hv].
  { unfold field_size. rewrite Hs, Hp. lia. }
  exists v.
  cbn [unpackFrom_loop]. change (is_digit "0") with true. cbn iota.
  rewrite Hdig, Ho, Hal. unfold field_repeat, field_size. rewrite Hs, Hp.
  change (count_of (push_digit None "0")) with 0. change (or_default 0 1) with 1.
  change (Z.to_nat 1) with 1%nat. cbn [unpack_repeat andb]. rewrite Hf, Hv.
  cbn [bind unpack_repeat fst snd app]. reflexivity.
Qed.

(** C10: on a repeated code (any type code but [s] and [p]) a written
    count of 0 is taken as 1.  Wherever in a format the field stands, as
    long as no other count is pending in front of it, ['0c'], ['1c'] and a
    bare ['c'] give the same size and the same decoded values; [pack] gives
    the same on the three (it stops at its allocation, see C7), and so does
    the rest of [pack] on any buffer.  Alone after any prefix, ['0c'] has
    the size of one element, which is positive, and decodes to one value
    whenever it decodes, which it does on any buffer of at least that
    size. *)
Theorem zero_count_repeats_once h pre c post data values checkBounds position :
  In c scalar_codes ->
  pending_count h pre = None ->
  let zero := (pre ++ String "0" (String c post))%string in
  let one := (pre ++ String "1" (String c post))%string in
  let bare := (pre ++ String c post)%string in
  (sizeOf h zero = sizeOf h one /\ sizeOf h zero = sizeOf h bare)
  /\ (unpackFrom h zero data checkBounds position
        = unpackFrom h one data checkBounds position
      /\ unpackFrom h zero data checkBounds position
           = unpackFrom h bare data checkBounds position)
  /\ (pack h zero values checkBounds = pack h one values checkBounds
      /\ pack h zero values checkBounds = pack h bare values checkBounds)
  /\ (forall packed,
        pack_into h zero values checkBounds packed
          = pack_into h one values checkBounds packed
        /\ pack_into h zero values checkBounds packed
           = pack_into h bare values checkBounds packed)
  /\ (forall p, In p all_prefixes ->
        let lone := (p ++ String "0" (String c EmptyString))%string in
        (exists o,
            sel_map (selectMap h (list_ascii_of_string lone)) c = Some o
            /\ sizeOf h lone = op_size o /\ 0 < op_size o)
        /\ (c <> "x"%char -> forall decoded,
              unpackFrom h lone data checkBounds position = Ok decoded ->
              length decoded = 1%nat)
        /\ (c <> "x"%char -> sizeOf h lone <= buf_length data ->
            exists v, unpack h lone data false = Ok [v])).
Proof.
  intros Hc Hpend zero one bare. unfold pending_count in Hpend. cbn zeta in Hpend.
  pose proof (scalar_code_is_type_code _ Hc) as Hkey.
  set (m := sel_map (selectMap h (list_ascii_of_string pre))) in *.
  assert (Hm : is_table h m) by apply selectMap_is_table.
  destruct (selection_after h pre "0" (c :: list_ascii_of_string post)
              (or_introl eq_refl)) as [M0 W0].
  destruct (selection_after h pre "1" (c :: list_ascii_of_string post)
              (or_introl eq_refl)) as [M1 W1].
  destruct (selection_after h pre c (list_ascii_of_string post)
              (or_intror Hkey)) as [Mb Wb].
  assert (Hsize : sizeOf h zero = sizeOf h one /\ sizeOf h zero = sizeOf h bare).
  { unfold sizeOf, zero, one, bare. rewrite !list_ascii_of_string_app.
    cbn [list_ascii_of_string]. rewrite M0, M1, Mb, W0, W1, Wb. fold m.
    split; apply sizeOf_loop_after; try assumption;
      intros size; apply (sizeOf_field_zero h m c _ Hm Hc size). }
  split; [exact Hsize|]. split; [|split; [|split]].
  - unfold unpackFrom, zero, one, bare. rewrite !list_ascii_of_string_app.
    cbn [list_ascii_of_string]. rewrite M0, M1, Mb, W0, W1, Wb. fold m.
    split; f_equal; apply unpackFrom_loop_after; try assumption;
      intros p u; apply (unpack_field_zero h m data checkBounds c _ Hm Hc p u).
  - split; reflexivity.
  - intros packed. unfold pack_into.
    unfold zero, one, bare. rewrite !list_ascii_of_string_app.
    cbn [list_ascii_of_string]. rewrite M0, M1, Mb, W0, W1, Wb. fold m.
    split; f_equal; apply pack_loop_after; try assumption;
      intros p d b; apply (pack_field_zero h m values checkBounds c _ Hm Hc p d b).
  - intros p Hp lone.
    destruct (selection_after h p "0" [c] (or_introl eq_refl)) as [L0 LW].
    cbn zeta in L0, LW.
    set (lm := sel_map (selectMap h (list_ascii_of_string p))) in *.
    assert (Hlm : is_table h lm) by apply selectMap_is_table.
    assert (Hw : walked h (list_ascii_of_string p) = []).
    { unfold all_prefixes in Hp.
      repeat (destruct Hp as [<- | Hp]; [reflexivity|]). destruct Hp. }
    destruct (table_has_codes _ _ _ Hlm Hkey) as [o Ho].
    unfold unpack, sizeOf, unpackFrom, lone. rewrite !list_ascii_of_string_app.
    cbn [list_ascii_of_string]. rewrite L0, LW, Hw. fold lm. cbn [app].
    rewrite (sizeOf_lone_zero lm c o Hc Ho).
    split; [|split].
    + exists o. split; [exact Ho|]. split; [reflexivity|].
      eapply table_size_pos; eassumption.
    + intros Hx decoded. unfold bind.
      destruct (unpackFrom_loop lm data checkBounds ["0"%char; c] (position, None, []))
        as [st|] eqn:Hl; [|discriminate].
      intros [= <-]. eapply unpack_lone_zero; eassumption.
    + intros Hx Hlen.
      destruct (unpack_lone_zero_total h lm c o data Hlm Hc Hx Ho Hlen) as [v ->].
      exists v. reflexivity.
Qed.

Lemma zero_count_repeats_once_witness :
  (sizeOf x64 "<b0iH" = sizeOf x64 "<b1iH" /\ sizeOf x64 "<b0iH" = sizeOf x64 "<biH")
  /\ sizeOf x64 "<b0iH" = 7
  /\ unpackFrom x64 "<b0iH" [1; 2; 0; 0; 0; 3; 0; 9] false 0
     = Ok [VNum 1; VNum 2; VNum 3]
  /\ pack_into x64 "<b0iH" [VNum 1; VNum 2; VNum 3] true [0; 0; 0; 0; 0; 0; 0]
     = Ok [1; 2; 0; 0; 0; 3; 0]
  /\ pack_into x64 "<b0iH" [VNum 1; VNum 2; VNum 3] true [0; 0; 0; 0; 0; 0; 0]
     = pack_into x64 "<biH" [VNum 1; VNum 2; VNum 3] true [0; 0; 0; 0; 0; 0; 0]
  /\ pack x64 "<b0iH" [VNum 1; VNum 2; VNum 3] true = Throw TypeError.
Proof.
  pose proof (zero_count_repeats_once x64 "<b" "i" "H" [] [VNum 1; VNum 2; VNum 3] true 0
                ltac:(unfold scalar_codes; pick_member) eq_refl) as (H & _ & _ & Hp & _).
  split; [exact H|]. split; [reflexivity|]. split; [reflexivity|].
  split; [reflexivity|]. split; [|reflexivity]. exact (proj2 (Hp [0; 0; 0; 0; 0; 0; 0])).
Defined.

(** ** One field, any table, any position *)

Ltac fits := first [assumption | lia | cbn; lia].

Lemma codec_round_trip_at h m c v b pos d d' :
  is_table h m -> representable h c v -> 0 <= pos ->
  exists o f g,
    m c = Some o /\ op_pack o = Some f /\ op_unpack o = Some g
    /\ (pos + op_size o <= buf_length b ->
        exists packed, f v b pos d = Ok packed /\ g packed pos d' = Ok v).
Proof.
  intros Hm Hr Hpos.
  inversion Hr as [ch | x Hx | x Hx | x Hx | x Hx | c' x Hc Hx | c' x Hc Hx
                  | v' Hv | v' Hv | lo hi Hlo Hhi | lo hi Hlo Hhi
                  | x H64 Hx | lo hi H64 Hlo Hhi | bb ]; subst;
    try (destruct Hc as [-> | ->]);
    destruct Hm as [-> | [-> | ->]];
    do 3 eexists;
    (split; [reflexivity|]); (split; [reflexivity|]); (split; [reflexivity|]);
    cbn [op_size]; try rewrite H64; destruct (IS_LITTLE_ENDIAN h); intros Hfit.
  all: try (eexists; split; [reflexivity|];
            unfold unpack_char; rewrite buf_set_get by fits;
            now rewrite char_code_round_trip).
  all: try (eexists; split; [reflexivity|];
            first [ apply write_int_read_signed | apply write_int_read_unsigned ];
            fits).
  all: try (eexists; split; [reflexivity|];
            unfold unpack_byte; rewrite buf_set_get by fits; cbn [ToInteger];
            rewrite Z.mod_small by lia; reflexivity).
  all: try (eexists; split; [reflexivity|];
            unfold UNPACK_INT32_LE, UNPACK_INT32_BE, UNPACK_UINT32_LE, UNPACK_UINT32_BE;
            do 2 f_equal; apply read_int_noAssert_inside;
            first [ apply write_int_read_signed | apply write_int_read_unsigned ];
            fits).
  all: try (eexists; split; [reflexivity|];
            unfold unpack_float, pack_float; rewrite write_float_read_float by fits;
            now rewrite Hv).
  all: try (eexists; split; [reflexivity|];
            unfold unpack_double, pack_double; rewrite write_double_read_double by fits;
            now rewrite Hv).
  all: try (eexists; split; [reflexivity|];
            unfold unpack_bool; rewrite buf_set_get by fits; destruct bb; reflexivity).
  all: first [ apply (pack_int64_unpack_int64 h true _ lo hi)
             | apply (pack_int64_unpack_int64 h false _ lo hi) ]; fits.
Qed.

(** ** A decoder looks at its field only *)

Lemma bytes_at_ext b b' pos n :
  length b = length b' ->
  (forall j, pos <= j < pos + Z.of_nat n -> buf_get b j = buf_get b' j) ->
  bytes_at b pos n = bytes_at b' pos n.
Proof.
  intros Hl Hag. unfold bytes_at, buf_length. rewrite <- Hl.
  destruct (Z.ltb_spec pos 0); [reflexivity|].
  destruct (Z.ltb_spec (Z.of_nat (length b)) (pos + Z.of_nat n)); [reflexivity|].
  cbn [orb]. f_equal. apply nth_error_ext. intros k.
  rewrite !nth_error_firstn. destruct (Nat.ltb_spec k n); [|reflexivity].
  rewrite !nth_error_skipn.
  specialize (Hag (pos + Z.of_nat k) ltac:(lia)). unfold buf_get in Hag.
  destruct (Z.ltb_spec (pos + Z.of_nat k) 0); [lia|].
  replace (Z.to_nat (pos + Z.of_nat k)) with (Z.to_nat pos + k)%nat in Hag by lia.
  exact Hag.
Qed.

Lemma read_int_ext b b' little signed n pos :
  length b = length b' ->
  (forall j, pos <= j < pos + Z.of_nat n -> buf_get b j = buf_get b' j) ->
  read_int b little signed n pos = read_int b' little signed n pos.
Proof. intros Hl Hag. unfold read_int. now rewrite (bytes_at_ext b b' pos n Hl Hag). Qed.

(** The decoders of the codes that are not text read nothing outside their
    field: on two buffers of one length that agree on the field, which lies
    inside them, they return the same. *)
Lemma decoder_local h m c o g data data' pos d :
  is_table h m -> m c = Some o -> is_s c = false -> is_p c = false ->
  op_unpack o = Some g ->
  length data = length data' ->
  0 <= pos -> pos + op_size o <= buf_length data ->
  (forall j, pos <= j < pos + op_size o -> buf_get data j = buf_get data' j) ->
  g data pos d = g data' pos d.
Proof.
  intros Hm Hc Hs Hp Hg Hl Hpos Hfit Hag.
  table_cases Hm Hc; try discriminate Hs; try discriminate Hp;
    cbn in Hg; try discriminate Hg; injection Hg as <-; cbn [op_size] in Hag, Hfit;
    try destruct (IS_LITTLE_ENDIAN h); try destruct (IS_64bit h).
  all: try (unfold unpack_char, unpack_byte, unpack_bool;
            rewrite (Hag pos ltac:(lia)); reflexivity).
  all: try (unfold unpack_int8, unpack_int16; apply read_int_ext; [exact Hl|];
            intros j Hj; apply Hag; cbn in Hj; lia).
  all: try (unfold UNPACK_INT32_LE, UNPACK_INT32_BE, UNPACK_UINT32_LE, UNPACK_UINT32_BE,
              read_int_noAssert;
            match goal with
            | |- context [read_int _ ?l ?s ?n _] =>
                rewrite (read_int_ext data data' l s n pos Hl)
                  by (intros j Hj; apply Hag; cbn in Hj; lia);
                destruct (read_int_inside data' l s n pos) as [x Hx];
                  [lia|unfold buf_length in *; rewrite <- Hl; cbn; lia|];
                rewrite Hx
            end; reflexivity).
  all: try (unfold unpack_float, unpack_double, read_float, read_double;
            match goal with
            | |- context [bytes_at _ _ ?n] =>
                rewrite (bytes_at_ext data data' pos n Hl)
                  by (intros j Hj; apply Hag; cbn in Hj; lia)
            end; reflexivity).
  all: unfold UNPACK_UINT64_LE, UNPACK_UINT64_BE, UNPACK_INT64_LE, UNPACK_INT64_BE,
         unpack_int64;
    rewrite (read_int_ext data data' _ true 4 pos Hl)
      by (intros j Hj; apply Hag; cbn in Hj; lia);
    rewrite (read_int_ext data data' _ true 4 (pos + 4) Hl)
      by (intros j Hj; apply Hag; cbn in Hj; lia);
    reflexivity.
Qed.

(** ** Whole formats, packed and unpacked again *)

Lemma plain_entry h m c o :
  is_table h m -> m c = Some o -> pad_or_text c = false ->
  (exists f g, op_pack o = Some f /\ op_unpack o = Some g)
  /\ is_s c = false /\ is_p c = false.
Proof.
  intros Hm Hc Hp.
  table_cases Hm Hc; try discriminate Hp;
    (split; [do 2 eexists; split; reflexivity|split; reflexivity]).
Qed.

Lemma Forall2_repeat_l {A B} (R : A -> B -> Prop) a n l :
  Forall2 R (repeat a n) l -> length l = n /\ Forall (R a) l.
Proof.
  revert l. induction n as [|n IH]; intros l H; cbn [repeat] in H;
    inversion H; subst; [split; constructor|].
  destruct (IH _ ltac:(eassumption)) as [Hl Hf]. split; [cbn; lia|].
  constructor; assumption.
Qed.

Lemma repeat_round_trip h m c o f g cb d d' data :
  is_table h m -> m c = Some o -> is_s c = false -> is_p c = false ->
  op_pack o = Some f -> op_unpack o = Some g ->
  forall vs position dIndex packed,
  0 <= position ->
  position + Z.of_nat (length vs) * op_size o <= buf_length packed ->
  Forall (representable h c) vs ->
  (dIndex + length vs <= length data)%nat ->
  (forall k, (k < length vs)%nat ->
             nth (dIndex + k) data VUndefined = nth k vs VUndefined) ->
  exists packed',
    pack_repeat (Some f) data cb (op_size o) d (length vs) position dIndex packed
    = Ok (position + Z.of_nat (length vs) * op_size o, (dIndex + length vs)%nat, packed')
    /\ length packed' = length packed
    /\ (forall j, j < position -> buf_get packed' j = buf_get packed j)
    /\ forall buffer unpacked,
         length buffer = length packed' ->
         (forall j, position <= j < position + Z.of_nat (length vs) * op_size o ->
                    buf_get buffer j = buf_get packed' j) ->
         unpack_repeat (Some g) buffer false (op_size o) d' (length vs) position unpacked
         = Ok (position + Z.of_nat (length vs) * op_size o, unpacked ++ vs).
Proof.
  intros Hm Hc Hs Hp Hf Hg.
  pose proof (table_size_pos h m c o Hm Hc) as Hsz.
  induction vs as [|v vs IH]; intros position dIndex packed Hpos Hfit Hrep Hlen Hnth;
    cbn [length pack_repeat unpack_repeat].
  - exists packed. rewrite Z.mul_0_l, Z.add_0_r, Nat.add_0_r.
    repeat split; try reflexivity.
    intros buffer unpacked _ _. now rewrite app_nil_r.
  - cbn [length] in Hfit, Hlen, Hnth.
    inversion Hrep as [|v0 vs0 Hv Hvs]; subst.
    destruct (codec_round_trip_at h m c v packed position d d' Hm Hv Hpos)
      as (o1 & f1 & g1 & Ho1 & Hf1 & Hg1 & Hcodec).
    rewrite Hc in Ho1. injection Ho1 as <-.
    rewrite Hf in Hf1. injection Hf1 as <-.
    rewrite Hg in Hg1. injection Hg1 as <-.
    destruct (Hcodec ltac:(nia)) as (b1 & Hw & Hrd).
    pose proof (encoder_keeps_length h m c o f v packed position d b1 Hm Hc Hf Hw) as Hl1.
    assert (Hfit1 : position + op_size o + Z.of_nat (length vs) * op_size o
                    <= buf_length b1) by (unfold buf_length in *; rewrite Hl1; nia).
    destruct (IH (position + op_size o) (S dIndex) b1 ltac:(lia) Hfit1 Hvs ltac:(lia))
      as (packed' & Hpack & Hl' & Hframe & Hunpack).
    { intros k Hk. specialize (Hnth (S k) ltac:(lia)).
      rewrite Nat.add_succ_r in Hnth. exact Hnth. }
    exists packed'. split; [|split; [|split]].
    + destruct (Nat.leb_spec (length data) dIndex); [lia|].
      rewrite andb_false_r.
      specialize (Hnth 0%nat ltac:(lia)). rewrite Nat.add_0_r in Hnth. cbn [nth] in Hnth.
      rewrite Hnth, Hw. cbn [bind]. rewrite Hpack.
      replace (position + op_size o + Z.of_nat (length vs) * op_size o)
        with (position + Z.of_nat (S (length vs)) * op_size o) by lia.
      replace (S dIndex + length vs)%nat with (dIndex + S (length vs))%nat by lia.
      reflexivity.
    + congruence.
    + intros j Hj. rewrite Hframe by lia.
      apply (encoder_frame h m c o f v packed position d b1 j Hm Hc Hf Hw). left. exact Hj.
    + intros buffer unpacked Hlb Hag. cbn [andb].
      assert (Hloc : g buffer position d' = g b1 position d').
      { apply (decoder_local h m c o g buffer b1 position d' Hm Hc Hs Hp Hg);
          [congruence|exact Hpos|unfold buf_length in *; rewrite Hlb, Hl'; nia|].
        intros j Hj. rewrite Hag by nia. apply Hframe. lia. }
      rewrite Hloc, Hrd. cbn [bind].
      rewrite (Hunpack buffer (unpacked ++ [v]) Hlb) by (intros j Hj; apply Hag; nia).
      rewrite <- app_assoc. cbn [app].
      replace (position + op_size o + Z.of_nat (length vs) * op_size o)
        with (position + Z.of_nat (S (length vs)) * op_size o) by lia.
      reflexivity.
Qed.

Lemma loop_round_trip h m cb data : is_table h m ->
  forall format position decimal dIndex packed vs,
  existsb pad_or_text format = false ->
  0 <= position -> pending_ok decimal ->
  Forall2 (representable h) (pack_codes m format decimal) vs ->
  sizeOf_loop m format position decimal <= buf_length packed ->
  (dIndex + length vs <= length data)%nat ->
  (forall k, (k < length vs)%nat ->
             nth (dIndex + k) data VUndefined = nth k vs VUndefined) ->
  exists st,
    pack_loop m data cb format (position, decimal, dIndex, packed) = Ok st
    /\ length (snd st) = length packed
    /\ (forall j, j < position -> buf_get (snd st) j = buf_get packed j)
    /\ forall buffer unpacked,
         length buffer = length packed ->
         (forall j, position <= j -> buf_get buffer j = buf_get (snd st) j) ->
         exists ust,
           unpackFrom_loop m buffer false format (position, decimal, unpacked) = Ok ust
           /\ snd ust = unpacked ++ vs.
Proof.
  intros Hm format; induction format as [|c rest IH];
    intros position decimal dIndex packed vs Hplain Hpos Hd Hcodes Hfit Hlen Hnth;
    cbn [pack_loop unpackFrom_loop pack_codes sizeOf_loop existsb] in *.
  - inversion Hcodes; subst. eexists. split; [reflexivity|]. cbn [snd].
    repeat split; try reflexivity.
    intros buffer unpacked _ _. eexists. split; [reflexivity|]. cbn. now rewrite app_nil_r.
  - apply orb_false_elim in Hplain. destruct Hplain as [Hc0 Hrest].
    destruct (is_digit c) eqn:Hdig;
      [apply IH; try assumption; apply push_digit_ok; assumption|].
    destruct (m c) as [o|] eqn:Hc; [|apply IH; assumption].
    destruct (plain_entry h m c o Hm Hc Hc0) as ((f & g & Hf & Hg) & Hs & Hp).
    pose proof (count_of_nonneg _ Hd) as Hn.
    rewrite (field_total c o _ _ Hn) in Hfit.
    rewrite Hf in Hcodes. rewrite Hf, Hg.
    unfold field_size in *. rewrite Hs, Hp in *.
    set (n := Z.to_nat (field_repeat c (count_of decimal))) in *.
    set (pos1 := align_to position (op_align o)) in *.
    pose proof (align_to_ge position (op_align o)) as Hal. fold pos1 in Hal.
    apply Forall2_app_inv_l in Hcodes.
    destruct Hcodes as (vs1 & vs2 & Hvs1 & Hvs2 & ->).
    apply Forall2_repeat_l in Hvs1. destruct Hvs1 as [Hl1 Hrep1].
    rewrite length_app in Hlen, Hnth.
    pose proof (sizeOf_loop_ge h m Hm rest (pos1 + Z.of_nat n * op_size o) None I) as Hge.
    rewrite <- Hl1 in *.
    assert (Hpos1 : 0 <= pos1) by lia.
    assert (Hfit1 : pos1 + Z.of_nat (length vs1) * op_size o <= buf_length packed) by lia.
    assert (Hlen1 : (dIndex + length vs1 <= length data)%nat) by lia.
    destruct (repeat_round_trip h m c o f g cb (count_of decimal) (count_of decimal) data
                Hm Hc Hs Hp Hf Hg vs1 pos1 dIndex packed Hpos1 Hfit1 Hrep1 Hlen1)
      as (b1 & Hpack & Hlb1 & Hframe1 & Hunpack1).
    { intros k Hk. rewrite Hnth by lia. apply app_nth1. exact Hk. }
    rewrite Hpack. cbn [bind].
    pose proof (table_size_pos h m c o Hm Hc) as Hsz.
    assert (Hpos2 : 0 <= pos1 + Z.of_nat (length vs1) * op_size o) by nia.
    assert (Hfit2 : sizeOf_loop m rest (pos1 + Z.of_nat (length vs1) * op_size o) None
                    <= buf_length b1) by (unfold buf_length in *; rewrite Hlb1; lia).
    assert (Hlen2 : (dIndex + length vs1 + length vs2 <= length data)%nat) by lia.
    destruct (IH (pos1 + Z.of_nat (length vs1) * op_size o) None (dIndex + length vs1)%nat
                b1 vs2 Hrest Hpos2 I Hvs2 Hfit2 Hlen2)
      as (st & Hst & Hlst & Hframe2 & Hunpack2).
    { intros k Hk. rewrite <- Nat.add_assoc, Hnth by lia.
      rewrite app_nth2 by lia. f_equal. lia. }
    exists st. split; [exact Hst|]. split; [congruence|]. split.
    + intros j Hj. rewrite Hframe2 by nia. apply Hframe1. lia.
    + intros buffer unpacked Hlb Hag.
      assert (Hlb1' : length buffer = length b1) by congruence.
      rewrite (Hunpack1 buffer unpacked Hlb1').
      * cbn [bind fst snd].
        destruct (Hunpack2 buffer (unpacked ++ vs1) Hlb1') as (ust & Hu & Hsnd).
        { intros j Hj. apply Hag. nia. }
        exists ust. split; [exact Hu|]. rewrite Hsnd. now rewrite app_assoc.
      * intros j Hj. rewrite Hag by lia. apply Hframe2. lia.
Qed.

Lemma existsb_walked_any (P : ascii -> bool) h format :
  existsb P format = false -> existsb P (walked h format) = false.
Proof.
  unfold walked. destruct (skipFirst _); [|auto].
  destruct format as [|c rest]; [auto|]. cbn [skipn existsb].
  intros H. apply orb_false_elim in H. tauto.
Qed.

Lemma plain_no_text format : plain format -> no_text (list_ascii_of_string format).
Proof.
  unfold plain, no_text. induction (list_ascii_of_string format) as [|c rest IH];
    cbn [existsb]; [reflexivity|].
  intros H. apply orb_false_elim in H. destruct H as [Hc Hrest].
  rewrite (IH Hrest), orb_false_r.
  unfold pad_or_text in Hc. apply orb_false_elim in Hc. destruct Hc as [Hc _].
  apply orb_false_elim in Hc. exact (proj2 Hc).
Qed.

(** The loop of [pack], run over a new buffer of the computed size, and
    [unpack] on what it leaves. *)
Lemma fresh_round_trip h format values checkBounds :
  plain format ->
  Forall2 (representable h) (value_codes h format) values ->
  exists packed,
    pack_fresh h format values checkBounds = Ok packed
    /\ unpack h format packed false = Ok values.
Proof.
  unfold plain, value_codes, pack_fresh, pack_into, unpack, unpackFrom. cbn zeta.
  intros Hplain Hcodes.
  apply (existsb_walked_any pad_or_text h) in Hplain.
  pose proof (new_Buffer_length h (sizeOf h format) (sizeOf_nonneg h format)) as Hlen.
  destruct (loop_round_trip h _ checkBounds values
              (selectMap_is_table h (list_ascii_of_string format))
              (walked h (list_ascii_of_string format)) 0 None 0%nat
              (new_Buffer h (sizeOf h format)) values Hplain (Z.le_refl 0) I Hcodes)
    as (st & Hst & Hl & _ & Hunpack).
  - rewrite Hlen. unfold sizeOf. cbn zeta. lia.
  - cbn. lia.
  - intros k _. reflexivity.
  - rewrite Hst. cbn [bind]. exists (snd st). split; [reflexivity|].
    destruct (Hunpack (snd st) [] Hl (fun j _ => eq_refl)) as (ust & -> & Hsnd).
    cbn [bind]. now rewrite Hsnd.
Qed.

(** X8: in the copy written with [var], any format made of codes other
    than [x], [s] and [p], with counts and under any prefix or none, gives
    back the values that were packed, when each value is one its code is
    meant to carry: [pack] succeeds, with or without bounds checking, and
    [unpack] of the buffer without bounds checking returns the same values
    in the same order. *)
Theorem fields_round_trip h format values checkBounds :
  plain format ->
  Forall2 (representable h) (value_codes_var h format) values ->
  exists packed,
    pack_var h format values checkBounds = Ok packed
    /\ unpack_var h format packed false = Ok values.
Proof.
  intros Hplain Hcodes. rewrite value_codes_var_same in Hcodes.
  destruct (fresh_round_trip h format values checkBounds Hplain Hcodes)
    as (packed & Hp & Hu).
  exists packed. rewrite pack_var_fresh, unpack_var_no_text by (apply plain_no_text, Hplain).
  split; assumption.
Qed.

Lemma fields_round_trip_witness :
  exists packed,
    pack_var x64 "@b2hI?q" [VNum (-3); VNum 258; VNum (-2); VNum 4000000000; VBool true;
                        VLong 7 (-1) false] true = Ok packed
    /\ unpack_var x64 "@b2hI?q" packed false
       = Ok [VNum (-3); VNum 258; VNum (-2); VNum 4000000000; VBool true;
             VLong 7 (-1) false].
Proof.
  apply (fields_round_trip x64 "@b2hI?q"); [reflexivity|].
  cbn. constructor; [apply rep_int8; lia|].
  constructor; [apply rep_int16; lia|].
  constructor; [apply rep_int16; lia|].
  constructor; [apply rep_uint32; [left; reflexivity|lia]|].
  constructor; [apply rep_bool|].
  constructor; [apply rep_int64; lia|constructor].
Defined.

(** ** Bounds checking against a buffer of the computed size *)

Lemma repeat_sites_last size : forall repeat position, (0 < repeat)%nat ->
  Exists (fun site => fst site + snd site = position + Z.of_nat repeat * size)
    (repeat_sites size repeat position).
Proof.
  induction repeat as [|n IH]; intros position Hn; [lia|]. cbn [repeat_sites].
  destruct n as [|n].
  - left. cbn [fst snd]. lia.
  - right. specialize (IH (position + size) ltac:(lia)).
    eapply Exists_impl; [|exact IH]. cbn beta. intros site Hs. lia.
Qed.

(** In a format without pad and text codes the last decoding occurrence
    ends where the computed size ends. *)
Lemma plain_last_site h m : is_table h m ->
  forall format position decimal,
  existsb pad_or_text format = false -> pending_ok decimal ->
  (unpack_sites m format position decimal = []
   /\ sizeOf_loop m format position decimal = position)
  \/ Exists (fun site => fst site + snd site = sizeOf_loop m format position decimal)
       (unpack_sites m format position decimal).
Proof.
  intros Hm format; induction format as [|c rest IH]; intros position decimal Hplain Hd;
    cbn [unpack_sites sizeOf_loop existsb] in *.
  - left. split; reflexivity.
  - apply orb_false_elim in Hplain. destruct Hplain as [Hc0 Hrest].
    destruct (is_digit c) eqn:Hdig; [apply IH; [assumption|apply push_digit_ok; assumption]|].
    destruct (m c) as [o|] eqn:Hc; [|apply IH; assumption].
    destruct (plain_entry h m c o Hm Hc Hc0) as ((f & g & Hf & Hg) & Hs & Hp).
    pose proof (count_of_nonneg _ Hd) as Hn.
    rewrite (field_total c o _ _ Hn), Hg.
    set (n := Z.to_nat (field_repeat c (count_of decimal))).
    assert (Hn1 : (0 < n)%nat).
    { unfold n, field_repeat. rewrite Hs, Hp.
      pose proof (or_default_one_pos _ Hn). lia. }
    right. apply Exists_app.
    destruct (IH (align_to position (op_align o)
                  + Z.of_nat n * field_size c o (count_of decimal)) None Hrest I)
      as [[Hnil Hsame] | Hex].
    + left. fold n in Hsame. rewrite Hsame. apply repeat_sites_last. exact Hn1.
    + right. exact Hex.
Qed.

(** X9: with bounds checking, [unpack] refuses every buffer that is not
    longer than the computed size, for any format of codes other than [x],
    [s] and [p] that decodes at least one value.  In particular it refuses
    a buffer of exactly the computed size, the length [pack] allocates for
    the same format: the test is [position + size >= data.length], and the
    last field ends exactly at that length. *)
Theorem exact_size_refused h format data :
  plain format ->
  decode_sites h format 0 <> [] ->
  buf_length data <= sizeOf h format ->
  unpack h format data true = Throw ReachedEndOfBuffer.
Proof.
  unfold plain, decode_sites, unpack, unpackFrom, sizeOf. cbn zeta.
  intros Hplain Hsites Hlen.
  apply (existsb_walked_any pad_or_text h) in Hplain.
  set (m := sel_map (selectMap h (list_ascii_of_string format))) in *.
  set (w := walked h (list_ascii_of_string format)) in *.
  assert (Hm : is_table h m) by apply selectMap_is_table.
  pose proof (unpack_loop_checked h m data Hm w 0 None [] (Z.le_refl 0) I) as Hchk.
  destruct (plain_last_site h m Hm w 0 None Hplain I) as [[Hnil _] | Hex];
    [contradiction|].
  assert (Hreach : Exists (reaches_end data) (unpack_sites m w 0 None)).
  { eapply Exists_impl; [|exact Hex]. cbn beta. intros site Hs.
    unfold reaches_end. lia. }
  destruct (unpackFrom_loop m data true w (0, None, [])) as [st|e]; [tauto|].
  destruct Hchk as [-> _]. reflexivity.
Qed.

Lemma exact_size_refused_witness :
  sizeOf x64 "<2HI" = 8
  /\ unpack x64 "<2HI" [1; 0; 2; 0; 3; 0; 0; 0] true = Throw ReachedEndOfBuffer
  /\ unpack x64 "<2HI" [1; 0; 2; 0; 3; 0; 0; 0] false = Ok [VNum 1; VNum 2; VNum 3].
Proof.
  split; [reflexivity|]. split; [|reflexivity].
  apply (exact_size_refused x64 "<2HI" [1; 0; 2; 0; 3; 0; 0; 0]).
  - reflexivity.
  - discriminate.
  - cbn. lia.
Defined.

(** ** The bits of an integer read as a float *)

Lemma align_to_zero align : align_to 0 align = 0.
Proof.
  unfold align_to. destruct (Z.ltb_spec 1 align); [|reflexivity].
  change (- 0) with 0. rewrite Z.div_0_l by lia. reflexivity.
Qed.

(** A format that is one repeated code and nothing else. *)
Lemma lone_field h c o :
  In c scalar_codes -> NATIVE_MAP h c = Some o ->
  (forall f v cb, op_pack o = Some f ->
     pack_fresh h (String c EmptyString) [v] cb = f v (new_Buffer h (op_size o)) 0 0)
  /\ (forall g data, op_unpack o = Some g ->
        unpack h (String c EmptyString) data false = (x <- g data 0 0 ;; Ok [x])).
Proof.
  intros Hc Ho.
  pose proof (scalar_code_is_type_code _ Hc) as Hkey.
  pose proof (type_code_not_digit _ Hkey) as Hdig.
  destruct (scalar_code_not_text _ Hc) as [Hs Hp].
  pose proof (selectMap_no_prefix h c [] (or_intror Hkey)) as Hsel.
  assert (Hsize : sizeOf h (String c EmptyString) = op_size o).
  { unfold sizeOf, walked. cbn [list_ascii_of_string]. rewrite Hsel.
    cbn [sel_map skipFirst sizeOf_loop]. rewrite Hdig, Ho, Hs, Hp, align_to_zero.
    change (count_of None) with 0. change (or_default 0 1) with 1. lia. }
  split.
  - intros f v cb Hf. unfold pack_fresh, pack_into. rewrite Hsize. unfold walked.
    cbn [list_ascii_of_string]. rewrite Hsel.
    cbn [sel_map skipFirst pack_loop]. rewrite Hdig, Ho, Hf, align_to_zero.
    unfold field_size, field_repeat. rewrite Hs, Hp.
    change (count_of None) with 0. change (or_default 0 1) with 1.
    change (Z.to_nat 1) with 1%nat.
    cbn [pack_repeat nth length Nat.leb]. rewrite andb_false_r. unfold bind.
    destruct (f v (new_Buffer h (op_size o)) 0 0); reflexivity.
  - intros g data Hg. unfold unpack, unpackFrom, walked.
    cbn [list_ascii_of_string]. rewrite Hsel.
    cbn [sel_map skipFirst unpackFrom_loop]. rewrite Hdig, Ho, Hg, align_to_zero.
    unfold field_size, field_repeat. rewrite Hs, Hp.
    change (count_of None) with 0. change (or_default 0 1) with 1.
    change (Z.to_nat 1) with 1%nat.
    cbn [unpack_repeat andb app]. unfold bind.
    destruct (g data 0 0); reflexivity.
Qed.

Lemma write_int_read_float h b little x pos :
  0 <= pos -> pos + 4 <= buf_length b -> 0 <= x < 4294967296 ->
  read_float h (write_int h b little 4 (VNum x) pos) little pos
  = Ok (float_of_bits h x).
Proof.
  intros Hpos Hlen Hx. unfold read_float, write_int. cbn [ToInteger].
  pose proof (bytes_at_put_bytes_whole b pos (ordered little (le_bytes 4 x)) Hpos) as H.
  rewrite ordered_length, le_bytes_length in H. rewrite (H Hlen).
  rewrite stored_value. change (256 ^ Z.of_nat 4) with 4294967296.
  rewrite Z.mod_small by lia. reflexivity.
Qed.

(** X10: the bits of an integer read as a float.  In the copy written
    with [var], an unsigned 32-bit integer packed with ['I'], given as a
    plain argument so that bounds checking is on, and the four bytes
    unpacked with ['f'], give the number whose binary32 pattern the integer
    is, on a host of either byte order.  This is the expression
    [struct.unpack('f', struct.pack('I', intValue))] of [example.js] with
    that copy as the module. *)
Theorem integer_bits_as_float h x :
  0 <= x < 4294967296 ->
  exists packed,
    pack_arguments_var h "I" [VNum x] = Ok packed
    /\ buf_length packed = 4
    /\ unpack_var h "f" packed false = Ok [float_of_bits h x].
Proof.
  intros Hx. unfold pack_arguments_var. rewrite pack_var_fresh.
  destruct (lone_field h "I" _ ltac:(unfold scalar_codes; pick_member) eq_refl) as [HI _].
  destruct (lone_field h "f" _ ltac:(unfold scalar_codes; pick_member) eq_refl) as [_ Hf].
  pose proof (HI _ (VNum x) true eq_refl) as HP.
  pose proof (fun data => Hf _ data eq_refl) as HU.
  cbn [op_size] in HP. clear HI Hf.
  assert (HV : forall data, unpack_var h "f" data false = unpack h "f" data false).
  { intros data. apply unpack_var_no_text. reflexivity. }
  assert (Hl : forall little, buf_length (write_int h (new_Buffer h 4) little 4 (VNum x) 0) = 4).
  { intros little. unfold buf_length. rewrite write_int_length.
    apply (new_Buffer_length h 4). lia. }
  revert HP HU. destruct (IS_LITTLE_ENDIAN h); intros HP HU;
    eexists; (split; [exact HP|]); (split; [apply Hl|]);
    rewrite HV, HU; unfold unpack_float;
    rewrite write_int_read_float by (rewrite ?new_Buffer_length; lia); reflexivity.
Qed.

(** 1111949312 is the binary32 pattern of 49.75, and 4632198507355176960
    its binary64 pattern. *)
Lemma integer_bits_as_float_witness :
  exists packed,
    pack_arguments_var x64 "I" [VNum 1111949312] = Ok packed
    /\ buf_length packed = 4
    /\ unpack_var x64 "f" packed false = Ok [VReal 4632198507355176960].
Proof. apply (integer_bits_as_float x64 1111949312). lia. Defined.

(** ** Text of fixed length *)

Lemma find_zero_app a : forall l i,
  Forall (fun x => x <> 0) a ->
  find_zero (a ++ l) i = find_zero l (i + Z.of_nat (length a)).
Proof.
  induction a as [|x a IH]; intros l i Ha; cbn [app find_zero length].
  - f_equal. lia.
  - inversion Ha as [|x0 a0 Hx Hrest]; subst.
    destruct (Z.eqb_spec x 0); [contradiction|].
    rewrite IH by assumption. f_equal. lia.
Qed.

Lemma find_zero_range l : forall i,
  0 <= i -> find_zero l i = -1 \/ i <= find_zero l i.
Proof.
  induction l as [|x l IH]; intros i Hi; cbn [find_zero]; [now left|].
  destruct (x =? 0); [right; lia|].
  destruct (IH (i + 1) ltac:(lia)); [now left|right; lia].
Qed.

Lemma map_wrap_bytes l :
  Forall (fun x => 0 <= x < 256) l -> map (fun x => x mod 256) l = l.
Proof.
  induction 1 as [|x l Hx Hl IH]; cbn [map]; [reflexivity|].
  rewrite IH, Z.mod_small by lia. reflexivity.
Qed.

Lemma clamp_index_inside b i : 0 <= i <= buf_length b -> clamp_index b i = i.
Proof.
  intros Hi. unfold clamp_index. destruct (Z.ltb_spec i 0); lia.
Qed.

(** What [PACK_STRING] leaves in the buffer when the whole text fits: the
    bytes of the text, then zeros to the end of the field. *)
Lemma PACK_STRING_fits h s b pos len :
  0 <= pos -> pos + len <= buf_length b ->
  buf_length (utf8_encode h s) <= len ->
  utf8_fit h s len = buf_length (utf8_encode h s) ->
  PACK_STRING h (VStr s) b pos len
  = Ok (put_bytes b pos
          (utf8_encode h s
           ++ repeat 0 (Z.to_nat (len - buf_length (utf8_encode h s))))).
Proof.
  intros Hpos Hlen Hfits Hfit. unfold PACK_STRING, buf_write, bind.
  set (bytes := utf8_encode h s) in *.
  assert (HL : 0 <= buf_length bytes) by (unfold buf_length; lia).
  destruct (Z.ltb_spec pos 0); [lia|].
  destruct (Z.ltb_spec (buf_length b) pos); [lia|].
  destruct (Z.ltb_spec len 0); [lia|]. cbn [orb].
  rewrite (Z.min_l len) by lia. rewrite Hfit.
  rewrite (Z.min_l (buf_length bytes)) by lia. rewrite Z.max_r by lia.
  replace (Z.to_nat (buf_length bytes)) with (length bytes) by (unfold buf_length; lia).
  rewrite firstn_all, put_bytes_app. fold (buf_length bytes).
  destruct (Z.ltb_spec (buf_length bytes) len).
  - unfold buf_fill0.
    assert (Hb1 : buf_length (put_bytes b pos bytes) = buf_length b)
      by (unfold buf_length; now rewrite put_bytes_length).
    rewrite Hb1.
    destruct (Z.ltb_spec (pos + buf_length bytes) 0); [lia|].
    destruct (Z.ltb_spec (buf_length b) (pos + len)); [lia|]. cbn [orb].
    destruct (Z.leb_spec (pos + len) (pos + buf_length bytes)); [lia|].
    do 3 f_equal. lia.
  - replace (len - buf_length bytes) with 0 by lia. reflexivity.
Qed.

(** X11: a text packed by [PACK_STRING] into a field it fits in comes back
    from [UNPACK_STRING] at the same position: when the field lies inside
    the buffer, the bytes of the text hold no zero and are no more than the
    length of the field, and the host writes a text that fits in whole and
    decodes its own bytes to the text. *)
Theorem text_round_trip h s b pos len :
  0 <= pos -> pos + len <= buf_length b ->
  Forall (fun x => 0 < x < 256) (utf8_encode h s) ->
  buf_length (utf8_encode h s) <= len ->
  utf8_fit h s len = buf_length (utf8_encode h s) ->
  utf8_decode h (utf8_encode h s) = s ->
  exists packed,
    PACK_STRING h (VStr s) b pos len = Ok packed
    /\ UNPACK_STRING h packed pos len = Ok (VStr s).
Proof.
  intros Hpos Hlen Hbytes Hfits Hfit Hdec.
  rewrite (PACK_STRING_fits h s b pos len Hpos Hlen Hfits Hfit).
  eexists. split; [reflexivity|].
  set (bytes := utf8_encode h s) in *.
  set (L := buf_length bytes) in *.
  assert (HL : 0 <= L) by (unfold L, buf_length; lia).
  set (zs := repeat 0 (Z.to_nat (len - L))).
  assert (Hzs : length zs = Z.to_nat (len - L)) by apply repeat_length.
  assert (Hfield : Z.of_nat (length (bytes ++ zs)) = len)
    by (rewrite length_app, Hzs; unfold L, buf_length in *; lia).
  set (p := Z.to_nat pos).
  assert (Hpacked : put_bytes b pos (bytes ++ zs)
                    = firstn p b ++ (bytes ++ zs) ++ skipn (p + length (bytes ++ zs)) b).
  { rewrite put_bytes_spec by lia. fold p. do 2 f_equal.
    apply map_wrap_bytes. apply Forall_app. split.
    - eapply Forall_impl; [|exact Hbytes]. cbn beta. lia.
    - unfold zs. apply Forall_forall. intros x Hx. apply repeat_spec in Hx. lia. }
  set (post := skipn (p + length (bytes ++ zs)) b) in *.
  set (packed := put_bytes b pos (bytes ++ zs)) in *.
  assert (Hpl : buf_length packed = buf_length b)
    by (unfold packed, buf_length; now rewrite put_bytes_length).
  assert (Hpre : length (firstn p b) = p)
    by (rewrite length_firstn; unfold p, buf_length in *; lia).
  assert (Hskip : skipn p packed = bytes ++ zs ++ post).
  { rewrite Hpacked. rewrite <- Hpre at 1. rewrite skipn_exact. now rewrite <- app_assoc. }
  unfold UNPACK_STRING, buf_indexOf0.
  rewrite (clamp_index_inside packed pos) by lia. fold p. rewrite Hskip.
  rewrite find_zero_app
    by (eapply Forall_impl; [|exact Hbytes]; cbn beta; lia).
  fold (buf_length bytes). fold L.
  assert (Hend : Z.min (pos + len)
                   (if find_zero (zs ++ post) (pos + L) =? -1
                    then buf_length packed else find_zero (zs ++ post) (pos + L))
                 = pos + L).
  { destruct (Z.eq_dec L len) as [Heq|Hne].
    - destruct (find_zero_range (zs ++ post) (pos + L) ltac:(lia)) as [Hr|Hr].
      + rewrite Hr, Z.eqb_refl. lia.
      + destruct (Z.eqb_spec (find_zero (zs ++ post) (pos + L)) (-1)); lia.
    - assert (Hz : exists zs', zs = 0 :: zs').
      { unfold zs. destruct (Z.to_nat (len - L)) eqn:E; [lia|].
        cbn [repeat]. eexists; reflexivity. }
      destruct Hz as [zs' ->]. cbn [app find_zero]. rewrite Z.eqb_refl.
      destruct (Z.eqb_spec (pos + L) (-1)); lia. }
  rewrite Hend. unfold buf_slice.
  rewrite (clamp_index_inside packed pos), (clamp_index_inside packed (pos + L)) by lia.
  fold p. rewrite Hskip.
  replace (Z.to_nat (pos + L - pos)) with (length bytes) by (unfold L, buf_length; lia).
  rewrite firstn_exact. fold bytes in Hdec. now rewrite Hdec.
Qed.

Lemma text_round_trip_witness :
  exists packed,
    PACK_STRING x64 (VStr "hi") [7; 7; 7; 7; 7; 7] 1 4 = Ok packed
    /\ UNPACK_STRING x64 packed 1 4 = Ok (VStr "hi").
Proof.
  apply (text_round_trip x64 "hi" [7; 7; 7; 7; 7; 7] 1 4); try reflexivity;
    try (cbn; lia).
  repeat constructor.
Defined.

(** ** Decoding from an offset *)

Section Shift.

Variables pre data : Buffer.

Lemma shift_length : buf_length (pre ++ data) = buf_length pre + buf_length data.
Proof. unfold buf_length. rewrite length_app. lia. Qed.

Lemma shift_skipn k : skipn (length pre + k) (pre ++ data) = skipn k data.
Proof. rewrite Nat.add_comm, <- skipn_skipn, skipn_exact. reflexivity. Qed.

Lemma shift_to_nat i :
  0 <= i -> Z.to_nat (buf_length pre + i) = (length pre + Z.to_nat i)%nat.
Proof. unfold buf_length. lia. Qed.

Lemma shift_buf_get i :
  0 <= i -> buf_get (pre ++ data) (buf_length pre + i) = buf_get data i.
Proof.
  intros Hi. unfold buf_get.
  assert (HL : 0 <= buf_length pre) by (unfold buf_length; lia).
  destruct (Z.ltb_spec (buf_length pre + i) 0); [lia|].
  destruct (Z.ltb_spec i 0); [lia|].
  rewrite shift_to_nat by assumption.
  rewrite nth_error_app2 by lia. f_equal. lia.
Qed.

Lemma shift_bytes_at pos n :
  0 <= pos -> bytes_at (pre ++ data) (buf_length pre + pos) n = bytes_at data pos n.
Proof.
  intros Hpos. unfold bytes_at. rewrite shift_length.
  assert (HL : 0 <= buf_length pre) by (unfold buf_length; lia).
  destruct (Z.ltb_spec (buf_length pre + pos) 0); [lia|].
  destruct (Z.ltb_spec pos 0); [lia|]. cbn [orb].
  destruct (Z.ltb_spec (buf_length pre + buf_length data)
              (buf_length pre + pos + Z.of_nat n));
    destruct (Z.ltb_spec (buf_length data) (pos + Z.of_nat n)); try lia; [reflexivity|].
  rewrite shift_to_nat, shift_skipn by assumption. reflexivity.
Qed.

Lemma shift_read_int little signed n pos :
  0 <= pos ->
  read_int (pre ++ data) little signed n (buf_length pre + pos)
  = read_int data little signed n pos.
Proof. intros Hpos. unfold read_int. now rewrite shift_bytes_at. Qed.

Lemma shift_clamp i :
  0 <= i -> clamp_index (pre ++ data) (buf_length pre + i)
            = buf_length pre + clamp_index data i.
Proof.
  intros Hi. unfold clamp_index. rewrite shift_length.
  assert (HL : 0 <= buf_length pre) by (unfold buf_length; lia).
  assert (HD : 0 <= buf_length data) by (unfold buf_length; lia).
  destruct (Z.ltb_spec (buf_length pre + i) 0); [lia|].
  destruct (Z.ltb_spec i 0); lia.
Qed.

Lemma shift_slice start stop :
  0 <= start -> 0 <= stop ->
  buf_slice (pre ++ data) (buf_length pre + start) (buf_length pre + stop)
  = buf_slice data start stop.
Proof.
  intros Hs He. unfold buf_slice. rewrite !shift_clamp by assumption.
  assert (0 <= clamp_index data start) by (unfold clamp_index; lia).
  rewrite shift_to_nat, shift_skipn by assumption.
  f_equal. lia.
Qed.

End Shift.

Lemma find_zero_shift l : forall i k, 0 <= i ->
  find_zero l (k + i) = if find_zero l i =? -1 then -1 else k + find_zero l i.
Proof.
  induction l as [|x l IH]; intros i k Hi; cbn [find_zero]; [reflexivity|].
  destruct (x =? 0).
  - destruct (Z.eqb_spec i (-1)); [lia|reflexivity].
  - replace (k + i + 1) with (k + (i + 1)) by lia. apply IH. lia.
Qed.

Lemma shift_indexOf0 pre data pos :
  0 <= pos ->
  buf_indexOf0 (pre ++ data) (buf_length pre + pos)
  = if buf_indexOf0 data pos =? -1 then -1 else buf_length pre + buf_indexOf0 data pos.
Proof.
  intros Hpos. unfold buf_indexOf0. rewrite shift_clamp by assumption.
  assert (0 <= clamp_index data pos) by (unfold clamp_index; lia).
  rewrite shift_to_nat, shift_skipn by assumption.
  apply find_zero_shift. assumption.
Qed.

Lemma buf_indexOf0_range data pos :
  buf_indexOf0 data pos = -1 \/ 0 <= buf_indexOf0 data pos.
Proof.
  unfold buf_indexOf0.
  assert (0 <= clamp_index data pos) by (unfold clamp_index; lia).
  destruct (find_zero_range (skipn (Z.to_nat (clamp_index data pos)) data)
              (clamp_index data pos)); [assumption|now left|right; lia].
Qed.

(** The decoders other than the pascal one see a buffer and a position,
    moved along together, as the same. *)
Lemma decoder_shift h m c o g pre data pos d :
  is_table h m -> m c = Some o -> is_p c = false -> op_unpack o = Some g ->
  0 <= pos -> 0 <= d ->
  g (pre ++ data) (buf_length pre + pos) d = g data pos d.
Proof.
  intros Hm Hc Hp Hg Hpos Hd.
  table_cases Hm Hc; try discriminate Hp; cbn in Hg; try discriminate Hg;
    injection Hg as <-;
    try destruct (IS_LITTLE_ENDIAN h); try destruct (IS_64bit h).
  all: try (unfold unpack_char, unpack_byte, unpack_bool;
            rewrite shift_buf_get by assumption; reflexivity).
  all: try (unfold unpack_int8, unpack_int16; apply shift_read_int; assumption).
  all: try (unfold UNPACK_INT32_LE, UNPACK_INT32_BE, UNPACK_UINT32_LE, UNPACK_UINT32_BE,
              read_int_noAssert;
            rewrite shift_read_int by assumption;
            replace (Z.max 0 (buf_length pre + pos)) with (buf_length pre + Z.max 0 pos)
              by (unfold buf_length; lia);
            replace (buf_length pre + pos + Z.of_nat 4)
              with (buf_length pre + (pos + Z.of_nat 4)) by lia;
            rewrite shift_slice by lia; reflexivity).
  all: try (unfold unpack_float, unpack_double, read_float, read_double;
            rewrite shift_bytes_at by assumption; reflexivity).
  all: try (unfold UNPACK_UINT64_LE, UNPACK_UINT64_BE, UNPACK_INT64_LE, UNPACK_INT64_BE,
              unpack_int64;
            replace (buf_length pre + pos + 4) with (buf_length pre + (pos + 4)) by lia;
            rewrite !shift_read_int by lia; reflexivity).
  all: unfold UNPACK_STRING; rewrite shift_indexOf0, shift_length by assumption;
    destruct (buf_indexOf0_range data pos) as [Hz|Hz];
    [rewrite Hz, !Z.eqb_refl;
     replace (Z.min (buf_length pre + pos + d) (buf_length pre + buf_length data))
       with (buf_length pre + Z.min (pos + d) (buf_length data)) by lia
    |destruct (Z.eqb_spec (buf_indexOf0 data pos) (-1)); [lia|];
     destruct (Z.eqb_spec (buf_length pre + buf_indexOf0 data pos) (-1));
       [unfold buf_length in *; lia|];
     replace (Z.min (buf_length pre + pos + d) (buf_length pre + buf_indexOf0 data pos))
       with (buf_length pre + Z.min (pos + d) (buf_indexOf0 data pos)) by lia];
    rewrite shift_slice by (unfold buf_length in *; lia); reflexivity.
Qed.

Lemma unpack_repeat_shift h m c o pre data cb d :
  is_table h m -> m c = Some o -> is_p c = false -> 0 <= d ->
  let size := field_size c o d in
  forall repeat position unpacked, 0 <= position ->
  unpack_repeat (op_unpack o) (pre ++ data) cb size d repeat
    (buf_length pre + position) unpacked
  = moved_repeat (buf_length pre)
      (unpack_repeat (op_unpack o) data cb size d repeat position unpacked).
Proof.
  intros Hm Hc Hp Hd size.
  pose proof (field_size_nonneg h m c o d Hm Hc Hd) as Hsize. fold size in Hsize.
  destruct (op_unpack o) as [g|] eqn:Hg.
  - induction repeat as [|n IH]; intros position unpacked Hpos;
      cbn [unpack_repeat moved_repeat]; [reflexivity|].
    rewrite shift_length.
    replace (buf_length pre + buf_length data <=? buf_length pre + position + size)
      with (buf_length data <=? position + size)
      by (destruct (Z.leb_spec (buf_length data) (position + size));
          destruct (Z.leb_spec (buf_length pre + buf_length data)
                      (buf_length pre + position + size)); lia).
    destruct (cb && _); [reflexivity|].
    rewrite (decoder_shift h m c o g pre data position d Hm Hc Hp Hg Hpos Hd).
    destruct (g data position d) as [v|]; cbn [bind]; [|reflexivity].
    replace (buf_length pre + position + size) with (buf_length pre + (position + size))
      by lia.
    apply IH. lia.
  - intros. rewrite !unpack_repeat_null. reflexivity.
Qed.

Lemma unpack_loop_shift h m pre data cb :
  m = LITTLE_ENDIAN_MAP h \/ m = BIG_ENDIAN_MAP h ->
  forall format position decimal unpacked,
  existsb is_p format = false -> 0 <= position -> pending_ok decimal ->
  unpackFrom_loop m (pre ++ data) cb format (buf_length pre + position, decimal, unpacked)
  = moved_state (buf_length pre)
      (unpackFrom_loop m data cb format (position, decimal, unpacked)).
Proof.
  intros Hstd.
  assert (Hm : is_table h m) by (unfold is_table; tauto).
  intros format; induction format as [|c rest IH];
    intros position decimal unpacked Hnp Hpos Hd;
    cbn [unpackFrom_loop moved_state existsb] in *; [reflexivity|].
  apply orb_false_elim in Hnp. destruct Hnp as [Hp Hrest].
  destruct (is_digit c) eqn:Hdig;
    [apply IH; [assumption|assumption|apply push_digit_ok; assumption]|].
  destruct (m c) as [o|] eqn:Hc; [|apply IH; assumption].
  rewrite (standard_align h m c o Hstd Hc).
  change (align_to (buf_length pre + position) 1) with (buf_length pre + position).
  change (align_to position 1) with position.
  pose proof (count_of_nonneg _ Hd) as Hn.
  rewrite (unpack_repeat_shift h m c o pre data cb (count_of decimal) Hm Hc Hp Hn
             _ position unpacked Hpos).
  pose proof (field_size_nonneg h m c o _ Hm Hc Hn) as Hsize.
  destruct (unpack_repeat (op_unpack o) data cb _ _ _ position unpacked) as [[p1 u1]|] eqn:Hr;
    cbn [moved_repeat bind fst snd]; [|reflexivity].
  apply IH; [assumption| |exact I].
  destruct (op_unpack o) as [g|].
  - apply unpack_repeat_count in Hr. cbn [fst] in Hr. destruct Hr as [-> _]. nia.
  - rewrite unpack_repeat_null in Hr. injection Hr as <- _. exact Hpos.
Qed.

(** X12: structures laid end to end can be decoded one after the other.
    Under a byte-order prefix and for a format without the pascal code,
    [unpackFrom] started at the length of what comes before gives what
    [unpack] gives on the rest alone, values or error, with or without
    bounds checking. *)
Theorem unpack_from_offset h p body pre data checkBounds :
  In p byte_order_prefixes ->
  no_pascal body ->
  unpackFrom h (String p body) (pre ++ data) checkBounds (buf_length pre)
  = unpack h (String p body) data checkBounds.
Proof.
  intros Hp Hnp. unfold no_pascal in Hnp.
  destruct (byte_order_selection h p (list_ascii_of_string body) Hp) as [m [Hm Hsel]].
  unfold unpack, unpackFrom, walked. cbn [list_ascii_of_string]. rewrite Hsel.
  cbn [sel_map skipFirst skipn].
  pose proof (unpack_loop_shift h m pre data checkBounds Hm (list_ascii_of_string body)
                0 None [] Hnp (Z.le_refl 0) I) as Hshift.
  rewrite Z.add_0_r in Hshift. rewrite Hshift.
  destruct (unpackFrom_loop m data checkBounds (list_ascii_of_string body) (0, None, []))
    as [[[p1 d1] u1]|]; reflexivity.
Qed.

Lemma unpack_from_offset_witness :
  unpackFrom x64 "<H2sB" ([1; 0; 65; 66; 7] ++ [2; 0; 67; 0; 8]) false 5
  = unpack x64 "<H2sB" [2; 0; 67; 0; 8] false
  /\ unpack x64 "<H2sB" [2; 0; 67; 0; 8] false = Ok [VNum 2; VStr "C"; VNum 8].
Proof.
  split; [|reflexivity].
  apply (unpack_from_offset x64 "<" "H2sB" [1; 0; 65; 66; 7] [2; 0; 67; 0; 8] false).
  - unfold byte_order_prefixes. pick_member.
  - reflexivity.
Defined.

(** ** The two copies of the text decoder *)

(** X14: the two copies of [UNPACK_STRING] agree whenever the buffer holds
    a zero byte at or after the position.  When it holds none, the copy
    beside [index.js] takes [indexOf]'s -1 as the end of the slice: it
    returns the bytes from the position up to, but not including, the last
    byte of the buffer, whatever the length of the field; the copy in
    [index.js] stops at the end of the field or of the buffer. *)
Theorem text_decoder_copies h data pos len :
  (buf_indexOf0 data pos <> -1 ->
   UNPACK_STRING_var h data pos len = UNPACK_STRING h data pos len)
  /\ (buf_indexOf0 data pos = -1 -> 0 <= pos + len ->
      UNPACK_STRING_var h data pos len
      = Ok (VStr (utf8_decode h (buf_slice data pos (buf_length data - 1))))
      /\ UNPACK_STRING h data pos len
         = Ok (VStr (utf8_decode h
                       (buf_slice data pos (Z.min (pos + len) (buf_length data)))))).
Proof.
  unfold UNPACK_STRING_var, UNPACK_STRING. split.
  - intros Hz. destruct (Z.eqb_spec (buf_indexOf0 data pos) (-1)); [contradiction|].
    reflexivity.
  - intros Hz Hlen. rewrite Hz, Z.eqb_refl. split; [|reflexivity].
    rewrite Z.min_r by lia. do 3 f_equal.
    unfold buf_slice. f_equal. f_equal. f_equal.
    unfold clamp_index, buf_length.
    destruct (length data) as [|n]; [reflexivity|].
    destruct (Z.ltb_spec (Z.of_nat (S n) - 1) 0); [lia|]. cbn [Z.ltb Z.compare]. lia.
Qed.

Lemma text_decoder_copies_witness :
  UNPACK_STRING_var x64 [65; 66; 0; 67] 0 4 = UNPACK_STRING x64 [65; 66; 0; 67] 0 4
  /\ UNPACK_STRING_var x64 [65; 66; 67; 68] 0 2 = Ok (VStr "ABC")
  /\ UNPACK_STRING x64 [65; 66; 67; 68] 0 2 = Ok (VStr "AB").
Proof.
  split; [|split; reflexivity].
  apply (proj1 (text_decoder_copies x64 [65; 66; 0; 67] 0 4)). cbn. lia.
Defined.

(** ** Bytes that are never written *)

Lemma pack_loop_no_slots m data cb : forall format position decimal dIndex packed,
  pack_slots m format decimal = 0%nat ->
  exists position' decimal',
    pack_loop m data cb format (position, decimal, dIndex, packed)
    = Ok (position', decimal', dIndex, packed).
Proof.
  induction format as [|c rest IH]; intros position decimal dIndex packed;
    cbn [pack_loop pack_slots].
  - intros _. do 2 eexists; reflexivity.
  - destruct (is_digit c); [apply IH|].
    destruct (m c) as [o|]; [|apply IH].
    destruct (op_pack o) as [f|].
    + intros Hz. apply Nat.eq_add_0 in Hz. destruct Hz as [-> Hrest].
      cbn [pack_repeat bind]. apply IH. exact Hrest.
    + intros Hz. rewrite pack_repeat_null. cbn [bind]. apply IH. exact Hz.
Qed.

(** X15: [pack] writes nothing for pad bytes.  In the copy written with
    [var], a format that takes no value (pad codes, counts, characters that
    are no codes) returns the newly allocated buffer as it came, of the
    computed size: on a runtime that does not clear new buffers these bytes
    are whatever was in memory. *)
Theorem pads_are_not_written h format data checkBounds :
  value_slots_var h format = 0%nat ->
  pack_var h format data checkBounds = Ok (new_Buffer h (sizeOf_var h format)).
Proof.
  rewrite value_slots_var_same, pack_var_fresh, sizeOf_var_same.
  unfold value_slots, pack_fresh, pack_into. cbn zeta. intros Hz.
  destruct (pack_loop_no_slots _ data checkBounds _ 0 None 0%nat
              (new_Buffer h (sizeOf h format)) Hz) as (p' & d' & ->).
  reflexivity.
Qed.

Lemma pads_are_not_written_witness :
  pack_var x64 "<3x 2x" [VNum 1] true = Ok (new_Buffer x64 5).
Proof. apply (pads_are_not_written x64 "<3x 2x" [VNum 1] true). reflexivity. Defined.

(** ** The buffer [pack] returns, in the copy written with [var] *)

(** X16: in the copy written with [var], where [PythonStruct.sizeOf] is the
    function of the object literal, the buffer [pack] returns when it
    completes is as long as [sizeOf] says for the same format: [pack]
    allocates a buffer of that size, no encoder changes a buffer's length,
    and that buffer is what is returned. *)
Theorem pack_var_length_is_sizeOf h format data checkBounds packed :
  pack_var h format data checkBounds = Ok packed ->
  buf_length packed = sizeOf_var h format.
Proof.
  rewrite pack_var_fresh, sizeOf_var_same.
  unfold pack_fresh, pack_into, bind.
  match goal with
  | |- match ?x with _ => _ end = _ -> _ => destruct x as [st|] eqn:Hl
  end; [|discriminate].
  intros [= <-].
  apply pack_loop_length with (h := h) in Hl; [|apply selectMap_is_table].
  unfold buf_length at 1. rewrite Hl.
  apply new_Buffer_length, sizeOf_nonneg.
Qed.

Lemma pack_var_length_is_sizeOf_witness :
  pack_var x64 "<Hxi3s" [VNum 513; VNum (-2); VStr "hi"] true
    = Ok [1; 2; 0; 254; 255; 255; 255; 104; 105; 0]
  /\ buf_length [1; 2; 0; 254; 255; 255; 255; 104; 105; 0] = sizeOf_var x64 "<Hxi3s".
Proof.
  split; [reflexivity|].
  apply (pack_var_length_is_sizeOf x64 "<Hxi3s" [VNum 513; VNum (-2); VStr "hi"] true).
  reflexivity.
Defined.

(** ** Values that run out, in the copy written with [var] *)

(** X17: in the copy written with [var], with bounds checking, [pack]
    throws the end-of-data error only when the format asks for more values
    than there are; when a sequence of values packs without error, every
    shorter beginning of it that leaves an occurrence without a value makes
    [pack] throw that error; and a sequence that packs has a value for
    every occurrence. *)
Theorem pack_var_values_check h format data :
  (pack_var h format data true = Throw ReachedEndOfData ->
   (length data < value_slots_var h format)%nat)
  /\ (forall packed k,
        pack_var h format data true = Ok packed ->
        (k < value_slots_var h format)%nat ->
        pack_var h format (firstn k data) true = Throw ReachedEndOfData)
  /\ (forall packed, pack_var h format data true = Ok packed ->
        (value_slots_var h format <= length data)%nat).
Proof.
  rewrite value_slots_var_same, pack_var_fresh.
  assert (Hcut : forall k, pack_var h format (firstn k data) true
                           = pack_fresh h format (firstn k data) true)
    by (intros; apply pack_var_fresh).
  unfold pack_fresh, pack_into, value_slots in *. cbn zeta in *.
  set (m := sel_map (selectMap h (list_ascii_of_string format))) in *.
  set (w := walked h (list_ascii_of_string format)) in *.
  set (b := new_Buffer h (sizeOf h format)) in *.
  assert (Hm : is_table h m) by apply selectMap_is_table.
  pose proof (pack_loop_checked h m data Hm w 0 None 0%nat b) as Hchk.
  assert (Hok : forall packed,
             (st <- pack_loop m data true w (0, None, 0%nat, b) ;; Ok (snd st)) = Ok packed ->
             (pack_slots m w None <= length data)%nat).
  { intros packed. destruct (pack_loop m data true w _) as [[[[p1 c1] d1] b1]|e];
      cbn [bind]; [|discriminate].
    intros _. destruct Hchk as [-> Hle]. cbn in Hle. lia. }
  split; [|split].
  - destruct (pack_loop m data true w _) as [[[[p1 c1] d1] b1]|e]; cbn [bind];
      [discriminate|].
    intros [= ->]. specialize (Hchk eq_refl). lia.
  - intros packed k Hfull Hk. pose proof (Hok _ Hfull) as Hslots. rewrite Hcut.
    destruct (pack_loop m data true w _) as [st|e] eqn:Hl; cbn [bind] in Hfull;
      [|discriminate].
    rewrite (pack_loop_prefix h m data k Hm ltac:(lia) w 0 None 0%nat b st ltac:(lia) Hl).
    destruct (Nat.ltb_spec k (0 + pack_slots m w None)); [reflexivity|lia].
  - exact Hok.
Qed.

Lemma pack_var_values_check_witness :
  pack_var x64 "<xBH" [VNum 1] true = Throw ReachedEndOfData
  /\ pack_var x64 "<xBH" [VNum 1; VNum 2] true = Ok [0; 1; 2; 0]
  /\ pack_var x64 "<3x" [] true = Ok [0; 0; 0].
Proof.
  split; [|split; reflexivity].
  apply (proj1 (proj2 (pack_var_values_check x64 "<xBH" [VNum 1; VNum 2])) [0; 1; 2; 0] 1%nat);
    [reflexivity|cbn; lia].
Defined.

(** ** Counts and other characters in [pack], in the copy written with [var] *)

Lemma pending_same m m' : same_but_text m m' ->
  forall format decimal, pending m' format decimal = pending m format decimal.
Proof.
  intros Hs format; induction format as [|c rest IH]; intros decimal;
    cbn [pending]; [reflexivity|].
  destruct (is_digit c); [apply IH|].
  specialize (Hs c). destruct (m c) as [o|], (m' c) as [o'|]; try contradiction;
    apply IH.
Qed.

Lemma pending_count_var_same h format : pending_count_var h format = pending_count h format.
Proof.
  unfold pending_count_var, pending_count. cbn zeta. rewrite walked_var_same.
  apply pending_same, selectMap_var_same.
Qed.

(** X18: in the copy written with [var], [pack] passes over a character
    that is neither a digit nor a type code, standing anywhere after the
    first character of the format: the format with the character and the
    format without it give the same result, buffer or error, so a count
    written before the character goes to the next type code. *)
Theorem pack_var_skips_unrecognized h pre c post values checkBounds :
  pre <> EmptyString ->
  is_digit c = false ->
  ~ In c type_codes ->
  pack_var h (pre ++ String c post) values checkBounds
  = pack_var h (pre ++ post) values checkBounds.
Proof.
  intros Hpre Hdig Hkey. rewrite !pack_var_fresh.
  assert (Hne : list_ascii_of_string pre <> []) by (destruct pre; [congruence|discriminate]).
  assert (Hnone : sel_map (selectMap h (list_ascii_of_string pre)) c = None)
    by (eapply table_no_key; [apply selectMap_is_table|assumption]).
  assert (Hsize : sizeOf h (pre ++ String c post) = sizeOf h (pre ++ post)).
  { unfold sizeOf. rewrite !list_ascii_of_string_app.
    rewrite !selectMap_app, !walked_app by assumption.
    cbn [list_ascii_of_string]. apply sizeOf_loop_skip; assumption. }
  unfold pack_fresh, pack_into. rewrite Hsize, !list_ascii_of_string_app.
  rewrite !selectMap_app, !walked_app by assumption.
  cbn [list_ascii_of_string].
  rewrite pack_loop_skip; [reflexivity|assumption|assumption].
Qed.

Lemma pack_var_skips_unrecognized_witness :
  pack_var x64 "<2 B" [VNum 7; VNum 9] true = pack_var x64 "<2B" [VNum 7; VNum 9] true
  /\ pack_var x64 "<2 B" [VNum 7; VNum 9] true = Ok [7; 9].
Proof.
  split; [|reflexivity].
  apply (pack_var_skips_unrecognized x64 "<2" " " "B" [VNum 7; VNum 9] true).
  - discriminate.
  - reflexivity.
  - unfold type_codes; cbn; intros H;
      repeat (destruct H as [H|H]; [discriminate H|]); exact H.
Defined.

(** X19: in the copy written with [var], [pack] takes a written count of 0
    on a repeated code (any type code but [s] and [p]) as 1.  Wherever in a
    format the field stands, as long as no other count is pending in front
    of it, ['0c'], ['1c'] and a bare ['c'] give the same result, buffer or
    error. *)
Theorem pack_var_zero_count h pre c post values checkBounds :
  In c scalar_codes ->
  pending_count_var h pre = None ->
  let zero := (pre ++ String "0" (String c post))%string in
  let one := (pre ++ String "1" (String c post))%string in
  let bare := (pre ++ String c post)%string in
  pack_var h zero values checkBounds = pack_var h one values checkBounds
  /\ pack_var h zero values checkBounds = pack_var h bare values checkBounds.
Proof.
  intros Hc Hpend zero one bare. rewrite pending_count_var_same in Hpend.
  rewrite !pack_var_fresh.
  unfold pending_count in Hpend. cbn zeta in Hpend.
  pose proof (scalar_code_is_type_code _ Hc) as Hkey.
  set (m := sel_map (selectMap h (list_ascii_of_string pre))) in *.
  assert (Hm : is_table h m) by apply selectMap_is_table.
  destruct (selection_after h pre "0" (c :: list_ascii_of_string post)
              (or_introl eq_refl)) as [M0 W0].
  destruct (selection_after h pre "1" (c :: list_ascii_of_string post)
              (or_introl eq_refl)) as [M1 W1].
  destruct (selection_after h pre c (list_ascii_of_string post)
              (or_intror Hkey)) as [Mb Wb].
  assert (Hsize : sizeOf h zero = sizeOf h one /\ sizeOf h zero = sizeOf h bare).
  { unfold sizeOf, zero, one, bare. rewrite !list_ascii_of_string_app.
    cbn [list_ascii_of_string]. rewrite M0, M1, Mb, W0, W1, Wb. fold m.
    split; apply sizeOf_loop_after; try assumption;
      intros size; apply (sizeOf_field_zero h m c _ Hm Hc size). }
  destruct Hsize as [S1 Sb].
  unfold pack_fresh, pack_into. rewrite <- S1, <- Sb.
  unfold zero, one, bare. rewrite !list_ascii_of_string_app.
  cbn [list_ascii_of_string]. rewrite M0, M1, Mb, W0, W1, Wb. fold m.
  split; f_equal; apply pack_loop_after; try assumption;
    intros p d b; apply (pack_field_zero h m values checkBounds c _ Hm Hc p d b).
Qed.

Lemma pack_var_zero_count_witness :
  (pack_var x64 "<b0iH" [VNum 1; VNum 2; VNum 3] true
   = pack_var x64 "<b1iH" [VNum 1; VNum 2; VNum 3] true
   /\ pack_var x64 "<b0iH" [VNum 1; VNum 2; VNum 3] true
      = pack_var x64 "<biH" [VNum 1; VNum 2; VNum 3] true)
  /\ pack_var x64 "<b0iH" [VNum 1; VNum 2; VNum 3] true = Ok [1; 2; 0; 0; 0; 3; 0].
Proof.
  split; [|reflexivity].
  apply (pack_var_zero_count x64 "<b" "i" "H" [VNum 1; VNum 2; VNum 3] true).
  - unfold scalar_codes; pick_member.
  - reflexivity.
Defined.
